(** * digital-vault: the show cataloguer [catalog_shows_v3_1.py]

    A shallow embedding of the classification-and-extraction engine of
    [src/data-pipeline/01_scan_hd_shows/catalog_shows_v3_1.py] and the
    properties its specification states about it.

    Text.  A Python [str] is modelled as a [string] whose characters are
    the code points 0..255 (ASCII and Latin-1).  Character classes and
    case mapping are those of Python on these code points.  A code point
    above 255 that occurs in a pattern of the program (the dashes U+2013
    and U+2014, the apostrophe U+2019) cannot occur in a modelled text, so
    it is kept in the pattern as an item that matches no character.

    A file name whose bytes are not UTF-8 reaches the program as a text
    with a lone surrogate code point for each such byte; such a text
    cannot be encoded.  No file name holds the character NUL: in the text
    of a path the model writes NUL for a lone surrogate.  Like a
    surrogate, NUL is no white space, letter, digit or line break and has
    one case only, so that the functions on text treat the two alike. *)

From Stdlib Require Import ZArith NArith Ascii String List Bool Lia.
From Stdlib Require Import DecimalString DecimalPos Sorted.
From stdpp Require Import base gmap strings list.

Set Warnings "-abstract-large-number,-register-all".

Local Open Scope string_scope.
Local Open Scope list_scope.

(** ** Characters and strings as Python has them *)

Module Py.

Definition code (c : ascii) : N := N_of_ascii c.

Definition in_range (lo hi : N) (c : ascii) : bool :=
  ((lo <=? code c) && (code c <=? hi))%N.

Definition is_code (n : N) (c : ascii) : bool := (code c =? n)%N.

(** [\d]: the decimal digits (the only ones below 256). *)
Definition is_digit (c : ascii) : bool := in_range 48 57 c.

Definition is_ascii_alpha (c : ascii) : bool :=
  in_range 65 90 c || in_range 97 122 c.

(** [str.isspace], which is also [\s] of a [str] pattern. *)
Definition is_space (c : ascii) : bool :=
  in_range 9 13 c || in_range 28 32 c || is_code 133 c || is_code 160 c.

(** [str.isalnum] on Latin-1. *)
Definition is_alnum (c : ascii) : bool :=
  is_digit c || is_ascii_alpha c
  || is_code 170 c || is_code 178 c || is_code 179 c || is_code 181 c
  || is_code 185 c || is_code 186 c || in_range 188 190 c
  || in_range 192 214 c || in_range 216 246 c || in_range 248 255 c.

(** [\w]: alphanumeric or underscore. *)
Definition is_word (c : ascii) : bool := is_alnum c || is_code 95 c.

(** The line boundaries of [str.splitlines] below 256, apart from the
    pair CR LF which is handled by [splitlines]. *)
Definition is_linebreak (c : ascii) : bool :=
  in_range 10 13 c || in_range 28 30 c || is_code 133 c.

Definition lower_char (c : ascii) : ascii :=
  if in_range 65 90 c || in_range 192 214 c || in_range 216 222 c
  then ascii_of_N (code c + 32) else c.

(** Upper case of one character where it is again one character below
    256; the three exceptions are left to [upper]. *)
Definition upper_char (c : ascii) : ascii :=
  if in_range 97 122 c || in_range 224 246 c || in_range 248 254 c
  then ascii_of_N (code c - 32) else c.

Fixpoint lower (s : string) : string :=
  match s with
  | EmptyString => EmptyString
  | String c s' => String (lower_char c) (lower s')
  end.

(** [str.upper].  The sharp s becomes "SS".  The micro sign and the y with
    diaeresis have their upper case above 255: they are left in place; the
    program only looks the result up in tables whose keys are ASCII, where
    neither form is found. *)
Fixpoint upper (s : string) : string :=
  match s with
  | EmptyString => EmptyString
  | String c s' =>
      if is_code 223 c then String "S" (String "S" (upper s'))
      else String (upper_char c) (upper s')
  end.

Fixpoint lstrip_by (p : ascii -> bool) (s : string) : string :=
  match s with
  | EmptyString => EmptyString
  | String c s' => if p c then lstrip_by p s' else s
  end.

(** Drops the trailing characters that satisfy [p]. *)
Fixpoint rstrip_by (p : ascii -> bool) (s : string) : string :=
  match s with
  | EmptyString => EmptyString
  | String c s' =>
      match rstrip_by p s' with
      | EmptyString => if p c then EmptyString else String c EmptyString
      | t => String c t
      end
  end.

Definition strip_by (p : ascii -> bool) (s : string) : string :=
  rstrip_by p (lstrip_by p s).

(** [s.strip()], [s.rstrip()] *)
Definition strip (s : string) : string := strip_by is_space s.
Definition rstrip (s : string) : string := rstrip_by is_space s.

Fixpoint mem_char (c : ascii) (s : string) : bool :=
  match s with
  | EmptyString => false
  | String d s' => Ascii.eqb c d || mem_char c s'
  end.

(** [s.strip(chars)] *)
Definition strip_chars (chars : string) (s : string) : string :=
  strip_by (fun c => mem_char c chars) s.

(** [str.splitlines()]: [cur] is the line read so far, reversed. *)
Fixpoint splitlines_aux (cur : list ascii) (s : string) : list string :=
  match s with
  | EmptyString =>
      match cur with
      | [] => []
      | _ => [string_of_list_ascii (rev cur)]
      end
  | String c s' =>
      if is_linebreak c then
        string_of_list_ascii (rev cur) ::
          (if is_code 13 c then
             match s' with
             | String d s'' => if is_code 10 d then splitlines_aux [] s''
                               else splitlines_aux [] s'
             | EmptyString => splitlines_aux [] s'
             end
           else splitlines_aux [] s')
      else splitlines_aux (c :: cur) s'
  end.

Definition splitlines (s : string) : list string := splitlines_aux [] s.

(** [sep.join(parts)] *)
Fixpoint join (sep : string) (parts : list string) : string :=
  match parts with
  | [] => EmptyString
  | [p] => p
  | p :: ps => p ++ sep ++ join sep ps
  end.

(** [x in xs] for a list or set of strings. *)
Definition mem (x : string) (xs : list string) : bool :=
  existsb (String.eqb x) xs.

(** The truth value of a string: non-empty. *)
Definition truthy (s : string) : bool :=
  match s with EmptyString => false | _ => true end.

(** [s[:n]] *)
Fixpoint prefix (n : nat) (s : string) : string :=
  match n, s with
  | S n', String c s' => String c (prefix n' s')
  | _, _ => EmptyString
  end.

(** [s.startswith(p)] *)
Fixpoint startswith (p s : string) : bool :=
  match p, s with
  | EmptyString, _ => true
  | String a p', String b s' => Ascii.eqb a b && startswith p' s'
  | _, _ => false
  end.

(** [str(n)] for an integer *)
Definition str_of_Z (n : Z) : string := NilZero.string_of_int (Z.to_int n).

(** [f"{n:0wd}"] for [0 <= n]: decimal, padded with zeros to width [w]. *)
Definition zero_pad (w : nat) (n : Z) : string :=
  let d := str_of_Z n in
  string_of_list_ascii (repeat "0"%char (w - String.length d)) ++ d.

(** The value of a run of decimal digits, most significant first. *)
Fixpoint digits_value (acc : Z) (s : string) : option Z :=
  match s with
  | EmptyString => Some acc
  | String c s' =>
      if is_digit c then digits_value (10 * acc + Z.of_N (code c - 48)) s'
      else None
  end.

(** Removes the underscores that stand between two digits of a literal
    accepted by [int]; any other underscore makes the literal invalid. *)
Fixpoint drop_digit_separators (after_digit : bool) (s : string) : option string :=
  match s with
  | EmptyString => Some EmptyString
  | String c s' =>
      if is_code 95 c then
        match s' with
        | String d _ =>
            if after_digit && is_digit d then drop_digit_separators false s'
            else None
        | EmptyString => None
        end
      else
        match drop_digit_separators (is_digit c) s' with
        | Some t => Some (String c t)
        | None => None
        end
  end.

(** [int(s)] for a string: surrounding white space, an optional sign, then
    decimal digits; [None] stands for the [ValueError]. *)
Definition int_of_str (s : string) : option Z :=
  let body sign t :=
    match t with
    | EmptyString => None
    | _ =>
        match drop_digit_separators false t with
        | Some u =>
            match digits_value 0 u with
            | Some v => Some (sign * v)%Z
            | None => None
            end
        | None => None
        end
    end in
  match strip s with
  | String "-" t => body (-1)%Z t
  | String "+" t => body 1%Z t
  | t => body 1%Z t
  end.

End Py.

(** ** Regular expressions: the part of Python's [re] the program uses *)

Module Re.

Import Py.

(** An item of a character class. *)
Inductive citem : Type :=
| CChar (c : ascii)
| CRange (lo hi : ascii)
| CDigit
| CSpace
| CWord
| COutside.   (* a code point above 255 *)

Inductive regex : Type :=
| REmpty
| RLit (c : ascii)
| ROutside                                     (* a code point above 255 *)
| RAny                                         (* [.] *)
| RSet (negated : bool) (items : list citem)   (* [[...]], [\d], [\s], [\w] *)
| RBol                                         (* [^] *)
| REol                                         (* [$] *)
| RWordB                                       (* [\b] *)
| RSeq (r1 r2 : regex)
| RAlt (r1 r2 : regex)
| RRep (lo : nat) (hi : option nat) (greedy : bool) (r : regex)
| RGroup (idx : nat) (r : regex).

(** A compiled pattern: the expression, its flags and its number of groups. *)
Record pattern : Type := Pattern {
  p_regex : regex;
  p_ignorecase : bool;
  p_multiline : bool;
  p_groups : nat
}.

(** *** Reading a pattern *)

Definition is_cont_byte (c : ascii) : bool := in_range 128 191 c.

Fixpoint drop_cont_bytes (s : list ascii) : list ascii :=
  match s with
  | c :: s' => if is_cont_byte c then drop_cont_bytes s' else s
  | [] => []
  end.

(** One character of the pattern's source text, which is UTF-8: an ASCII
    byte, a two-byte sequence for a code point below 256, or a longer
    sequence for a code point that is outside the modelled alphabet. *)
Definition read_char (c : ascii) (s : list ascii) : option ascii * list ascii :=
  if in_range 0 127 c then (Some c, s)
  else if in_range 194 195 c then
    match s with
    | d :: s' => (Some (ascii_of_N ((code c - 192) * 64 + (code d - 128))), s')
    | [] => (None, [])
    end
  else (None, drop_cont_bytes s).

Fixpoint read_nat (acc : nat) (s : list ascii) : nat * list ascii :=
  match s with
  | c :: s' =>
      if is_digit c then read_nat (10 * acc + N.to_nat (code c - 48)) s'
      else (acc, s)
  | [] => (acc, [])
  end.

(** The class of an escape [\d], [\s], [\w]. *)
Definition escape_class (c : ascii) : option citem :=
  if Ascii.eqb c "d" then Some CDigit
  else if Ascii.eqb c "s" then Some CSpace
  else if Ascii.eqb c "w" then Some CWord
  else None.

(** The character of any other escape: [\n], [\t], [\r], [\f], [\v], and
    the escaped character itself for punctuation. *)
Definition escape_char (c : ascii) : ascii :=
  if Ascii.eqb c "n" then ascii_of_N 10
  else if Ascii.eqb c "t" then ascii_of_N 9
  else if Ascii.eqb c "r" then ascii_of_N 13
  else if Ascii.eqb c "f" then ascii_of_N 12
  else if Ascii.eqb c "v" then ascii_of_N 11
  else c.

Definition item_of_char (oc : option ascii) : citem :=
  match oc with Some c => CChar c | None => COutside end.

(** The items of a class, after the opening bracket, up to the closing one. *)
Fixpoint parse_class (fuel : nat) (s : list ascii) : option (list citem * list ascii) :=
  match fuel with
  | O => None
  | S fuel' =>
      match s with
      | [] => None
      | "]"%char :: s' => Some ([], s')
      | "\"%char :: e :: s' =>
          match parse_class fuel' s' with
          | Some (items, s'') =>
              Some (match escape_class e with
                    | Some it => it
                    | None => CChar (escape_char e)
                    end :: items, s'')
          | None => None
          end
      | c :: s' =>
          let '(oc, s1) := read_char c s' in
          match oc, s1 with
          | Some lo, "-"%char :: hi :: s2 =>
              if Ascii.eqb hi "]" then
                match parse_class fuel' s1 with
                | Some (items, s'') => Some (CChar lo :: items, s'')
                | None => None
                end
              else
                match parse_class fuel' s2 with
                | Some (items, s'') => Some (CRange lo hi :: items, s'')
                | None => None
                end
          | _, _ =>
              match parse_class fuel' s1 with
              | Some (items, s'') => Some (item_of_char oc :: items, s'')
              | None => None
              end
          end
      end
  end.

(** A quantifier after an atom, if there is one: [*], [+], [?], [{m}],
    [{m,}], [{m,n}], each lazy when followed by [?]. *)
Definition parse_quant (a : regex) (s : list ascii) : regex * list ascii :=
  let lazy lo hi s' :=
    match s' with
    | "?"%char :: s'' => (RRep lo hi false a, s'')
    | _ => (RRep lo hi true a, s')
    end in
  match s with
  | "*"%char :: s' => lazy 0%nat None s'
  | "+"%char :: s' => lazy 1%nat None s'
  | "?"%char :: s' => lazy 0%nat (Some 1%nat) s'
  | "{"%char :: s' =>
      let '(lo, s1) := read_nat 0 s' in
      match s1 with
      | "}"%char :: s2 => lazy lo (Some lo) s2
      | ","%char :: "}"%char :: s2 => lazy lo None s2
      | ","%char :: s2 =>
          let '(hi, s3) := read_nat 0 s2 in
          match s3 with
          | "}"%char :: s4 => lazy lo (Some hi) s4
          | _ => (a, s)
          end
      | _ => (a, s)
      end
  | _ => (a, s)
  end.

(** Alternation, sequence and atom; [g] is the number of groups opened so
    far, a group takes its number when it opens. *)
Fixpoint parse_alt (fuel : nat) (s : list ascii) (g : nat)
  : option (regex * list ascii * nat) :=
  match fuel with
  | O => None
  | S fuel' =>
      match parse_seq fuel' s g with
      | Some (r1, "|"%char :: s1, g1) =>
          match parse_alt fuel' s1 g1 with
          | Some (r2, s2, g2) => Some (RAlt r1 r2, s2, g2)
          | None => None
          end
      | other => other
      end
  end
with parse_seq (fuel : nat) (s : list ascii) (g : nat)
  : option (regex * list ascii * nat) :=
  match fuel with
  | O => None
  | S fuel' =>
      match s with
      | [] => Some (REmpty, s, g)
      | "|"%char :: _ => Some (REmpty, s, g)
      | ")"%char :: _ => Some (REmpty, s, g)
      | _ =>
          match parse_atom fuel' s g with
          | Some (a, s1, g1) =>
              let '(q, s2) := parse_quant a s1 in
              match parse_seq fuel' s2 g1 with
              | Some (REmpty, s3, g2) => Some (q, s3, g2)
              | Some (r, s3, g2) => Some (RSeq q r, s3, g2)
              | None => None
              end
          | None => None
          end
      end
  end
with parse_atom (fuel : nat) (s : list ascii) (g : nat)
  : option (regex * list ascii * nat) :=
  match fuel with
  | O => None
  | S fuel' =>
      match s with
      | [] => None
      | "("%char :: "?"%char :: ":"%char :: s' =>
          match parse_alt fuel' s' g with
          | Some (r, ")"%char :: s1, g1) => Some (r, s1, g1)
          | _ => None
          end
      | "("%char :: s' =>
          match parse_alt fuel' s' (S g) with
          | Some (r, ")"%char :: s1, g1) => Some (RGroup (S g) r, s1, g1)
          | _ => None
          end
      | "["%char :: "^"%char :: s' =>
          match parse_class fuel' s' with
          | Some (items, s1) => Some (RSet true items, s1, g)
          | None => None
          end
      | "["%char :: s' =>
          match parse_class fuel' s' with
          | Some (items, s1) => Some (RSet false items, s1, g)
          | None => None
          end
      | "\"%char :: e :: s' =>
          if Ascii.eqb e "b" then Some (RWordB, s', g)
          else match escape_class e with
               | Some it => Some (RSet false [it], s', g)
               | None => Some (RLit (escape_char e), s', g)
               end
      | "."%char :: s' => Some (RAny, s', g)
      | "^"%char :: s' => Some (RBol, s', g)
      | "$"%char :: s' => Some (REol, s', g)
      | c :: s' =>
          match read_char c s' with
          | (Some x, s1) => Some (RLit x, s1, g)
          | (None, s1) => Some (ROutside, s1, g)
          end
      end
  end.

(** [re.compile(src, flags)]: a leading [(?i)], [(?m)] or [(?im)] sets the
    flag for the whole pattern.  A source text that is not a pattern
    compiles to the pattern that matches nothing; every pattern of the
    program is well formed. *)
Definition compile_flags (ignorecase multiline : bool) (src : string) : pattern :=
  let '(ic, ml, skip) :=
    if startswith "(?im)" src then (true, true, 5%nat)
    else if startswith "(?i)" src then (true, multiline, 4%nat)
    else if startswith "(?m)" src then (ignorecase, true, 4%nat)
    else (ignorecase, multiline, 0%nat) in
  let body := skipn skip (list_ascii_of_string src) in
  match parse_alt (3 * (List.length body) + 3) body 0 with
  | Some (r, [], g) => Pattern r ic ml g
  | _ => Pattern ROutside ic ml 0
  end.

(** [re.compile(src)] *)
Definition compile (src : string) : pattern := compile_flags false false src.
(** [re.compile(src, re.IGNORECASE)] *)
Definition compile_i (src : string) : pattern := compile_flags true false src.
(** [re.compile(src, re.IGNORECASE | re.MULTILINE)] *)
Definition compile_im (src : string) : pattern := compile_flags true true src.

(** *** Matching: backtracking, leftmost, alternatives in order *)

(** The groups that have matched, the latest first. *)
Definition captures : Type := list (nat * string).

(** What a match attempt threads along: the character before the current
    position (none at the start of the text), the text that remains and
    the groups so far. *)
Definition cont : Type :=
  option ascii -> list ascii -> captures -> option (list ascii * captures).

Definition item_match (it : citem) (c : ascii) : bool :=
  match it with
  | CChar d => Ascii.eqb c d
  | CRange lo hi => in_range (code lo) (code hi) c
  | CDigit => is_digit c
  | CSpace => is_space c
  | CWord => is_word c
  | COutside => false
  end.

(** Under IGNORECASE a character is in a class when one of its cases is. *)
Definition class_match (ic : bool) (items : list citem) (c : ascii) : bool :=
  existsb (fun it =>
    item_match it c
    || (ic && (item_match it (lower_char c) || item_match it (upper_char c))))
    items.

Definition lit_match (ic : bool) (p c : ascii) : bool :=
  if ic then Ascii.eqb (lower_char p) (lower_char c) else Ascii.eqb p c.

Definition is_newline (c : ascii) : bool := is_code 10 c.

(** [^]: the start of the text, under MULTILINE also after a newline. *)
Definition at_bol (ml : bool) (prev : option ascii) : bool :=
  match prev with
  | None => true
  | Some c => ml && is_newline c
  end.

(** [$]: the end of the text or before the newline that ends it, under
    MULTILINE before every newline. *)
Definition at_eol (ml : bool) (s : list ascii) : bool :=
  match s with
  | [] => true
  | c :: s' => is_newline c && (ml || match s' with [] => true | _ => false end)
  end.

Definition word_at (oc : option ascii) : bool :=
  match oc with Some c => is_word c | None => false end.

(** [\b]: exactly one side is a word character. *)
Definition at_word_boundary (prev : option ascii) (s : list ascii) : bool :=
  xorb (word_at prev) (word_at (head s)).

(** The text consumed between two positions. *)
Definition consumed (s s' : list ascii) : string :=
  string_of_list_ascii (firstn (List.length s - List.length s') s).

(** Matches [r] at the current position and hands the position after it to
    [k]; when [k] fails the next way of matching [r] is tried.  A greedy
    repetition tries one more round before it tries to stop, a lazy one
    the other way round; a round beyond the required ones has to consume
    text. *)
Fixpoint run (ic ml : bool) (r : regex) (prev : option ascii) (s : list ascii)
             (cs : captures) (k : cont) {struct r} : option (list ascii * captures) :=
  match r with
  | REmpty => k prev s cs
  | RLit c =>
      match s with
      | x :: s' => if lit_match ic c x then k (Some x) s' cs else None
      | [] => None
      end
  | ROutside => None
  | RAny =>
      match s with
      | x :: s' => if is_newline x then None else k (Some x) s' cs
      | [] => None
      end
  | RSet neg items =>
      match s with
      | x :: s' => if xorb neg (class_match ic items x) then k (Some x) s' cs else None
      | [] => None
      end
  | RBol => if at_bol ml prev then k prev s cs else None
  | REol => if at_eol ml s then k prev s cs else None
  | RWordB => if at_word_boundary prev s then k prev s cs else None
  | RSeq a b => run ic ml a prev s cs (fun p' s' cs' => run ic ml b p' s' cs' k)
  | RAlt a b =>
      match run ic ml a prev s cs k with
      | Some res => Some res
      | None => run ic ml b prev s cs k
      end
  | RGroup i a =>
      run ic ml a prev s cs (fun p' s' cs' => k p' s' ((i, consumed s s') :: cs'))
  | RRep lo hi greedy a =>
      let more : cont :=
        (fix more (n : nat) : cont :=
           fun p1 s1 cs1 =>
             match n with
             | O => k p1 s1 cs1
             | S n' =>
                 let again (_ : unit) :=
                   run ic ml a p1 s1 cs1 (fun p2 s2 cs2 =>
                     if (List.length s2 <? List.length s1)%nat
                     then more n' p2 s2 cs2 else None) in
                 if greedy then
                   match again tt with
                   | Some res => Some res
                   | None => k p1 s1 cs1
                   end
                 else
                   match k p1 s1 cs1 with
                   | Some res => Some res
                   | None => again tt
                   end
             end)
          (match hi with
           | Some h => (h - lo)%nat
           | None => List.length s
           end) in
      (fix must (n : nat) : cont :=
         match n with
         | O => more
         | S n' => fun p1 s1 cs1 => run ic ml a p1 s1 cs1 (must n')
         end) lo prev s cs
  end.

(** A match object: where it starts, the text before it, its text
    ([group(0)]), the text after it and its groups. *)
Record rmatch : Type := Match {
  m_before : string;
  m_text : string;
  m_after : string;
  m_caps : captures
}.

(** [m.group(i)] for [1 <= i]; [None] when the group took no part. *)
Fixpoint lookup_cap (i : nat) (cs : captures) : option string :=
  match cs with
  | [] => None
  | (j, v) :: cs' => if Nat.eqb i j then Some v else lookup_cap i cs'
  end.

Definition group (m : rmatch) (i : nat) : option string := lookup_cap i (m_caps m).

(** [m.group(i)] where the program relies on the group having matched. *)
Definition group_str (m : rmatch) (i : nat) : string :=
  match group m i with Some v => v | None => EmptyString end.

(** One attempt at the position after [before_rev]. *)
Definition attempt (p : pattern) (before_rev s : list ascii) : option rmatch :=
  match run (p_ignorecase p) (p_multiline p) (p_regex p) (head before_rev) s []
            (fun _ s' cs' => Some (s', cs')) with
  | Some (s', cs') =>
      Some (Match (string_of_list_ascii (rev before_rev)) (consumed s s')
                  (string_of_list_ascii s') cs')
  | None => None
  end.

Fixpoint search_from (p : pattern) (before_rev s : list ascii) : option rmatch :=
  match attempt p before_rev s with
  | Some m => Some m
  | None =>
      match s with
      | [] => None
      | x :: s' => search_from p (x :: before_rev) s'
      end
  end.

(** [p.search(text)]: the leftmost match. *)
Definition search (p : pattern) (text : string) : option rmatch :=
  search_from p [] (list_ascii_of_string text).

(** [p.match(text)]: a match at the start of the text. *)
Definition match_ (p : pattern) (text : string) : option rmatch :=
  attempt p [] (list_ascii_of_string text).

(** The matches from left to right, none overlapping another, each with
    the text between it and the match before; then the text after the
    last one.  After a match the scan goes on where it ended (one
    character further when it was empty: no pattern the program scans
    with can match the empty text). *)
Fixpoint scan (fuel : nat) (p : pattern) (before_rev gap_rev s : list ascii)
  : list (string * rmatch) * string :=
  match fuel with
  | O => ([], string_of_list_ascii (rev gap_rev ++ s))
  | S fuel' =>
      match attempt p before_rev s with
      | Some m =>
          let n := String.length (m_text m) in
          match n, s with
          | O, x :: s' =>
              let '(ms, tail) := scan fuel' p (x :: before_rev) [x] s' in
              ((string_of_list_ascii (rev gap_rev), m) :: ms, tail)
          | O, [] => ([(string_of_list_ascii (rev gap_rev), m)], EmptyString)
          | _, _ =>
              let '(ms, tail) :=
                scan fuel' p (rev (firstn n s) ++ before_rev) [] (skipn n s) in
              ((string_of_list_ascii (rev gap_rev), m) :: ms, tail)
          end
      | None =>
          match s with
          | [] => ([], string_of_list_ascii (rev gap_rev))
          | x :: s' => scan fuel' p (x :: before_rev) (x :: gap_rev) s'
          end
      end
  end.

Definition finditer (p : pattern) (text : string) : list (string * rmatch) * string :=
  scan (S (String.length text)) p [] [] (list_ascii_of_string text).

(** [p.sub(repl, text)] for a replacement without group references. *)
Definition sub (p : pattern) (repl text : string) : string :=
  let '(ms, tail) := finditer p text in
  fold_right (fun gm acc => fst gm +:+ repl +:+ acc) tail ms.

(** [p.split(text)] for a pattern without groups. *)
Definition split (p : pattern) (text : string) : list string :=
  let '(ms, tail) := finditer p text in
  map fst ms ++ [tail].

(** [p.findall(text)] for a pattern without groups. *)
Definition findall (p : pattern) (text : string) : list string :=
  map (fun gm => m_text (snd gm)) (fst (finditer p text)).

End Re.

(** ** SHA-1, as [hashlib.sha1] computes it *)

Module Sha1.

Local Open Scope Z_scope.

(** A byte string is a [string]: one character, one byte. *)
Definition byte_val (c : ascii) : Z := Z.of_N (N_of_ascii c).

Definition w32 (x : Z) : Z := x mod 2 ^ 32.

(** Left rotation of a 32-bit word. *)
Definition rotl (n : Z) (x : Z) : Z :=
  w32 (Z.lor (Z.shiftl x n) (Z.shiftr x (32 - n))).

Definition lnot32 (x : Z) : Z := Z.lxor x (2 ^ 32 - 1).

(** The message followed by the bit 1, zeros up to 56 modulo 64 bytes, and
    the length in bits as a 64-bit big-endian number. *)
Definition be_bytes (width : nat) (x : Z) : list Z :=
  map (fun i => (x / 2 ^ (8 * Z.of_nat i)) mod 256) (rev (seq 0 width)).

Definition pad (msg : list Z) : list Z :=
  let len := Z.of_nat (List.length msg) in
  let zeros := Z.to_nat ((55 - len) mod 64) in
  msg ++ 128 :: repeat 0 zeros ++ be_bytes 8 (8 * len).

(** Sixteen big-endian words of a block of 64 bytes. *)
Fixpoint words (n : nat) (bs : list Z) : list Z :=
  match n with
  | O => []
  | S n' =>
      match bs with
      | b0 :: b1 :: b2 :: b3 :: bs' =>
          (((b0 * 256 + b1) * 256 + b2) * 256 + b3) :: words n' bs'
      | _ => []
      end
  end.

(** The message schedule, kept with the latest word first: [w] holds
    W(t-1), W(t-2), ... and is extended up to W(79). *)
Fixpoint schedule (n : nat) (w : list Z) : list Z :=
  match n with
  | O => w
  | S n' =>
      let x := Z.lxor (Z.lxor (nth 2 w 0) (nth 7 w 0))
                      (Z.lxor (nth 13 w 0) (nth 15 w 0)) in
      schedule n' (rotl 1 x :: w)
  end.

Definition round_f (t : nat) (b c d : Z) : Z :=
  if (t <? 20)%nat then Z.lor (Z.land b c) (Z.land (lnot32 b) d)
  else if (t <? 40)%nat then Z.lxor (Z.lxor b c) d
  else if (t <? 60)%nat then
    Z.lor (Z.lor (Z.land b c) (Z.land b d)) (Z.land c d)
  else Z.lxor (Z.lxor b c) d.

Definition round_k (t : nat) : Z :=
  if (t <? 20)%nat then 0x5A827999
  else if (t <? 40)%nat then 0x6ED9EBA1
  else if (t <? 60)%nat then 0x8F1BBCDC
  else 0xCA62C1D6.

Definition state : Type := (Z * Z * Z * Z * Z)%type.

Fixpoint rounds (t : nat) (ws : list Z) (st : state) : state :=
  match ws with
  | [] => st
  | wt :: ws' =>
      let '(a, b, c, d, e) := st in
      let tmp := w32 (rotl 5 a + round_f t b c d + e + round_k t + wt) in
      rounds (S t) ws' (tmp, a, rotl 30 b, c, d)
  end.

Definition compress (h : state) (block : list Z) : state :=
  let ws := rev (schedule 64 (rev (words 16 block))) in
  let '(a, b, c, d, e) := rounds 0 ws h in
  let '(h0, h1, h2, h3, h4) := h in
  (w32 (h0 + a), w32 (h1 + b), w32 (h2 + c), w32 (h3 + d), w32 (h4 + e)).

Fixpoint blocks (n : nat) (h : state) (bs : list Z) : state :=
  match n with
  | O => h
  | S n' =>
      match bs with
      | [] => h
      | _ => blocks n' (compress h (firstn 64 bs)) (skipn 64 bs)
      end
  end.

Definition init : state :=
  (0x67452301, 0xEFCDAB89, 0x98BADCFE, 0x10325476, 0xC3D2E1F0).

Definition hex_digit (x : Z) : ascii :=
  ascii_of_N (Z.to_N (if x <? 10 then 48 + x else 87 + x)).

(** Eight hexadecimal digits of a 32-bit word, followed by [rest]. *)
Definition hex32 (x : Z) (rest : string) : string :=
  String (hex_digit (x / 2 ^ 28 mod 16)) (String (hex_digit (x / 2 ^ 24 mod 16))
  (String (hex_digit (x / 2 ^ 20 mod 16)) (String (hex_digit (x / 2 ^ 16 mod 16))
  (String (hex_digit (x / 2 ^ 12 mod 16)) (String (hex_digit (x / 2 ^ 8 mod 16))
  (String (hex_digit (x / 2 ^ 4 mod 16)) (String (hex_digit (x mod 16)) rest))))))).

(** [hashlib.sha1(data).hexdigest()] *)
Definition hexdigest (data : string) : string :=
  let bs := pad (map byte_val (list_ascii_of_string data)) in
  let '(h0, h1, h2, h3, h4) := blocks (List.length bs) init bs in
  hex32 h0 (hex32 h1 (hex32 h2 (hex32 h3 (hex32 h4 EmptyString)))).

(** [s.encode("utf-8")] for a text of code points below 256. *)
Fixpoint utf8 (s : string) : string :=
  match s with
  | EmptyString => EmptyString
  | String c s' =>
      let n := N_of_ascii c in
      if (n <? 128)%N then String c (utf8 s')
      else String (ascii_of_N (192 + n / 64))
                  (String (ascii_of_N (128 + n mod 64)) (utf8 s'))
  end.

End Sha1.

(** ** Fact extractors *)

Import Py.

(** A Python [dict] built from its items in order: a later item with the
    same key replaces an earlier one. *)
Definition dict_of (items : list (string * string)) : gmap string string :=
  fold_left (fun d kv => <[kv.1 := kv.2]> d) items ∅.

(** [k in d] *)
Definition has_key (d : gmap string string) (k : string) : bool :=
  match d !! k with Some _ => true | None => false end.

(** [d[k]] where the program has checked [k in d]. *)
Definition get (d : gmap string string) (k : string) : string :=
  match d !! k with Some v => v | None => EmptyString end.

Definition VIDEO_EXTS : list string :=
  [".vob"; ".ts"; ".mpg"; ".mpeg"; ".m2ts"; ".mp4"; ".m4v"; ".avi"; ".mov";
   ".mkv"; ".wmv"].

Definition TEXT_EXTS : list string := [".txt"; ".nfo"; ".docx"; ".doc"; ".rtf"].

Definition INFO_DIR_HINTS : list string :=
  ["info"; "nfo"; "notes"; "docs"; "documentation"; "about"].

Definition DATE_PATTERNS : list string :=
  ["\b(\d{4})[-/\.]([\d]{1,2})[-/\.]([\d]{1,2})\b";
   "\b(\d{1,2})[-/\.]([\d]{1,2})[-/\.]([\d]{2,4})\b";
   "\b([A-Za-z]{3,9})\s+(\d{1,2}),?\s+(\d{4})\b"].

Definition SETLIST_ANCHORS : Re.pattern :=
  Re.compile_i "^(setlist|tracklist|tracks|songs)\s*:?\s*$".

Definition NON_SONG_HINTS : Re.pattern :=
  Re.compile_i "(lineage|taper|venue|location|source|video|audio|menu|chapters|checksum|md5|author|www|http|https|torrent|poster)".

Definition SONG_LINE : Re.pattern :=
  Re.compile
    ("^\s*(?:\d{1,2}\s*[.)-]\s*|\[\d{1,2}:\d{2}\]\s*|~?\d{1,2}:\d{2}\s*|-?\s*)?"
     +:+ "([A-Za-z][A-Za-z0-9&/’\'()\-\. ]{2,})\s*$").

Definition US_STATE_ABBR : list string :=
  ["AL";"AK";"AZ";"AR";"CA";"CO";"CT";"DE";"FL";"GA";"HI";"ID";"IL";"IN";"IA";"KS";"KY";
   "LA";"ME";"MD";"MA";"MI";"MN";"MS";"MO";"MT";"NE";"NV";"NH";"NJ";"NM";"NY";"NC";"ND";
   "OH";"OK";"OR";"PA";"RI";"SC";"SD";"TN";"TX";"UT";"VT";"VA";"WA";"WV";"WI";"WY";"DC"].

Definition REGION_TO_COUNTRY : gmap string string :=
  dict_of
    (map (fun st => (st, "USA")) US_STATE_ABBR ++
     [("AB","Canada");("BC","Canada");("MB","Canada");("NB","Canada");("NL","Canada");("NS","Canada");
      ("NT","Canada");("NU","Canada");("ON","Canada");("PE","Canada");("QC","Canada");("SK","Canada");("YT","Canada");
      ("NSW","Australia");("VIC","Australia");("QLD","Australia");("SA","Australia");("WA","Australia");("TAS","Australia");("ACT","Australia");("NT","Australia");
      ("ENG","United Kingdom");("SCT","United Kingdom");("WLS","United Kingdom");("NIR","United Kingdom")]).

Definition COUNTRY_NAMES : list string :=
  ["United States";"USA";"US";"United Kingdom";"UK";"England";"Scotland";"Wales";
   "Germany";"France";"Spain";"Italy";"Portugal";"Netherlands";"Belgium";"Switzerland";"Austria";
   "Brazil";"Argentina";"Chile";"Mexico";"Canada";"Australia";"New Zealand";"Japan";"South Korea";
   "Norway";"Sweden";"Denmark";"Finland";"Ireland";"Poland";"Czech Republic";"Hungary";"Greece";
   "Iceland";"Luxembourg"].

Definition _SEP : string := "[,\-|–—]\s*".

(** *** Date *)

(** [datetime.strptime(mon, "%b").month] with the English month names of
    the C locale; [None] stands for the [ValueError]. *)
Definition month_of_abbr (mon : string) : option Z :=
  let fix find (names : list string) (i : Z) : option Z :=
    match names with
    | [] => None
    | n :: ns => if String.eqb (lower mon) n then Some i else find ns (i + 1)%Z
    end in
  find ["jan";"feb";"mar";"apr";"may";"jun";"jul";"aug";"sep";"oct";"nov";"dec"] 1%Z.

(** [f"{y:04d}-{mo:02d}-{d:02d}"] *)
Definition format_date (y mo d : Z) : string :=
  zero_pad 4 y +:+ "-" +:+ zero_pad 2 mo +:+ "-" +:+ zero_pad 2 d.

(** The second pattern: a number above 12 in front is the day, otherwise
    the month comes first; a year below 100 is in this century. *)
Definition date_ambiguous (a b c : Z) : string :=
  let c := if (c <? 100)%Z then (c + 2000)%Z else c in
  if (12 <? a)%Z then format_date c b a else format_date c a b.

(** The body of the [try] of [guess_date] for the match [m] of [pat];
    [None] when it raises, or falls through without returning. *)
Definition date_of_match (pat : string) (m : Re.rmatch) : option string :=
  if Nat.eqb (Re.p_groups (Re.compile_im pat)) 3 then
    let g i := Re.group_str m i in
    if startswith "\b(\d{4})" pat then
      match int_of_str (g 1%nat), int_of_str (g 2%nat), int_of_str (g 3%nat) with
      | Some y, Some mo, Some d => Some (format_date y mo d)
      | _, _, _ => None
      end
    else if startswith "\b(\d{1,2})" pat then
      match int_of_str (g 1%nat), int_of_str (g 2%nat), int_of_str (g 3%nat) with
      | Some a, Some b, Some c => Some (date_ambiguous a b c)
      | _, _, _ => None
      end
    else
      match int_of_str (g 2%nat), int_of_str (g 3%nat) with
      | Some d, Some y =>
          match month_of_abbr (prefix 3 (g 1%nat)) with
          | Some mo => Some (format_date y mo d)
          | None => None
          end
      | _, _ => None
      end
  else None.

(** The [for] loop of [guess_date] over the patterns that are left. *)
Fixpoint guess_date_from (pats : list string) (text : string) : string :=
  match pats with
  | [] => ""
  | pat :: pats' =>
      match Re.search (Re.compile_im pat) text with
      | Some m =>
          match date_of_match pat m with
          | Some date => date
          | None => guess_date_from pats' text
          end
      | None => guess_date_from pats' text
      end
  end.

Definition guess_date (text : string) : string :=
  if truthy text then guess_date_from DATE_PATTERNS text else "".

(** *** Setlist *)

(** The loop of [extract_section_by_anchor] over the lines that are left;
    [collected] is in reading order. *)
Fixpoint section_loop (anchor_re : Re.pattern) (lines : list string)
                      (grabbing : bool) (collected : list string) : list string :=
  match lines with
  | [] => collected
  | ln :: lines' =>
      match Re.match_ anchor_re (strip ln) with
      | Some _ => section_loop anchor_re lines' true collected
      | None =>
          if grabbing then
            if String.eqb (strip ln) "" then
              match collected with
              | [] => section_loop anchor_re lines' grabbing collected
              | _ => collected
              end
            else section_loop anchor_re lines' grabbing (collected ++ [rstrip ln])
          else section_loop anchor_re lines' grabbing collected
      end
  end.

Definition extract_section_by_anchor (text : string) (anchor_re : Re.pattern)
  : list string :=
  if truthy text then section_loop anchor_re (splitlines text) false [] else [].

(** [len(re.findall(r'[A-Za-z]', title))] *)
Definition letter_count (title : string) : nat :=
  List.length (Re.findall (Re.compile "[A-Za-z]") title).

Definition clean_song_title (line : string) : option string :=
  if truthy line then
    let raw := strip line in
    match Re.match_
            (Re.compile "^\s*(?:\[\s*\d{1,2}:\d{2}\s*\]|\d{1,2}:\d{2})\s*[-–:]?\s*(.+)$")
            raw with
    | Some m_ts =>
        let title := strip (Re.group_str m_ts 1) in
        let title := strip_chars " .-" (Re.sub (Re.compile "\s{2,}") " " title) in
        if (2 <=? letter_count title)%nat then Some title else None
    | None =>
        match Re.search NON_SONG_HINTS raw with
        | Some _ => None
        | None =>
            match Re.match_ SONG_LINE raw with
            | None => None
            | Some m =>
                let title := strip (Re.group_str m 1) in
                let title :=
                  Re.sub (Re.compile_i "\s*\((live|cut|jam|tape|alt\.? mix|remix|reprise|acoustic|intro|outro)\)\s*$")
                         "" title in
                let title := strip_chars " .-" (Re.sub (Re.compile "\s{2,}") " " title) in
                if (letter_count title <? 2)%nat then None else Some title
            end
        end
    end
  else None.

(** The loop of [extract_setlist]: the titles appended from here on, given
    the lower-case titles [seen] so far. *)
Fixpoint collect_titles (candidates : list string) (seen : gset string) : list string :=
  match candidates with
  | [] => []
  | ln :: rest =>
      match clean_song_title ln with
      | Some t =>
          if truthy t && negb (bool_decide (lower t ∈ seen))
          then t :: collect_titles rest ({[lower t]} ∪ seen)
          else collect_titles rest seen
      | None => collect_titles rest seen
      end
  end.

(** The candidate lines of [extract_setlist]. *)
Definition setlist_candidates (notes : string) : list string :=
  match extract_section_by_anchor notes SETLIST_ANCHORS with
  | [] => splitlines notes
  | anchored => anchored
  end.

(** [titles[:200]] of [extract_setlist]: the entries of the setlist. *)
Definition setlist_entries (notes : string) : list string :=
  firstn 200 (collect_titles (setlist_candidates notes) ∅).

Definition extract_setlist (notes : string) : string :=
  if truthy notes then join "; " (setlist_entries notes) else "".

(** *** Location *)

(** What [parse_location] returns: (venue, city, country, festival, hint). *)
Definition location : Type := (string * string * string * string * string)%type.

(** [[p.strip() for p in re.split(pat, s) if p.strip()]] *)
Definition split_parts (pat : string) (s : string) : list string :=
  map strip (List.filter (fun p => truthy (strip p)) (Re.split (Re.compile pat) s)).

(** [x in COUNTRY_NAMES or x.upper() in REGION_TO_COUNTRY] *)
Definition names_country (x : string) : bool :=
  mem x COUNTRY_NAMES || has_key REGION_TO_COUNTRY (upper x).

(** [x if x in COUNTRY_NAMES else REGION_TO_COUNTRY[x.upper()]] *)
Definition country_of (x : string) : string :=
  if mem x COUNTRY_NAMES then x else get REGION_TO_COUNTRY (upper x).

(** A match of [pat] against [s] whose second group, in upper case, is a
    region: the stripped first group and the region's country. *)
Definition city_region (pat : string) (s : string) : option (string * string) :=
  match Re.match_ (Re.compile pat) s with
  | Some m =>
      if has_key REGION_TO_COUNTRY (upper (Re.group_str m 2))
      then Some (strip (Re.group_str m 1),
                 get REGION_TO_COUNTRY (upper (Re.group_str m 2)))
      else None
  | None => None
  end.

Definition _folder_name_loc_fallback (folder_name : string)
  : string * string * string * string :=
  let cand :=
    match Re.search (Re.compile "\b\d{4}[-_]\d{2}[-_]\d{2}\b\s+(.+)") folder_name with
    | Some m => strip (Re.group_str m 1)
    | None => folder_name
    end in
  match split_parts _SEP cand with
  | venue :: city :: country :: _ => (venue, city, country, "loc:folder")
  | [venue; city] => (venue, city, "", "loc:folder")
  | _ => ("", "", "", "")
  end.

(** 1) Single-line comma-separated: Venue, City[, Region], Country.
    The loop over the lines; [None] when it ends without returning. *)
Fixpoint tier_comma (lines : list string) : option location :=
  match lines with
  | [] => None
  | ln :: lines' =>
      let parts := split_parts "\s*,\s*" ln in
      let last := List.last parts "" in
      if (2 <=? List.length parts)%nat && names_country last then
        let country := country_of last in
        if (3 <=? List.length parts)%nat then
          let mid := nth (List.length parts - 2) parts "" in
          let '(city, country) :=
            match city_region "(.+?)\s+([A-Z]{2,3})$" mid with
            | Some (c, region_country) =>
                (c, if truthy country then country else region_country)
            | None => (strip mid, country)
            end in
          let venue := strip (join ", " (firstn (List.length parts - 2) parts)) in
          Some (venue, city, country, "", "loc:comma")
        else Some ("", nth 0 parts "", country, "", "loc:comma")
      else tier_comma lines'
  end.

(** 2) Three-line stack: Venue / City[-|, Region] / Country. *)
Fixpoint tier_stack (lines : list string) : option location :=
  match lines with
  | a :: ((b :: c :: _) as lines') =>
      if names_country c then
        let '(b_city, b_country) :=
          match city_region "(.+?)\s*[-,]\s*([A-Za-z]{2,3})$" b with
          | Some (city, region_country) => (city, region_country)
          | None => (b, "")
          end in
        let country := country_of c in
        let country :=
          if truthy b_country && negb (truthy country) then b_country else country in
        Some (a, b_city, country, "", "loc:stack")
      else tier_stack lines'
  | _ => None
  end.

(** 3) Event - Venue on one line; next line City[, Region/Country]. *)
Fixpoint tier_eventline (lines : list string) : option location :=
  match lines with
  | ln :: ((nxt :: _) as lines') =>
      match Re.match_ (Re.compile "(.+?)\s+[–\-]\s+(.+)$") ln with
      | Some m =>
          let ev := strip (Re.group_str m 1) in
          let ven := strip (Re.group_str m 2) in
          match city_region "(.+?)\s*[,–\-]\s*([A-Za-z]{2,3})$" nxt with
          | Some (city, country) => Some (ven, city, country, ev, "loc:eventline")
          | None =>
              match split_parts "\s*,\s*" nxt with
              | [city; pr2] =>
                  if names_country pr2
                  then Some (ven, city, country_of pr2, ev, "loc:eventline")
                  else tier_eventline lines'
              | _ => tier_eventline lines'
              end
          end
      | None => tier_eventline lines'
      end
  | _ => None
  end.

(** 4) City - Region or City, Country alone. *)
Fixpoint tier_city (lines : list string) : option location :=
  match lines with
  | [] => None
  | ln :: lines' =>
      match city_region "(.+?)\s*[-,]\s*([A-Za-z]{2,3})$" ln with
      | Some (city, country) => Some ("", city, country, "", "loc:cityregion")
      | None =>
          match split_parts "\s*,\s*" ln with
          | [city; pr2] =>
              if names_country pr2
              then Some ("", city, country_of pr2, "", "loc:citycountry")
              else tier_city lines'
          | _ => tier_city lines'
          end
      end
  end.

(** 5) Folder-name fallback: returned when it found a venue, a city or a
    country. *)
Definition tier_folder (folder_name : string) : option location :=
  let '(venue, city, country, hint) := _folder_name_loc_fallback folder_name in
  if truthy venue || truthy city || truthy country
  then Some (venue, city, country, "", hint)
  else None.

(** 6) Festival keyword fallback: the festival only. *)
Definition tier_festival (notes : string) : location :=
  match Re.search
          (Re.compile_i "\b(Festival|Rockpalast|Lollapalooza|Glastonbury|Reading|Leeds|Bonnaroo|Primavera|Big Day Out|Splendour in the Grass)\b")
          notes with
  | Some m => ("", "", "", Re.group_str m 1, "")
  | None => ("", "", "", "", "")
  end.

(** The non-blank lines of the notes, stripped, runs of white space made
    one blank. *)
Definition location_lines (notes : string) : list string :=
  map (Re.sub (Re.compile "\s{2,}") " ")
      (map strip (List.filter (fun ln => truthy (strip ln)) (splitlines notes))).

Definition parse_location (notes folder_name : string) : location :=
  if negb (truthy notes) then
    let '(venue, city, country, hint) := _folder_name_loc_fallback folder_name in
    (venue, city, country, "", hint)
  else
    let lines := location_lines notes in
    match tier_comma lines with
    | Some loc => loc
    | None =>
    match tier_stack lines with
    | Some loc => loc
    | None =>
    match tier_eventline lines with
    | Some loc => loc
    | None =>
    match tier_city lines with
    | Some loc => loc
    | None =>
    match tier_folder folder_name with
    | Some loc => loc
    | None => tier_festival notes
    end end end end end.

(** ** The file system the scan reads *)

(** A regular file with its bytes, or a directory with its entries in the
    order the system lists them.  A file that is not [readable] cannot be
    opened; a directory that is not [listable] cannot be listed
    ([PermissionError]).  There are no symbolic links. *)
Inductive node : Type :=
| File (name : string) (data : string) (readable : bool)
| Dir (name : string) (listable : bool) (entries : list node).

Definition node_name (n : node) : string :=
  match n with
  | File name _ _ => name
  | Dir name _ _ => name
  end.

Definition is_dir (n : node) : bool :=
  match n with Dir _ _ _ => true | File _ _ _ => false end.

Definition is_file (n : node) : bool :=
  match n with File _ _ _ => true | Dir _ _ _ => false end.

(** The entries of a directory, whether it can be listed or not. *)
Definition entries_of (n : node) : list node :=
  match n with
  | Dir _ _ entries => entries
  | File _ _ _ => []
  end.

(** [p.stat().st_size] *)
Definition st_size (n : node) : Z :=
  match n with
  | File _ data _ => Z.of_nat (String.length data)
  | Dir _ _ _ => 0%Z
  end.

Inductive exn : Type :=
| NameError
| PermissionError
| ValueError
| UnicodeEncodeError.

(** The outcome of code that may raise. *)
Inductive result (A : Type) : Type :=
| Ok (a : A)
| Raise (e : exn).
Arguments Ok {A} a.
Arguments Raise {A} e.

(** [p.iterdir()] *)
Definition iterdir (n : node) : result (list node) :=
  match n with
  | Dir _ true entries => Ok entries
  | Dir _ false _ => Raise PermissionError
  | File _ _ _ => Raise PermissionError
  end.

(** The index of the last dot of a name, if it has one. *)
Fixpoint rfind_dot (s : string) (i : nat) (found : option nat) : option nat :=
  match s with
  | EmptyString => found
  | String c s' =>
      rfind_dot s' (S i) (if Ascii.eqb c "." then Some i else found)
  end.

Fixpoint string_drop (n : nat) (s : string) : string :=
  match n, s with
  | S n', String _ s' => string_drop n' s'
  | _, _ => s
  end.

(** [PurePath.suffix]: from the last dot of the name on, when that dot is
    neither the first nor the last character. *)
Definition suffix (name : string) : string :=
  match rfind_dot name 0 None with
  | Some i =>
      if (0 <? i)%nat && (i <? String.length name - 1)%nat then string_drop i name
      else ""
  | None => ""
  end.

(** [p.is_file() and p.suffix.lower() in VIDEO_EXTS] *)
Definition is_video_file (n : node) : bool :=
  is_file n && mem (lower (suffix (node_name n))) VIDEO_EXTS.

(** [f.is_file() and f.suffix.lower() == ".vob"] *)
Definition is_vob_file (n : node) : bool :=
  is_file n && String.eqb (lower (suffix (node_name n))) ".vob".

(** [child.is_dir() and child.name.lower() == "video_ts"] *)
Definition is_video_ts_dir (n : node) : bool :=
  is_dir n && String.eqb (lower (node_name n)) "video_ts".

(** [os.path.join(top, name)] for a name without a slash *)
Definition path_join (top name : string) : string :=
  if String.eqb top "" || String.eqb (string_drop (String.length top - 1) top) "/"
  then top +:+ name
  else top +:+ "/" +:+ name.

(** ** Folder classifier *)

(** The loop of [_video_ts_present] over the entries that are left:
    listing a directory named like VIDEO_TS may raise. *)
Fixpoint video_ts_loop (children : list node) : result bool :=
  match children with
  | [] => Ok false
  | child :: rest =>
      if is_video_ts_dir child then
        match iterdir child with
        | Ok files =>
            if existsb is_vob_file files then Ok true else video_ts_loop rest
        | Raise e => Raise e
        end
      else video_ts_loop rest
  end.

(** Case-insensitive VIDEO_TS detection with case-insensitive .VOB check. *)
Definition _video_ts_present (dirpath : node) : bool :=
  match iterdir dirpath with
  | Ok children =>
      match video_ts_loop children with
      | Ok found => found
      | Raise _ => false
      end
  | Raise _ => false
  end.

Definition _has_direct_video_files (dirpath : node) : bool :=
  match iterdir dirpath with
  | Ok children => existsb is_video_file children
  | Raise _ => false
  end.

Definition _child_looks_like_show (child : node) : bool :=
  if _video_ts_present child then true
  else
    match iterdir child with
    | Ok children => existsb is_video_file children
    | Raise _ => false
    end.

(** The loop of [is_show_folder] over the entries that are left, with the
    number of child show folders counted so far. *)
Fixpoint show_folder_loop (children : list node) (child_show_dirs : nat)
                          (direct_video : bool) : bool :=
  match children with
  | [] => direct_video
  | child :: rest =>
      if is_dir child && _child_looks_like_show child then
        if (2 <=? S child_show_dirs)%nat then false
        else show_folder_loop rest (S child_show_dirs) direct_video
      else show_folder_loop rest child_show_dirs direct_video
  end.

(** Count a folder as a show only if it directly contains a VIDEO_TS folder
    with at least one .VOB, or at least one recognized video file; a
    container holding several child show folders is not a show. *)
Definition is_show_folder (folder : node) : bool :=
  if _video_ts_present folder then true
  else
    let direct_video := _has_direct_video_files folder in
    match iterdir folder with
    | Ok children => show_folder_loop children 0 direct_video
    | Raise _ => false
    end.

(** ** Representative media *)

(** A path below a folder: its components from the folder down, and the
    node found there. *)
Definition located : Type := (list string * node)%type.

(** [folder.rglob("*")]: the entries of the folder, then those of each of
    its directories in turn, depth first; a directory that cannot be
    listed contributes nothing.  [rel] is the way from the folder. *)
Fixpoint rglob (rel : list string) (d : node) : list located :=
  match d with
  | Dir _ true entries =>
      map (fun e => (rel ++ [node_name e], e)) entries
      ++ flat_map (fun e => rglob (rel ++ [node_name e]) e) entries
  | _ => []
  end.

(** The text of a path given by its components below [folder]. *)
Definition path_below (folder : string) (rel : list string) : string :=
  fold_left path_join rel folder.

(** [str(p.relative_to(folder))] *)
Definition rel_text (rel : list string) : string := join "/" rel.

(** A Python [dict] from keys to lists, in insertion order:
    [groups.setdefault(key, []).append(v)]. *)
Fixpoint group_append (key : string) (v : located)
                      (groups : list (string * list located))
  : list (string * list located) :=
  match groups with
  | [] => [(key, [v])]
  | (k, vs) :: rest =>
      if String.eqb k key then (k, vs ++ [v]) :: rest
      else (k, vs) :: group_append key v rest
  end.

(** [int(re.search(r'_(\d+)\.VOB$', p.name, re.IGNORECASE).group(1))], for
    a name that has matched the pattern of [dvd_group_segments], on which
    this search succeeds as well. *)
Definition segment_index (v : located) : Z :=
  match Re.search (Re.compile_i "_(\d+)\.VOB$") (node_name (snd v)) with
  | Some m =>
      match int_of_str (Re.group_str m 1) with
      | Some i => i
      | None => 0%Z
      end
  | None => 0%Z
  end.

(** [sorted(xs, key=...)]: stable; [le x y] compares the keys. *)
Fixpoint insert_by {A : Type} (le : A -> A -> bool) (x : A) (sorted : list A) : list A :=
  match sorted with
  | [] => [x]
  | y :: rest =>
      if le x y then x :: sorted
      else y :: insert_by le x rest
  end.

Definition sorted_by {A : Type} (le : A -> A -> bool) (xs : list A) : list A :=
  fold_right (insert_by le) [] xs.

(** The loop of [dvd_group_segments] that keeps the group with the
    greatest total size, the first one among equals. *)
Fixpoint best_group (groups : list (string * list located))
                    (best : list located) (best_total : Z) : list located :=
  match groups with
  | [] => best
  | (k, files) :: rest =>
      let files_sorted :=
        sorted_by (fun p q => (segment_index p <=? segment_index q)%Z) files in
      let total := fold_left (fun acc p => (acc + st_size (snd p))%Z) files_sorted 0%Z in
      if (best_total <? total)%Z then best_group rest files_sorted total
      else best_group rest best best_total
  end.

Definition dvd_group_segments (folder : node) : result (list located) :=
  match find (fun p => is_video_ts_dir (snd p)) (rglob [] folder) with
  | None => Ok []
  | Some (rel, vts_dir) =>
      match iterdir vts_dir with
      | Raise e => Raise e
      | Ok entries =>
          let vobs :=
            map (fun v => (rel ++ [node_name v], v)) (List.filter is_vob_file entries) in
          let groups :=
            fold_left
              (fun groups v =>
                 match Re.match_ (Re.compile "(?i)^(VTS_\d{2})_\d+\.VOB$")
                                 (node_name (snd v)) with
                 | Some m => group_append (upper (Re.group_str m 1)) v groups
                 | None => groups
                 end)
              vobs [] in
          Ok (best_group groups [] (-1)%Z)
      end
  end.

(** The loop of [representative_media] for the largest video file. *)
Fixpoint largest_video (files : list located) (best : option located)
                       (best_size : Z) : option located :=
  match files with
  | [] => best
  | p :: rest =>
      if is_video_file (snd p) && (best_size <? st_size (snd p))%Z
      then largest_video rest (Some p) (st_size (snd p))
      else largest_video rest best best_size
  end.

(** The representative files and the container. *)
Definition representative_media (folder : node) : result (list located * string) :=
  match dvd_group_segments folder with
  | Raise e => Raise e
  | Ok (v :: vs) => Ok (v :: vs, ".vob")
  | Ok [] =>
      match largest_video (rglob [] folder) None 0%Z with
      | Some best => Ok ([best], lower (suffix (node_name (snd best))))
      | None => Ok ([], "")
      end
  end.

(** [total_size_and_count]: bytes and number of the files below a folder. *)
Definition total_size_and_count (folder : node) : Z * Z :=
  fold_left
    (fun '(total, count) p =>
       if is_file (snd p) then ((total + st_size (snd p))%Z, (count + 1)%Z)
       else (total, count))
    (rglob [] folder) (0%Z, 0%Z).

(** [sha1_of_files_in_order]: one digest over the files read in order, the
    empty text when one of them cannot be opened. *)
Fixpoint read_in_order (files : list located) : option string :=
  match files with
  | [] => Some EmptyString
  | (_, File _ data true) :: rest =>
      match read_in_order rest with
      | Some more => Some (data +:+ more)
      | None => None
      end
  | _ => None
  end.

Definition sha1_of_files_in_order (paths : list located) : string :=
  match read_in_order paths with
  | Some bytes => Sha1.hexdigest bytes
  | None => ""
  end.

(** Whether [text.encode("utf-8")] succeeds: the text holds no lone
    surrogate, written NUL. *)
Definition encodable (text : string) : bool := negb (mem_char "000"%char text).

(** [hashlib.sha1(str(folder_path).encode("utf-8")).hexdigest()[:12]], for
    a path whose text can be encoded. *)
Definition normalize_show_id (folder_path : string) : string :=
  prefix 12 (Sha1.hexdigest (Sha1.utf8 folder_path)).

(** [normalize_show_id(folder_path)] for any path: [encode] raises
    [UnicodeEncodeError] on a text that cannot be encoded. *)
Definition checked_show_id (folder_path : string) : result string :=
  if encodable folder_path then Ok (normalize_show_id folder_path)
  else Raise UnicodeEncodeError.

(** ** Rows *)

(** What [parse_media_info] returns. *)
Record media_info : Type := MediaInfo {
  video_codec : string;
  width : string;
  height : string;
  duration_sec : string;
  dar : string;
  sar : string;
  fps : string;
  audio_codec : string;
  audio_channels : string;
  audio_sample_rate : string
}.

Definition empty_media_info : media_info :=
  MediaInfo "" "" "" "" "" "" "" "" "" "".

(** A row of the catalogue, with the columns of the CSV. *)
Record Row : Type := MkRow {
  ShowID : string;
  Artist : string;
  ShowDate : string;
  EventOrFestival : string;
  VenueName : string;
  City : string;
  Country : string;
  RecordingType : string;
  Generation : string;
  Lineage : string;
  SourceEquipment : string;
  FolderName : string;
  FolderPath : string;
  MasterDriveName : string;
  MasterDriveID : string;
  RepVideoCount : string;
  RepVideoFiles : string;
  Container : string;
  VideoCodec : string;
  Width : string;
  Height : string;
  DurationSec : string;
  AspectRatio : string;
  TVStandard : string;
  AudioCodec : string;
  AudioChannels : string;
  AudioSampleRate : string;
  FileCount : string;
  TotalSizeBytes : string;
  TotalSizeHuman : string;
  ChecksumSHA1 : string;
  DuplicateOf : string;
  Setlist : string;
  Notes : string;
  LastScannedAt : string;
  ExtractionWarnings : string
}.

(** What the scan takes from its surroundings: the decoders of note files,
    the media prober, the volume lookup, the clock and the console; and the
    functions of the program that no property below depends on, whose
    results the row carries as they are. *)
Record host : Type := Host {
  (** [safe_read_text(path)] *)
  safe_read_text : string -> string;
  (** [parse_media_info(file_path, header_only)] *)
  parse_media_info : string -> bool -> media_info;
  (** [master_drive_label_and_id(root)], where it returns *)
  master_drive_label_and_id : string -> string * string;
  (** whether [master_drive_label_and_id(root)] raises: its last step,
      taken when no identifier of the volume was found, encodes the text of
      the root, and raises [UnicodeEncodeError] when that cannot be
      encoded *)
  drive_lookup_raises : string -> bool;
  (** [print(text, flush=True)]: whether the console takes the text; it
      raises [UnicodeEncodeError] when it does not *)
  console_accepts : string -> bool;
  (** [now_iso()] at the n-th reading of the clock *)
  now_iso : nat -> string;
  (** [human_size(num_bytes)] *)
  human_size : Z -> string;
  (** [derive_aspect_ratio(width, height, dar, sar, codec, notes, foldername)] *)
  derive_aspect_ratio :
    string -> string -> string -> string -> string -> string -> string -> string;
  (** [derive_tv_standard(fps_str)] *)
  derive_tv_standard : string -> string;
  (** [resolve_artist(folder, notes)] *)
  resolve_artist : string -> string -> string;
  (** [extract_event_and_split_venue(notes, existing_venue)] *)
  extract_event_and_split_venue : string -> string -> string * string * string;
  (** [extract_lineage(notes)] *)
  extract_lineage : string -> string;
  (** [extract_source_equipment(lineage)] *)
  extract_source_equipment : string -> string;
  (** [determine_recording_type(notes, folder)], of the folder's name *)
  determine_recording_type : string -> string -> string;
  (** [determine_generation(notes, folder)], of the folder's name *)
  determine_generation : string -> string -> string
}.

(** [PurePath.name] of a path text: what follows its last slash. *)
Fixpoint path_name_aux (s : string) (cur : string) : string :=
  match s with
  | EmptyString => cur
  | String c s' =>
      if Ascii.eqb c "/" then path_name_aux s' s' else path_name_aux s' cur
  end.

Definition path_name (p : string) : string := path_name_aux p p.

(** The loop of the scan that merges the descriptors of the segments of a
    disc: a field keeps its first non-empty value, the durations add up. *)
Definition keep_first (current found : string) : string :=
  if negb (truthy current) && truthy found then found else current.

Definition merge_segment (acc : media_info * Z) (info : media_info) : media_info * Z :=
  let '(m, total_dur) := acc in
  (MediaInfo
     (keep_first (video_codec m) (video_codec info))
     (keep_first (width m) (width info))
     (keep_first (height m) (height info))
     (duration_sec m)
     (keep_first (dar m) (dar info))
     (keep_first (sar m) (sar info))
     (keep_first (fps m) (fps info))
     (keep_first (audio_codec m) (audio_codec info))
     (keep_first (audio_channels m) (audio_channels info))
     (keep_first (audio_sample_rate m) (audio_sample_rate info)),
   (** [total_dur += int(info.get("duration_sec") or 0)], skipped when
       [int] raises *)
   if truthy (duration_sec info) then
     match int_of_str (duration_sec info) with
     | Some d => (total_dur + d)%Z
     | None => total_dur
     end
   else total_dur).

Definition set_duration (m : media_info) (d : string) : media_info :=
  MediaInfo (video_codec m) (width m) (height m) d (dar m) (sar m) (fps m)
            (audio_codec m) (audio_channels m) (audio_sample_rate m).

(** The descriptor of a disc of several segments. *)
Definition merge_segments (infos : list media_info) : media_info :=
  let '(m, total_dur) := fold_left merge_segment infos (empty_media_info, 0%Z) in
  if (total_dur =? 0)%Z then m else set_duration m (str_of_Z total_dur).

(** The state of a run of [scan_roots]. *)
Record scan_state : Type := ScanState {
  rows : list Row;                            (* in the order appended *)
  seen_ids : gset string;
  checksum_to_showid : gmap string string;
  clock : nat                                 (* readings of the clock so far *)
}.

Definition _excluded : list string :=
  ["video_ts"; "audio_ts"; "info"; "nfo"; "docs"; "artwork"; "extras"].

(** [master_drive_name_for]: the longest root whose path starts the
    folder's; [Path("")], whose text is ".", when there is none. *)
Definition master_drive_name_for (folder : string) (roots : list string) : string :=
  match find (fun r => startswith r folder)
             (sorted_by (fun r1 r2 => (String.length r2 <=? String.length r1)%nat) roots) with
  | Some r => r
  | None => "."
  end.

(** The arguments of [scan_roots], together with the host it runs on. *)
Record run : Type := Run {
  tools : host;
  roots : list string;
  header_only : bool;
  no_media : bool;
  do_checksums : bool;
  do_drive_id : bool
}.

Section Scan.

Context (cfg : run).

(** [collect_notes]: the note files below the folder, those under a
    directory named like "info" first, then by path; returns the notes and
    the warnings it appended. *)
Definition note_files (fpath : string) (folder : node) : list (Z * located) :=
  sorted_by
    (fun t1 t2 =>
       let k1 := ((- fst t1)%Z, path_below fpath (fst (snd t1))) in
       let k2 := ((- fst t2)%Z, path_below fpath (fst (snd t2))) in
       (fst k1 <? fst k2)%Z || ((fst k1 =? fst k2)%Z && String.leb (snd k1) (snd k2)))
    (map (fun p =>
            let parts := map lower (removelast (fst p)) in
            (if existsb (fun seg => mem seg INFO_DIR_HINTS) parts then 1%Z else 0%Z, p))
         (List.filter (fun p => is_file (snd p)
                           && mem (lower (suffix (node_name (snd p)))) TEXT_EXTS)
                 (rglob [] folder))).

Fixpoint note_chunks (fpath : string) (texts : list (Z * located))
                     (seen_paths : gset string)
  : list string * list string :=
  match texts with
  | [] => ([], [])
  | (_, (rel, n)) :: rest =>
      let path := path_below fpath rel in
      if bool_decide (path ∈ seen_paths) then note_chunks fpath rest seen_paths
      else
        let t := safe_read_text (tools cfg) path in
        if truthy (strip t) then
          let header := String (ascii_of_N 10) ("---- " +:+ rel_text rel +:+ " ----"
                          +:+ String (ascii_of_N 10) "") in
          let '(chunks, warnings) := note_chunks fpath rest ({[path]} ∪ seen_paths) in
          ((header +:+ strip t) :: chunks, warnings)
        else
          let '(chunks, warnings) := note_chunks fpath rest seen_paths in
          (chunks, ("Could not parse text from " +:+ node_name n) :: warnings)
  end.

Definition collect_notes (fpath : string) (folder : node) : string * list string :=
  let '(chunks, warnings) := note_chunks fpath (note_files fpath folder) ∅ in
  (strip (join (String (ascii_of_N 10) "") chunks), warnings).

(** The media descriptor of the representative files. *)
Definition probe_media (fpath : string) (rep_files : list located) (container : string)
  : media_info :=
  match rep_files with
  | first :: _ =>
      if negb (no_media cfg) then
        if String.eqb container ".vob" && (1 <? List.length rep_files)%nat then
          merge_segments
            (map (fun seg => parse_media_info (tools cfg) (path_below fpath (fst seg)) (header_only cfg))
                 rep_files)
        else parse_media_info (tools cfg) (path_below fpath (fst first)) (header_only cfg)
      else empty_media_info
  | [] => empty_media_info
  end.

(** The row the scan builds for a show folder, before the checksum, and the
    representative files; [Raise] when the work on the folder raises.
    Without symbolic links [fpath.resolve()] is [fpath]. *)
Definition show_row (fpath : string) (folder : node) (now : string)
  : result (Row * list located) :=
  let show_id := normalize_show_id fpath in
  let '(notes, warnings) := collect_notes fpath folder in
  let show_date := guess_date notes in
  let setlist := extract_setlist notes in
  let '(venue, city, country, festival, hint_loc) :=
    parse_location notes (path_name fpath) in
  let warnings := if truthy hint_loc then warnings ++ [hint_loc] else warnings in
  let event := extract_event_and_split_venue (tools cfg) notes venue in
  let event_guess := event.1.1 in
  let venue_override := event.1.2 in
  let hint_evt := event.2 in
  let warnings := if truthy hint_evt then warnings ++ [hint_evt] else warnings in
  let venue := if truthy venue_override then venue_override else venue in
  let event_or_festival := if truthy event_guess then event_guess else festival in
  match representative_media folder with
  | Raise e => Raise e
  | Ok (rep_files, container) =>
      let rep_rel := map (fun rf => rel_text (fst rf)) rep_files in
      let info := probe_media fpath rep_files container in
      let total_bytes := (total_size_and_count folder).1 in
      let file_count := (total_size_and_count folder).2 in
      let lineage_text := extract_lineage (tools cfg) notes in
      let mdn_path := master_drive_name_for fpath (roots cfg) in
      let master_label := fst (master_drive_label_and_id (tools cfg) mdn_path) in
      let master_id :=
        if do_drive_id cfg then snd (master_drive_label_and_id (tools cfg) mdn_path) else "" in
      Ok ({|
        ShowID := show_id;
        Artist := resolve_artist (tools cfg) fpath notes;
        ShowDate := show_date;
        EventOrFestival := event_or_festival;
        VenueName := venue;
        City := city;
        Country := country;
        RecordingType := determine_recording_type (tools cfg) notes (path_name fpath);
        Generation := determine_generation (tools cfg) notes (path_name fpath);
        Lineage := prefix 2000 lineage_text;
        SourceEquipment := extract_source_equipment (tools cfg) lineage_text;
        FolderName := path_name fpath;
        FolderPath := fpath;
        MasterDriveName := master_label;
        MasterDriveID := master_id;
        RepVideoCount := str_of_Z (Z.of_nat (List.length rep_files));
        RepVideoFiles := join "; " rep_rel;
        Container := container;
        VideoCodec := video_codec info;
        Width := width info;
        Height := height info;
        DurationSec := duration_sec info;
        AspectRatio :=
          derive_aspect_ratio (tools cfg) (width info) (height info) (dar info) (sar info)
                              (video_codec info) notes (path_name fpath);
        TVStandard := derive_tv_standard (tools cfg) (fps info);
        AudioCodec := audio_codec info;
        AudioChannels := audio_channels info;
        AudioSampleRate := audio_sample_rate info;
        FileCount := str_of_Z file_count;
        TotalSizeBytes := str_of_Z total_bytes;
        TotalSizeHuman := human_size (tools cfg) total_bytes;
        ChecksumSHA1 := "";
        DuplicateOf := "";
        Setlist := prefix 2000 setlist;
        Notes := prefix 8000 notes;
        LastScannedAt := now;
        ExtractionWarnings := join "; " warnings
      |}, rep_files)
  end.

(** The row appended when the work on a folder has raised. *)
Definition stub_row (fpath : string) (now : string) : Row :=
  {|
    ShowID := normalize_show_id fpath;
    Artist := path_name fpath;
    ShowDate := "";
    EventOrFestival := "";
    VenueName := "";
    City := "";
    Country := "";
    RecordingType := "";
    Generation := "";
    Lineage := "";
    SourceEquipment := "";
    FolderName := path_name fpath;
    FolderPath := fpath;
    MasterDriveName := "";
    MasterDriveID := "";
    RepVideoCount := "0";
    RepVideoFiles := "";
    Container := "";
    VideoCodec := "";
    Width := "";
    Height := "";
    DurationSec := "";
    AspectRatio := "";
    TVStandard := "";
    AudioCodec := "";
    AudioChannels := "";
    AudioSampleRate := "";
    FileCount := "0";
    TotalSizeBytes := "0";
    TotalSizeHuman := "0 B";
    ChecksumSHA1 := "";
    DuplicateOf := "";
    Setlist := "";
    Notes := "";
    LastScannedAt := now;
    ExtractionWarnings := "Unhandled error while scanning this folder"
  |}.

Definition set_checksum (row : Row) (ch dup : string) : Row :=
  MkRow (ShowID row) (Artist row) (ShowDate row) (EventOrFestival row)
        (VenueName row) (City row) (Country row) (RecordingType row)
        (Generation row) (Lineage row) (SourceEquipment row) (FolderName row)
        (FolderPath row) (MasterDriveName row) (MasterDriveID row)
        (RepVideoCount row) (RepVideoFiles row) (Container row) (VideoCodec row)
        (Width row) (Height row) (DurationSec row) (AspectRatio row)
        (TVStandard row) (AudioCodec row) (AudioChannels row)
        (AudioSampleRate row) (FileCount row) (TotalSizeBytes row)
        (TotalSizeHuman row) ch dup (Setlist row) (Notes row)
        (LastScannedAt row) (ExtractionWarnings row).

(** The checksum of a row and its link to the first row with that
    checksum: the row as appended, and the map afterwards. *)
Definition link_checksum (row : Row) (rep_files : list located)
                         (known : gmap string string) : Row * gmap string string :=
  match rep_files with
  | _ :: _ =>
      if do_checksums cfg then
        let ch := sha1_of_files_in_order rep_files in
        if truthy ch then
          match known !! ch with
          | Some first_id => (set_checksum row ch first_id, known)
          | None => (set_checksum row ch "", <[ch := ShowID row]> known)
          end
        else (set_checksum row ch "", known)
      else (row, known)
  | [] => (row, known)
  end.

(** The module neither defines nor imports the name
    [build_row_for_loose_file]: the call in [scan_roots] raises
    [NameError] before anything is built. *)
Definition build_row_for_loose_file (lf : string) : result Row :=
  Raise NameError.

(** The loop over the loose video files of a directory that is not a show:
    a row is appended unless its identifier was seen; an exception is
    passed over. *)
Fixpoint loose_rows (fpath : string) (loose : list node) (st : scan_state) : scan_state :=
  match loose with
  | [] => st
  | lf :: rest =>
      match build_row_for_loose_file (path_join fpath (node_name lf)) with
      | Ok row =>
          if bool_decide (ShowID row ∈ seen_ids st) then loose_rows fpath rest st
          else
            loose_rows fpath rest
              (ScanState (rows st ++ [row]) ({[ShowID row]} ∪ seen_ids st)
                         (checksum_to_showid st) (clock st))
      | Raise _ => loose_rows fpath rest st
      end
  end.

(** The handler of the loop body, after [dirnames[:] = []]: the stub row
    is appended, unless building it raises in its turn, which is passed
    over.  The first entry of the stub is the identifier, so that the clock
    is not read when the text of the path cannot be encoded. *)
Definition on_error (fpath : string) (st : scan_state) : scan_state :=
  match checked_show_id fpath with
  | Ok _ =>
      ScanState (rows st ++ [stub_row fpath (now_iso (tools cfg) (clock st))])
                (seen_ids st) (checksum_to_showid st) (S (clock st))
  | Raise _ => st
  end.

(** The body of the loop of [scan_roots] for one directory that [os.walk]
    yields, after the line printed for it: the state afterwards, and
    whether the walk goes on into the sub-directories ([dirnames] left as
    it is) or not ([dirnames[:] = []]). *)
Definition visit (fpath : string) (folder : node) (st : scan_state) : scan_state * bool :=
  if mem (lower (path_name fpath)) _excluded then (st, false)
  else if negb (is_show_folder folder) then
    (loose_rows fpath (List.filter is_video_file (entries_of folder)) st, true)
  else
    match checked_show_id fpath with
    | Raise _ => (on_error fpath st, false)
    | Ok show_id =>
        (* [if show_id in seen_ids: dirnames[:] = []]: the sub-directories
           are dropped here, and in any case further down *)
        let seen := {[show_id]} ∪ seen_ids st in
        let now := now_iso (tools cfg) (clock st) in
        match show_row fpath folder now with
        | Ok (row, rep_files) =>
            let linked := link_checksum row rep_files (checksum_to_showid st) in
            (ScanState (rows st ++ [linked.1]) seen linked.2 (S (clock st)), false)
        | Raise _ =>
            (on_error fpath
               (ScanState (rows st) seen (checksum_to_showid st) (clock st)),
             false)
        end
    end.

(** [os.walk(top)], top down, with the body of the loop run on each
    directory as it is yielded: a directory that cannot be listed is not
    yielded.  The loop first prints the path of the directory, outside its
    [try]: when the console does not take the text the exception leaves
    the walk. *)
Fixpoint walk (top : string) (d : node) (st : scan_state) {struct d}
  : result scan_state :=
  match d with
  | Dir _ true entries =>
      if console_accepts (tools cfg) ("Scanning: " +:+ top) then
        let '(st, descend) := visit top d st in
        if descend then
          (fix walk_dirs (children : list node) (st : scan_state)
             : result scan_state :=
             match children with
             | [] => Ok st
             | c :: rest =>
                 if is_dir c then
                   match walk (path_join top (node_name c)) c st with
                   | Ok st' => walk_dirs rest st'
                   | Raise e => Raise e
                   end
                 else walk_dirs rest st
             end) entries st
        else Ok st
      else Raise UnicodeEncodeError
  | _ => Ok st
  end.

(** The walk into the sub-directories among [children], one after the
    other, as long as none raises. *)
Fixpoint walk_dirs (top : string) (children : list node) (st : scan_state)
  : result scan_state :=
  match children with
  | [] => Ok st
  | c :: rest =>
      if is_dir c then
        match walk (path_join top (node_name c)) c st with
        | Ok st' => walk_dirs top rest st'
        | Raise e => Raise e
        end
      else walk_dirs top rest st
  end.

(** The loop of [scan_roots] over the roots that are left.  The roots are
    looked up in [fs]: the directory found at a path, if the path exists.
    The label and identifier of the volume that the loop fetches for a
    root when [do_drive_id] is set are not used after it; the fetch is only
    there with the exception it may raise.  A root fetched before is not
    fetched again, and would have raised the first time. *)
Fixpoint scan_from (fs : string -> option node) (todo : list string)
                   (st : scan_state) : result scan_state :=
  match todo with
  | [] => Ok st
  | root :: rest =>
      match fs root with
      | Some d =>
          if do_drive_id cfg && drive_lookup_raises (tools cfg) root
          then Raise UnicodeEncodeError
          else
            match walk root d st with
            | Ok st' => scan_from fs rest st'
            | Raise e => Raise e
            end
      | None => scan_from fs rest st
      end
  end.

Definition initial_state : scan_state := ScanState [] ∅ ∅ 0.

(** The rows of a run in the order they were appended, when the run
    comes to its end. *)
Definition scan_rows (fs : string -> option node) : result (list Row) :=
  match scan_from fs (roots cfg) initial_state with
  | Ok st => Ok (rows st)
  | Raise e => Raise e
  end.

(** The key the rows are sorted by at the end. *)
Definition row_key (r : Row) : string * string * string :=
  (lower (Artist r),
   if truthy (ShowDate r) then ShowDate r else "9999-99-99",
   lower (FolderName r)).

Definition key_le (k1 k2 : string * string * string) : bool :=
  let '(a1, b1, c1) := k1 in
  let '(a2, b2, c2) := k2 in
  String.ltb a1 a2
  || (String.eqb a1 a2
      && (String.ltb b1 b2 || (String.eqb b1 b2 && String.leb c1 c2))).

(** [scan_roots]: the rows in the order of their keys; an exception that
    leaves the walk leaves [scan_roots]. *)
Definition scan_roots (fs : string -> option node) : result (list Row) :=
  match scan_rows fs with
  | Ok rs => Ok (sorted_by (fun r1 r2 => key_le (row_key r1) (row_key r2)) rs)
  | Raise e => Raise e
  end.

End Scan.

(** ** What the properties are stated with *)

(** The number of child directories that qualify as shows on their own. *)
Definition child_show_dirs (folder : node) : nat :=
  List.length (List.filter (fun c => is_dir c && _child_looks_like_show c) (entries_of folder)).

(** The rule for containers as the claim has it: two or more child show
    folders make the directory not a show. *)
Definition container_rule_as_stated (folder : node) : Prop :=
  (2 <= child_show_dirs folder)%nat -> is_show_folder folder = false.

(** A disc with a VIDEO_TS folder, next to two folders that each hold a
    video file. *)
Definition disc_with_two_shows : node :=
  Dir "box" true
    [Dir "VIDEO_TS" true [File "VTS_01_1.VOB" "abc" true];
     Dir "A" true [File "a.mp4" "abc" true];
     Dir "B" true [File "b.mp4" "xyz" true]].

(** Two show folders and a loose video file, without a disc. *)
Definition two_shows_and_loose_file : node :=
  Dir "m" true
    [Dir "A" true [File "a.mp4" "abc" true];
     File "z.mkv" "zzz" true;
     Dir "B" true [File "b.mp4" "xyz" true]].

(** The titles of the candidate lines of the setlist, in reading order:
    the lines [clean_song_title] accepts, cleaned. *)
Definition candidate_titles (notes : string) : list string :=
  flat_map
    (fun ln =>
       match clean_song_title ln with
       | Some t => if truthy t then [t] else []
       | None => []
       end)
    (setlist_candidates notes).

(** A list without the elements that repeat an earlier one up to case:
    each element is kept where it first occurs. *)
Fixpoint first_occurrences (titles : list string) : list string :=
  match titles with
  | [] => []
  | t :: rest =>
      t :: List.filter (fun u => negb (String.eqb (lower u) (lower t)))
                       (first_occurrences rest)
  end.

(** Two lines that differ in case only. *)
Definition yellow_twice : string := "Yellow" +:+ String "010"%char "yellow".

(** The first non-empty value of a list, the empty text when there is none. *)
Definition first_non_empty (values : list string) : string :=
  match find truthy values with
  | Some v => v
  | None => ""
  end.

(** The number of seconds a duration field stands for, as the scan reads
    it: [int(duration_sec or 0)], nothing when [int] raises. *)
Definition duration_value (duration : string) : Z :=
  if truthy duration then
    match int_of_str duration with
    | Some d => d
    | None => 0%Z
    end
  else 0%Z.

(** The sum of the durations of the segments. *)
Definition total_duration (infos : list media_info) : Z :=
  fold_right Z.add 0%Z (map (fun info => duration_value (duration_sec info)) infos).

(** The segments are in the order of their index. *)
Definition in_segment_order (files : list located) : Prop :=
  Sorted.Sorted (fun p q => (segment_index p <= segment_index q)%Z) files.

(** A disc of two segments, listed out of order, in a folder. *)
Definition two_segment_disc : node :=
  Dir "show" true
    [Dir "VIDEO_TS" true
       [File "VTS_01_2.VOB" "cd" true; File "VTS_01_1.VOB" "ab" true]].


(** The city of the second line of a stack: the part before a region when
    the line ends in one, else the whole line. *)
Definition stack_city (second : string) : string :=
  match city_region "(.+?)\s*[-,]\s*([A-Za-z]{2,3})$" second with
  | Some (city, _) => city
  | None => second
  end.

(** A text of several lines. *)
Definition text_of_lines (lines : list string) : string :=
  join (String "010"%char "") lines.


(** A host to run the examples on: no note file can be decoded, the prober
    finds nothing, a volume is known by the name of its root and its
    lookup does not raise, the clock stands still, the console takes every
    text, and the functions left out of this development answer with the
    empty text.  What is stated with it below does not depend on these
    answers. *)
Definition example_host : host :=
  {| safe_read_text := fun _ => "";
     parse_media_info := fun _ _ => empty_media_info;
     master_drive_label_and_id := fun root => (path_name root, "");
     drive_lookup_raises := fun _ => false;
     console_accepts := fun _ => true;
     now_iso := fun _ => "2025-01-01 00:00:00";
     human_size := fun _ => "";
     derive_aspect_ratio := fun _ _ _ _ _ _ _ => "";
     derive_tv_standard := fun _ => "";
     resolve_artist := fun _ _ => "";
     extract_event_and_split_venue := fun _ _ => ("", "", "");
     extract_lineage := fun _ => "";
     extract_source_equipment := fun _ => "";
     determine_recording_type := fun _ _ => "";
     determine_generation := fun _ _ => "" |}.

(** A run on the example host: the whole files are probed, were they
    probed at all; media probing is off, checksums are on, the volume
    identifier is not asked for. *)
Definition example_run (roots : list string) : run :=
  Run example_host roots false true true false.

(** A file system with one root. *)
Definition one_root (root : string) (d : node) : string -> option node :=
  fun p => if String.eqb p root then Some d else None.

(** The first of some rows with a given checksum. *)
Definition first_with_checksum (ch : string) (rs : list Row) : option Row :=
  find (fun r => String.eqb (ChecksumSHA1 r) ch) rs.

(** The link between duplicates as the claim has it: of two rows with the
    same checksum, the later one names the earlier one, whose own
    reference is empty. *)
Definition linked_in_pairs (rs : list Row) : Prop :=
  forall (i j : nat) (ri rj : Row),
    (i < j)%nat ->
    nth_error rs i = Some ri ->
    nth_error rs j = Some rj ->
    truthy (ChecksumSHA1 ri) = true ->
    ChecksumSHA1 ri = ChecksumSHA1 rj ->
    DuplicateOf rj = ShowID ri /\ DuplicateOf ri = "".

(** The link as the scan makes it: a row with a checksum names the first
    of the rows before it with that checksum, and nothing when there is
    none. *)
Definition linked_to_first (rs : list Row) : Prop :=
  forall (j : nat) (r : Row),
    nth_error rs j = Some r ->
    truthy (ChecksumSHA1 r) = true ->
    DuplicateOf r
    = match first_with_checksum (ChecksumSHA1 r) (firstn j rs) with
      | Some f => ShowID f
      | None => ""
      end.

(** Three show folders whose one video file has the same bytes. *)
Definition three_copies : node :=
  Dir "m" true
    [Dir "A" true [File "a.mp4" "abc" true];
     Dir "B" true [File "b.mp4" "abc" true];
     Dir "C" true [File "c.mp4" "abc" true]].

(** A show folder. *)
Definition one_show : node := Dir "m" true [File "a.mp4" "abc" true].

(** A show folder with a video file and, further down, a VIDEO_TS folder
    that cannot be listed; and a sibling. *)
Definition locked_disc : node :=
  Dir "D" true
    [File "d.mp4" "x" true; Dir "sub" true [Dir "VIDEO_TS" false []]].

Definition sibling_show : node := Dir "E" true [File "e.mp4" "y" true].

(** The directory [folder] is found at the path [fpath] in the tree of the
    directory [d] at [top]: it is [d] itself, or it is found in the tree
    of one of the directories that [d], which can be listed, holds. *)
Inductive found_at : string -> node -> string -> node -> Prop :=
| found_here (top : string) (d : node) : found_at top d top d
| found_below (top name : string) (entries : list node) (c : node)
              (fpath : string) (folder : node) :
    In c entries ->
    is_dir c = true ->
    found_at (path_join top (node_name c)) c fpath folder ->
    found_at top (Dir name true entries) fpath folder.

(** The checksum the scan gives to the row of a folder whose representative
    files are [rep]. *)
Definition checksum_for (cfg : run) (rep : list located) : string :=
  if do_checksums cfg then
    match rep with
    | [] => ""
    | _ :: _ => sha1_of_files_in_order rep
    end
  else "".

(** The row [r] is the row of the show folder [folder], with the
    representative files [rep]: the folder is found at the path of the row
    in the tree of a root of the run, and the checksum of the row is that
    of these files. *)
Definition row_of_folder (cfg : run) (fs : string -> option node)
                         (r : Row) (folder : node) (rep : list located) : Prop :=
  (exists (root : string) (d : node) (container : string),
      In root (roots cfg)
      /\ fs root = Some d
      /\ found_at root d (FolderPath r) folder
      /\ representative_media folder = Ok (rep, container))
  /\ is_show_folder folder = true
  /\ ShowID r = normalize_show_id (FolderPath r)
  /\ ChecksumSHA1 r = checksum_for cfg rep.

(** The row of a folder whose scan raised: it has no checksum. *)
Definition is_stub (r : Row) : Prop :=
  ExtractionWarnings r = "Unhandled error while scanning this folder"
  /\ ChecksumSHA1 r = ""
  /\ DuplicateOf r = "".

(** A show folder whose name holds a byte that is not UTF-8: on disk the
    bytes of "bad" and the byte 0xFF, in the program the text "bad"
    followed by the lone surrogate U+DCFF. *)
Definition undecodable_show : node :=
  Dir ("bad" +:+ String "000"%char "") true [File "a.mp4" "abc" true].

(** What may raise in the work on a show folder: the identifier, when
    the text of the path cannot be encoded, or the making of the row. *)
Definition work_raises (cfg : run) (fpath : string) (folder : node)
                       (st : scan_state) : Prop :=
  (exists e, checked_show_id fpath = Raise e)
  \/ (exists e, show_row cfg fpath folder (now_iso (tools cfg) (clock st)) = Raise e).

(** The rule for a folder that raises as the claim has it: whenever the
    work on a show folder raises, a stub row with the name of the folder
    and the warning is appended. *)
Definition stub_rule_as_stated (cfg : run) (fpath : string) (folder : node)
                               (st : scan_state) : Prop :=
  mem (lower (path_name fpath)) _excluded = false ->
  is_show_folder folder = true ->
  work_raises cfg fpath folder st ->
  exists (st' : scan_state) (stub : Row),
    walk cfg fpath folder st = Ok st'
    /\ In stub (rows st')
    /\ FolderName stub = path_name fpath
    /\ ExtractionWarnings stub = "Unhandled error while scanning this folder".

(** A host like that of the examples, with a console that takes the texts
    that can be encoded and no other. *)
Definition strict_console_host : host :=
  {| safe_read_text := safe_read_text example_host;
     parse_media_info := parse_media_info example_host;
     master_drive_label_and_id := master_drive_label_and_id example_host;
     drive_lookup_raises := drive_lookup_raises example_host;
     console_accepts := encodable;
     now_iso := now_iso example_host;
     human_size := human_size example_host;
     derive_aspect_ratio := derive_aspect_ratio example_host;
     derive_tv_standard := derive_tv_standard example_host;
     resolve_artist := resolve_artist example_host;
     extract_event_and_split_venue := extract_event_and_split_venue example_host;
     extract_lineage := extract_lineage example_host;
     extract_source_equipment := extract_source_equipment example_host;
     determine_recording_type := determine_recording_type example_host;
     determine_generation := determine_generation example_host |}.

(** What holds of the rows and of the map from checksums to identifiers
    all along a run. *)
Definition checksums_recorded (st : scan_state) : Prop :=
  linked_to_first (rows st)
  /\ forall ch,
       checksum_to_showid st !! ch
       = if truthy ch
         then match first_with_checksum ch (rows st) with
              | Some f => Some (ShowID f)
              | None => None
              end
         else None.


(** Every character of a text satisfies [p]. *)
Fixpoint all_chars (p : ascii -> bool) (s : string) : bool :=
  match s with
  | EmptyString => true
  | String c s' => p c && all_chars p s'
  end.

(** ** What the further properties are stated with *)

(** ** Further notions *)

(** Where a row of a run comes from: the visit of a folder whose name is
    not excluded, which either raised and left the stub row, or built the
    row of a show folder and gave it its checksum. *)
Definition row_of_visit (cfg : run) (r : Row) : Prop :=
  exists fpath : string,
    mem (lower (path_name fpath)) _excluded = false
    /\ ((exists now, r = stub_row fpath now)
        \/ (exists (folder : node) (now : string) (row : Row)
                   (rep : list located) (container : string)
                   (known : gmap string string),
              is_show_folder folder = true
              /\ representative_media folder = Ok (rep, container)
              /\ show_row cfg fpath folder now = Ok (row, rep)
              /\ r = fst (link_checksum cfg row rep known))).

(** A lower-case hexadecimal digit. *)
Definition is_hex (c : ascii) : bool := is_digit c || in_range 97 102 c.

(** The rows are in the order of their keys. *)
Definition in_key_order (rs : list Row) : Prop :=
  Sorted.Sorted (fun r1 r2 => key_le (row_key r1) (row_key r2) = true) rs.

(** The title set of a segment of a disc, by its file name: the key under
    which [dvd_group_segments] groups it. *)
Definition title_set_key (name : string) : option string :=
  match Re.match_ (Re.compile "(?i)^(VTS_\d{2})_\d+\.VOB$") name with
  | Some m => Some (upper (Re.group_str m 1))
  | None => None
  end.

(** A disc with two title sets; the second, in two segments, is the
    larger. *)
Definition two_title_sets : node :=
  Dir "show" true
    [Dir "VIDEO_TS" true
       [File "VIDEO_TS.VOB" "menu" true;
        File "VTS_01_1.VOB" "abc" true;
        File "vts_02_2.vob" "cd" true;
        File "VTS_02_1.VOB" "ab" true]].

(** Whether a segment belongs to the title set [key]. *)
Definition of_title_set (key : string) (v : located) : bool :=
  match title_set_key (node_name (snd v)) with
  | Some k => String.eqb k key
  | None => false
  end.

(** The bytes of a list of files together. *)
Definition size_sum (files : list located) : Z :=
  fold_left (fun acc p => (acc + st_size (snd p))%Z) files 0%Z.

(** The .vob files of a VIDEO_TS directory found at [rel] below the folder,
    as [dvd_group_segments] lists them. *)
Definition vob_files (rel : list string) (entries : list node) : list located :=
  map (fun v => (rel ++ [node_name v], v)) (List.filter is_vob_file entries).

(** The number of letters A-Z and a-z in a text. *)
Definition ascii_letters (s : string) : nat :=
  List.length (List.filter is_ascii_alpha (list_ascii_of_string s)).

(** The first and the last character of a text. *)
Definition first_char (s : string) : option ascii :=
  match s with
  | EmptyString => None
  | String c _ => Some c
  end.

Fixpoint last_char (s : string) : option ascii :=
  match s with
  | EmptyString => None
  | String c EmptyString => Some c
  | String _ s' => last_char s'
  end.

(** A text that neither begins nor ends with a character of [chars]. *)
Definition trimmed_of (chars : string) (s : string) : Prop :=
  (forall c, first_char s = Some c -> mem_char c chars = false)
  /\ (forall c, last_char s = Some c -> mem_char c chars = false).

(** A line of a section of the text [lines] below an anchor: a line that
    is not blank and no anchor line, found after an anchor line, without
    the white space at its end. *)
Definition section_line (anchor_re : Re.pattern) (lines : list string)
                        (out : string) : Prop :=
  exists (before : list string) (ln : string) (after : list string),
    lines = before ++ ln :: after
    /\ out = rstrip ln
    /\ strip ln <> ""
    /\ Re.match_ anchor_re (strip ln) = None
    /\ exists a, In a before /\ Re.match_ anchor_re (strip a) <> None.

(** ** The facts read from notes and names *)

(** The functions of the program that read the artist, the event, the
    lineage, the equipment, the recording type and the generation from the
    notes and the names of a folder.  A path text is absolute and has no
    "." or ".." component, so that [resolve()] leaves it as it is. *)
Module Facts.

(** [s.split()]: the maximal runs of characters that are not white
    space; [cur] is the run read so far, reversed. *)
Fixpoint split_ws_aux (cur : list ascii) (s : string) : list string :=
  match s with
  | EmptyString =>
      match cur with
      | [] => []
      | _ => [string_of_list_ascii (rev cur)]
      end
  | String c s' =>
      if is_space c then
        match cur with
        | [] => split_ws_aux [] s'
        | _ => string_of_list_ascii (rev cur) :: split_ws_aux [] s'
        end
      else split_ws_aux (c :: cur) s'
  end.

Definition split_ws (s : string) : list string := split_ws_aux [] s.

(** [re.escape(s)]: a backslash before each character that is special in
    a pattern. *)
Fixpoint escape (s : string) : string :=
  match s with
  | EmptyString => EmptyString
  | String c s' =>
      if mem_char c "()[]{}?*+-|^$\.&~# " || in_range 9 13 c
      then String "\" (String c (escape s'))
      else String c (escape s')
  end.

(** [re.compile(pat, re.IGNORECASE)] for a pattern text built by the
    program: the parser reads its UTF-8 form. *)
Definition compile_text_i (pat : string) : Re.pattern :=
  Re.compile_i (Sha1.utf8 pat).

(** The components of an absolute path text, the root left out:
    [[p for p in folder.resolve().parts if p and p != os.sep]]. *)
Fixpoint path_parts_aux (cur : list ascii) (s : string) : list string :=
  match s with
  | EmptyString =>
      match cur with
      | [] => []
      | _ => [string_of_list_ascii (rev cur)]
      end
  | String c s' =>
      if Ascii.eqb c "/" then
        match cur with
        | [] => path_parts_aux [] s'
        | _ => string_of_list_ascii (rev cur) :: path_parts_aux [] s'
        end
      else path_parts_aux (c :: cur) s'
  end.

Definition path_parts (p : string) : list string := path_parts_aux [] p.

(** [folder.name] and [folder.parent.name]: the last component and the
    one before it, empty where there is none. *)
Definition folder_name (p : string) : string := List.last (path_parts p) "".

Definition parent_name (p : string) : string :=
  List.last (removelast (path_parts p)) "".

Definition BAND_NAMES : list string :=
  ["30 Seconds to Mars"; "Aerosmith"; "Alanis Morissette"; "Alice In Chains";
   "Arctic Monkeys"; "Army of Anyone"; "Ash"; "Audioslave"; "Beastie Boys"; "Beck";
   "Ben Harper & The Innocent Criminals"; "Billy Corgan"; "Black Crowes";
   "Blind Melon"; "Blink 182"; "Bloodhound Gang"; "Blur"; "Bon Jovi";
   "Bruce Springsteen & the E Street Band"; "Bush"; "The Cardigans"; "The Cars";
   "Cat Stevens"; "Chris Cornell"; "Coldplay"; "Counting Crows"; "Creed";
   "Creedence Clearwater Revival"; "Crowded House"; "The Dandy Warhols";
   "Dave Navarro"; "Deep Purple"; "Deftones"; "Dire Straits"; "Editors";
   "Erykah Badu"; "Everclear"; "Evermore"; "Faith No More"; "The Feelers";
   "Filter"; "Flight Of The Conchords"; "Fly My Pretties"; "Foo Fighters";
   "Franz Ferdinand"; "The Fray"; "Fu Manchu"; "Fuel"; "Fun Lovin' Criminals";
   "Green Day"; "Grinspoon"; "Guns N' Roses"; "Hed PE"; "Hole"; "Incubus";
   "Jamiroquai"; "Jane's Addiction"; "Jay-Z"; "Jeff Buckley"; "Jessica Mauboy";
   "Jet"; "John Butler Trio"; "John Fogerty"; "Kaiser Chiefs"; "Kanye West";
   "Kelly Jones"; "The Killers"; "Kings Of Leon"; "The Kinks"; "Kiss"; "Korn";
   "KT Tunstall"; "Lady Gaga"; "Ladyhawke"; "Led Zeppelin"; "Lenny Kravitz";
   "Limp Bizkit"; "Live"; "Manic Street Preachers"; "Marcy Playground";
   "Marilyn Manson"; "The Mars Volta"; "Mercury Crowe"; "Metallica";
   "Michael Jackson"; "Millencolin"; "Moby";
   "Mot" +:+ String "246"%char "rhead"; "Muse";
   "Nickelback"; "Nirvana"; "Oasis"; "The Offspring"; "Orgy"; "Our Lady Peace";
   "Papa Roach"; "Pearl Jam"; "A Perfect Circle"; "The Police"; "Portishead";
   "Powderfinger"; "Presidents of the United States of America"; "Prodigy";
   "Queen"; "Queens of the Stone Age";
   "Queensr" +:+ String "255"%char "che"; "R.E.M."; "The Raconteurs";
   "Radiohead"; "Rage Against the Machine"; "Red Hot Chili Peppers";
   "Rob Zombie"; "Rolling Stones"; "Scott Weiland"; "Sheryl Crow"; "Shihad";
   "Sia"; "Silverchair"; "Smashing Pumpkins"; "Snoop Dogg"; "Soundgarden";
   "Spiritualized"; "Staind"; "Steppenwolf"; "Stereophonics";
   "Stone Temple Pilots"; "The Strokes"; "Sum 41"; "Supergrass";
   "Them Crooked Vultures"; "Third Eye Blind"; "Tool"; "Train"; "U2";
   "Velvet Revolver"; "The Verve"; "The Vines"; "Weezer"; "White Stripes";
   "Wolfmother"; "Zwan"; "ZZ Top"].

(** [BAND_ALIASES], its items in the order written. *)
Definition BAND_ALIASES_items : list (string * string) :=
  [("RHCP", "Red Hot Chili Peppers");
   ("QOTSA", "Queens of the Stone Age");
   ("REM", "R.E.M.");
   ("STP", "Stone Temple Pilots");
   ("POTUSA", "Presidents of the United States of America");
   ("TPOTUSA", "Presidents of the United States of America");
   ("GNR", "Guns N' Roses")].

Definition BAND_ALIASES : gmap string string := dict_of BAND_ALIASES_items.

Definition _norm_punct : Re.pattern := Re.compile "[\s\-_.,:;!/\\]+".
Definition _norm_apos : Re.pattern := Re.compile "[’'`]".

Definition _normalize_for_match (s : string) : string :=
  let s := Re.sub _norm_apos "" (lower s) in
  let s := Re.sub _norm_punct " " s in
  join " " (split_ws s).

(** [_compile_band_patterns]: for each name its pattern and its normal
    form, the longest normal form first. *)
Definition _compile_band_patterns (names : list string)
  : list (string * Re.pattern * string) :=
  let prepared :=
    map (fun n =>
           let n_norm := _normalize_for_match n in
           let tokens := map escape (split_ws n_norm) in
           let pat := "\b" +:+ join "\s+" tokens +:+ "\b" in
           (n, compile_text_i pat, n_norm))
        names in
  sorted_by (fun t1 t2 => (String.length t2.2 <=? String.length t1.2)%nat) prepared.

Definition _BAND_PATTERNS : list (string * Re.pattern * string) :=
  _compile_band_patterns (BAND_NAMES ++ map fst BAND_ALIASES_items).

(** [first_line_after_key]: the loop over the anchors for the line [ln],
    followed by the lines [rest]. *)
Fixpoint anchors_loop (anchors : list Re.pattern) (ln : string) (rest : list string)
  : option string :=
  match anchors with
  | [] => None
  | anchor :: anchors' =>
      match Re.match_ anchor (strip ln) with
      | Some _ =>
          match find (fun l => truthy (strip l)) (firstn 5 rest) with
          | Some l => Some (strip l)
          | None => anchors_loop anchors' ln rest
          end
      | None => anchors_loop anchors' ln rest
      end
  end.

Fixpoint lines_loop (anchors : list Re.pattern) (lines : list string) : string :=
  match lines with
  | [] => ""
  | ln :: rest =>
      match anchors_loop anchors ln rest with
      | Some found => found
      | None => lines_loop anchors rest
      end
  end.

Definition first_line_after_key (text : string) (anchors : list Re.pattern) : string :=
  if negb (truthy text) then "" else lines_loop anchors (splitlines text).

(** The loop of [extract_event_and_split_venue] over the lines. *)
Fixpoint event_loop (lines : list string) (existing_venue : string)
  : string * string * string :=
  match lines with
  | [] => ("", "", "")
  | ln :: rest =>
      let ln := strip ln in
      if negb (truthy ln) then event_loop rest existing_venue
      else
        match Re.search (Re.compile_i "(concert|festival|live|rockpalast|tour|show)") ln,
              Re.search (Re.compile "\s[–\-]\s") ln with
        | Some _, Some _ =>
            match Re.match_ (Re.compile "(.+?)\s+[–\-]\s+(.+)$") ln with
            | Some m =>
                let event := strip (Re.group_str m 1) in
                let ven := strip (Re.group_str m 2) in
                (event, if negb (truthy existing_venue) then ven else "", "evt:eventline")
            | None => event_loop rest existing_venue
            end
        | _, _ => event_loop rest existing_venue
        end
  end.

Definition extract_event_and_split_venue (notes existing_venue : string)
  : string * string * string :=
  if negb (truthy notes) then ("", "", "")
  else event_loop (splitlines notes) existing_venue.

(** [_compile_search_set]: from the normal form of a name to the name. *)
Definition _compile_search_set (names : list string) : gmap string string :=
  dict_of (map (fun n => (_normalize_for_match n, n)) names).

(** [search_longest] of [resolve_artist]: the first pattern found in
    [hay], an alias giving the name it stands for. *)
Definition search_longest (hay : string) : option string :=
  if negb (truthy hay) then None
  else
    match find (fun t => match Re.search t.1.2 hay with
                         | Some _ => true
                         | None => false
                         end) _BAND_PATTERNS with
    | Some t =>
        Some (match BAND_ALIASES !! t.1.1 with
              | Some name => name
              | None => t.1.1
              end)
    | None => None
    end.

(** [a or b] where each is a text or [None]. *)
Definition or_else (a b : option string) : option string :=
  match a with
  | Some x => if truthy x then a else b
  | None => b
  end.

(** [resolve_artist].  The segments are looked at in their order in the
    path, which is the order of the items of [seg_norm_map]. *)
Definition resolve_artist (folder : string) (notes : string) : string :=
  let segments := path_parts folder in
  let name_norm_map := _compile_search_set BAND_NAMES in
  match find (fun seg => has_key name_norm_map (_normalize_for_match seg)) segments with
  | Some seg => get name_norm_map (_normalize_for_match seg)
  | None =>
      let folder_norm := _normalize_for_match (folder_name folder) in
      let parent_norm := _normalize_for_match (parent_name folder) in
      let notes_norm := _normalize_for_match notes in
      let artist :=
        or_else (search_longest folder_norm)
                (or_else (search_longest parent_norm) (search_longest notes_norm)) in
      match artist with
      | Some a =>
          if truthy a then a
          else
            let parent := strip (parent_name folder) in
            if truthy parent && negb (mem (lower parent) ["video_ts"; "audio_ts"])
            then parent else folder_name folder
      | None =>
          let parent := strip (parent_name folder) in
          if truthy parent && negb (mem (lower parent) ["video_ts"; "audio_ts"])
          then parent else folder_name folder
      end
  end.

(** The notes and the name of the folder on two lines, in lower case. *)
Definition notes_and_name (notes folder_name : string) : string :=
  lower (notes +:+ String "010"%char folder_name).

Definition determine_recording_type (notes folder_name : string) : string :=
  let text := notes_and_name notes folder_name in
  match Re.search
          (Re.compile "(pro-?shot|broadcast|tv|multicam|soundboard|sbd|webcast|ppv|dvd\s*author)")
          text with
  | Some _ => "Proshot"
  | None =>
  match Re.search
          (Re.compile "(audience|aud\b|taper|camcorder|handheld|hi8|minidv|\bvx\d{3,4}\b)")
          text with
  | Some _ => "Audience"
  | None =>
  match Re.search
          (Re.compile "(documentary|interview|featurette|behind the scenes|bts)")
          text with
  | Some _ => "Documentary"
  | None => ""
  end end end.

Definition determine_generation (notes folder_name : string) : string :=
  let text := notes_and_name notes folder_name in
  match Re.search (Re.compile "\b(master)\b") text with
  | Some _ => "Master"
  | None =>
  match Re.search (Re.compile "\b(\d+)(st|nd|rd|th)\s*gen(eration)?\b") text with
  | Some m => Re.group_str m 1 +:+ Re.group_str m 2 +:+ " Gen"
  | None =>
  match Re.search (Re.compile "\bgen(?:eration)?\s*[:\- ]\s*(\d+)\b") text with
  | Some m => Re.group_str m 1 +:+ " Gen"
  | None => ""
  end end end.

Definition extract_source_equipment (lineage : string) : string :=
  if negb (truthy lineage) then ""
  else
    match Re.search
            (Re.compile_i "(mini\s*dv|minidv|hi8|betacam|vx\d{3,4}|xl1|xl2|hd pvr|hvr|sony|panasonic|canon)[^\n,;]*")
            lineage with
    | Some m => strip (Re.m_text m)
    | None => ""
    end.

(** The loop of [extract_lineage] that keeps a piece where it first
    occurs, up to case. *)
Fixpoint distinct_pieces (pieces : list string) (seen : gset string) : list string :=
  match pieces with
  | [] => []
  | p :: rest =>
      if bool_decide (lower p ∈ seen) then distinct_pieces rest seen
      else p :: distinct_pieces rest ({[lower p]} ∪ seen)
  end.

Definition lineage_anchor : Re.pattern :=
  Re.compile_i "^(lineage|source|taper|gen|generation)\s*:?\s*$".

(** The pieces of [extract_lineage]: the inline ones, else those of the
    anchored section, else the first line after the key. *)
Definition lineage_pieces (notes : string) : list string :=
  let inline :=
    map (fun gm => Re.group_str (snd gm) 2)
        (fst (Re.finditer
                (Re.compile "(?im)^(lineage|source|taper|gen(?:eration)?)\s*[:\-]\s*(.+)$")
                notes)) in
  let pieces := map strip (List.filter (fun p => truthy (strip p)) inline) in
  let pieces :=
    match pieces with
    | [] =>
        match extract_section_by_anchor notes lineage_anchor with
        | [] => pieces
        | anchored =>
            map (fun x => strip (Re.sub (Re.compile "\s+") " " x))
                (List.filter (fun x => truthy (strip x)) anchored)
        end
    | _ => pieces
    end in
  match pieces with
  | [] =>
      let line := first_line_after_key notes [lineage_anchor] in
      if truthy line then [strip (Re.sub (Re.compile "\s+") " " line)] else pieces
  | _ => pieces
  end.

Definition extract_lineage (notes : string) : string :=
  if negb (truthy notes) then ""
  else prefix 2000 (join " | " (distinct_pieces (lineage_pieces notes) ∅)).

End Facts.

(** A host whose readers of notes and names are those of the program. *)
Definition with_facts (h : host) : host :=
  {| safe_read_text := safe_read_text h;
     parse_media_info := parse_media_info h;
     master_drive_label_and_id := master_drive_label_and_id h;
     drive_lookup_raises := drive_lookup_raises h;
     console_accepts := console_accepts h;
     now_iso := now_iso h;
     human_size := human_size h;
     derive_aspect_ratio := derive_aspect_ratio h;
     derive_tv_standard := derive_tv_standard h;
     resolve_artist := Facts.resolve_artist;
     extract_event_and_split_venue := Facts.extract_event_and_split_venue;
     extract_lineage := Facts.extract_lineage;
     extract_source_equipment := Facts.extract_source_equipment;
     determine_recording_type := Facts.determine_recording_type;
     determine_generation := Facts.determine_generation |}.

(** A text that holds [w] somewhere. *)
Definition contains (w text : string) : Prop :=
  exists before after : string, text = before +:+ w +:+ after.

(** The character before the position reached after reading [w]. *)
Definition after_word (w : list ascii) (prev : option ascii) : option ascii :=
  fold_left (fun _ x => Some x) w prev.

(** A sufficient test for a pattern without look-around to match the
    whole of [w], case being significant: a repetition is tried with no
    round and with one round only. *)
Fixpoint accepts (r : Re.regex) (w : list ascii) : bool :=
  match r with
  | Re.REmpty => match w with [] => true | _ => false end
  | Re.RLit c => match w with [x] => Ascii.eqb c x | _ => false end
  | Re.RSet neg items =>
      match w with
      | [x] => xorb neg (Re.class_match false items x)
      | _ => false
      end
  | Re.RSeq a b =>
      existsb (fun i => accepts a (firstn i w) && accepts b (skipn i w))
              (seq 0 (S (List.length w)))
  | Re.RAlt a b => accepts a w || accepts b w
  | Re.RGroup _ a => accepts a w
  | Re.RRep lo hi _ a =>
      match w with
      | [] => (lo =? 0)%nat
      | _ :: _ =>
          (lo <=? 1)%nat
          && match hi with Some h => (1 <=? h)%nat | None => true end
          && accepts a w
      end
  | _ => false
  end.

(** Words that the first pattern of [determine_recording_type] matches. *)
Definition proshot_words : list string :=
  ["proshot"; "pro-shot"; "broadcast"; "tv"; "multicam"; "soundboard"; "sbd";
   "webcast"; "ppv"; "dvdauthor"; "dvd author"].

(** * Properties *)

(** * The model against known values *)

Example sha1_of_empty :
  Sha1.hexdigest "" = "da39a3ee5e6b4b0d3255bfef95601890afd80709".
Proof. vm_compute. reflexivity. Qed.

Example sha1_of_abc :
  Sha1.hexdigest "abc" = "a9993e364706816aba3e25717850c26c9cd0d89d".
Proof. vm_compute. reflexivity. Qed.

Example sha1_of_two_blocks :
  Sha1.hexdigest "abcdbcdecdefdefgefghfghighijhijkijkljklmklmnlmnomnopnopq"
  = "84983e441c3bd26ebaae4aa1f95129e5e54670f1".
Proof. vm_compute. reflexivity. Qed.

Example show_id_of_path : normalize_show_id "/m/A" = "6a814087437c".
Proof. vm_compute. reflexivity. Qed.

Example iso_pattern_read :
  Re.p_regex (Re.compile "\b(\d{4})[-/\.]([\d]{1,2})") =
  Re.RSeq Re.RWordB
    (Re.RSeq (Re.RGroup 1 (Re.RRep 4 (Some 4%nat) true (Re.RSet false [Re.CDigit])))
       (Re.RSeq (Re.RSet false [Re.CChar "-"; Re.CChar "/"; Re.CChar "."])
          (Re.RGroup 2 (Re.RRep 1 (Some 2%nat) true (Re.RSet false [Re.CDigit]))))).
Proof. vm_compute. reflexivity. Qed.

Example lazy_group_then_region :
  option_map (fun m => (Re.group_str m 1, Re.group_str m 2))
    (Re.match_ (Re.compile "(.+?)\s+([A-Z]{2,3})$") "New York NY")
  = Some ("New York", "NY").
Proof. vm_compute. reflexivity. Qed.

Example split_on_commas :
  Re.split (Re.compile "\s*,\s*") "Wembley Arena , London,UK"
  = ["Wembley Arena"; "London"; "UK"].
Proof. vm_compute. reflexivity. Qed.

Example later_region_wins :
  REGION_TO_COUNTRY !! "WA" = Some "Australia"
  /\ REGION_TO_COUNTRY !! "NT" = Some "Australia"
  /\ REGION_TO_COUNTRY !! "CA" = Some "USA".
Proof. vm_compute. repeat split. Qed.

Example splitlines_keeps_inner_blank :
  splitlines ("a" +:+ String "010"%char (String "010"%char "b"))
  = ["a"; ""; "b"].
Proof. vm_compute. reflexivity. Qed.

Example suffix_of_names :
  map suffix ["a.mp4"; ".mp4"; "a."; "a.b.c"; "noext"] = [".mp4"; ""; ""; ".c"; ""].
Proof. vm_compute. reflexivity. Qed.

Example setlist_after_anchor :
  extract_setlist
    (text_of_lines ["Band"; "Setlist:"; "01. Yellow"; "02. Trouble (live)";
                    "[03:10] Shiver"; "yellow"; ""; "Lineage: x"])
  = "Yellow; Trouble; Shiver".
Proof. vm_compute. reflexivity. Qed.

Example location_tiers :
  parse_location "Wembley Arena, London, UK" "x"
  = ("Wembley Arena", "London", "UK", "", "loc:comma")
  /\ parse_location "nothing here" "2001-05-06 Arena - Berlin - Germany"
     = ("Arena", "Berlin", "Germany", "", "loc:folder")
  /\ parse_location "taped at the Reading festival" "folder"
     = ("", "", "", "Reading", "").
Proof. vm_compute. repeat split. Qed.

(** * Text and numbers *)

Lemma truthy_empty (s : string) : truthy s = false -> s = "".
Proof. destruct s; [reflexivity|discriminate]. Qed.

Lemma digits_value_acc (d : Decimal.uint) (p : positive) :
  digits_value (Z.pos p) (NilEmpty.string_of_uint d)
  = Some (Z.pos (Pos.of_uint_acc d p)).
Proof.
  revert p. induction d; intros p; cbn [NilEmpty.string_of_uint Pos.of_uint_acc];
    [reflexivity|..];
    unfold digits_value; fold digits_value;
    match goal with
    | |- (if is_digit ?c then _ else _) = _ =>
        change (is_digit c) with true; cbv iota;
        let v := eval vm_compute in (Z.of_N (code c - 48)) in
        change (Z.of_N (code c - 48)) with v
    end;
    match goal with
    | |- digits_value ?a _ = Some (Z.pos (Pos.of_uint_acc _ ?q)) =>
        replace a with (Z.pos q) by lia
    end; apply IHd.
Qed.

Lemma digits_value_of_uint (d : Decimal.uint) :
  digits_value 0 (NilEmpty.string_of_uint d) = Some (Z.of_N (Pos.of_uint d)).
Proof.
  induction d; cbn [NilEmpty.string_of_uint Pos.of_uint]; [reflexivity|..];
    unfold digits_value; fold digits_value;
    match goal with
    | |- (if is_digit ?c then _ else _) = _ =>
        change (is_digit c) with true; cbv iota;
        let v := eval vm_compute in (10 * 0 + Z.of_N (code c - 48))%Z in
        change (10 * 0 + Z.of_N (code c - 48))%Z with v
    end;
    [exact IHd|apply digits_value_acc..].
Qed.

Lemma string_of_uint_digits (d : Decimal.uint) :
  all_chars is_digit (NilEmpty.string_of_uint d) = true.
Proof. induction d; simpl; auto. Qed.

Lemma digit_not_space (c : ascii) : is_digit c = true -> is_space c = false.
Proof.
  unfold is_digit, is_space, in_range, is_code.
  destruct (code c) as [|p] eqn:E; [discriminate|].
  intros H. apply andb_true_iff in H as [H1 H2].
  apply N.leb_le in H1, H2.
  repeat rewrite orb_false_iff. repeat split;
    try (apply andb_false_iff; first [left; apply N.leb_gt; lia | right; apply N.leb_gt; lia]);
    apply N.eqb_neq; lia.
Qed.

Lemma digit_not_underscore (c : ascii) : is_digit c = true -> is_code 95 c = false.
Proof.
  unfold is_digit, in_range, is_code. intros H.
  apply andb_true_iff in H as [H1 H2]. apply N.leb_le in H1, H2.
  apply N.eqb_neq; lia.
Qed.

Lemma lstrip_digits (s : string) :
  all_chars is_digit s = true -> lstrip_by is_space s = s.
Proof.
  destruct s as [|c s]; simpl; [reflexivity|].
  intros H. apply andb_true_iff in H as [Hc _].
  rewrite (digit_not_space c Hc). reflexivity.
Qed.

Lemma rstrip_digits (s : string) :
  all_chars is_digit s = true -> rstrip_by is_space s = s.
Proof.
  induction s as [|c s IH]; simpl; [reflexivity|].
  intros H. apply andb_true_iff in H as [Hc Hs].
  rewrite (IH Hs). destruct s; [|reflexivity].
  rewrite (digit_not_space c Hc). reflexivity.
Qed.

Lemma drop_digit_separators_digits (s : string) (b : bool) :
  all_chars is_digit s = true -> drop_digit_separators b s = Some s.
Proof.
  revert b. induction s as [|c s IH]; intros b; simpl; [reflexivity|].
  intros H. apply andb_true_iff in H as [Hc Hs].
  rewrite (digit_not_underscore c Hc), (IH _ Hs). reflexivity.
Qed.

Lemma int_of_digits (d : Decimal.uint) :
  d <> Decimal.Nil ->
  int_of_str (NilEmpty.string_of_uint d) = Some (Z.of_N (Pos.of_uint d))
  /\ int_of_str (String "-" (NilEmpty.string_of_uint d))
     = Some (- Z.of_N (Pos.of_uint d))%Z.
Proof.
  intros Hd.
  pose proof (string_of_uint_digits d) as Hdig.
  pose proof (digits_value_of_uint d) as Hval.
  unfold int_of_str, strip, strip_by.
  split.
  - rewrite (lstrip_digits _ Hdig), (rstrip_digits _ Hdig).
    destruct d; try congruence;
      cbn [NilEmpty.string_of_uint] in *; cbv beta iota;
      rewrite (drop_digit_separators_digits _ _ Hdig), Hval;
      f_equal; lia.
  - change (lstrip_by is_space (String "-" ?s)) with (String "-" s).
    assert (Hr : rstrip_by is_space (String "-" (NilEmpty.string_of_uint d))
                 = String "-" (NilEmpty.string_of_uint d)).
    { cbn [rstrip_by]. rewrite (rstrip_digits _ Hdig).
      destruct d; try congruence; reflexivity. }
    rewrite Hr. cbv beta iota.
    destruct d; try congruence;
      cbn [NilEmpty.string_of_uint] in *;
      rewrite (drop_digit_separators_digits _ _ Hdig), Hval;
      f_equal; lia.
Qed.

(** [int(str(n)) == n] *)
Lemma int_of_str_of_Z (n : Z) : int_of_str (str_of_Z n) = Some n.
Proof.
  destruct n as [|p|p]; [reflexivity|..]; unfold str_of_Z; simpl.
  - unfold NilZero.string_of_uint.
    pose proof (DecimalPos.Unsigned.to_uint_nonnil p) as Hn.
    destruct (Pos.to_uint p) eqn:E; try congruence;
      rewrite <- E in *;
      rewrite (proj1 (int_of_digits _ Hn)), DecimalPos.Unsigned.of_to; reflexivity.
  - unfold NilZero.string_of_uint.
    pose proof (DecimalPos.Unsigned.to_uint_nonnil p) as Hn.
    destruct (Pos.to_uint p) eqn:E; try congruence;
      rewrite <- E in *;
      rewrite (proj2 (int_of_digits _ Hn)), DecimalPos.Unsigned.of_to; reflexivity.
Qed.

(** * Dates *)

Lemma digits_value_bound (s : string) (acc v : Z) :
  (0 <= acc)%Z -> digits_value acc s = Some v ->
  (0 <= v < (acc + 1) * 10 ^ Z.of_nat (String.length s))%Z.
Proof.
  revert acc v. induction s as [|c s IH]; intros acc v Hacc; simpl String.length.
  - simpl. intros [= <-]. lia.
  - cbn [digits_value]. destruct (is_digit c) eqn:Hc; [|discriminate].
    assert (Hd : (0 <= Z.of_N (code c - 48) <= 9)%Z).
    { unfold is_digit, in_range in Hc. apply andb_true_iff in Hc as [H1 H2].
      apply N.leb_le in H1, H2. lia. }
    intros Hv. apply IH in Hv; [|lia].
    rewrite Nat2Z.inj_succ, Z.pow_succ_r by lia. nia.
Qed.

Lemma lstrip_by_length (p : ascii -> bool) (s : string) :
  (String.length (lstrip_by p s) <= String.length s)%nat.
Proof. induction s as [|c s IH]; simpl; [lia|]. destruct (p c); simpl; lia. Qed.

Lemma rstrip_by_length (p : ascii -> bool) (s : string) :
  (String.length (rstrip_by p s) <= String.length s)%nat.
Proof.
  induction s as [|c s IH]; simpl; [lia|].
  destruct (rstrip_by p s); [destruct (p c)|]; simpl in *; lia.
Qed.

Lemma strip_length (s : string) : (String.length (strip s) <= String.length s)%nat.
Proof.
  unfold strip, strip_by.
  pose proof (rstrip_by_length is_space (lstrip_by is_space s)).
  pose proof (lstrip_by_length is_space s). lia.
Qed.

Lemma drop_digit_separators_length (s t : string) (b : bool) :
  drop_digit_separators b s = Some t -> (String.length t <= String.length s)%nat.
Proof.
  revert b t. induction s as [|c s IH]; intros b t; simpl.
  - intros [= <-]. simpl. lia.
  - destruct (is_code 95 c).
    + destruct s as [|d s']; [discriminate|].
      destruct (b && is_digit d); [|discriminate].
      intros H. apply IH in H. simpl in *. lia.
    + destruct (drop_digit_separators (is_digit c) s) eqn:E; [|discriminate].
      intros [= <-]. apply IH in E. simpl. lia.
Qed.

(** The digits after the sign, read as [int] reads them. *)
Lemma int_body_bound (t : string) (sign v : Z) :
  match t with
  | EmptyString => None
  | _ => match drop_digit_separators false t with
         | Some u => match digits_value 0 u with
                     | Some v => Some (sign * v)%Z
                     | None => None
                     end
         | None => None
         end
  end = Some v ->
  (sign = 1 \/ sign = -1)%Z ->
  (v < 10 ^ Z.of_nat (String.length t))%Z.
Proof.
  intros H Hs.
  assert (H' : exists u w, drop_digit_separators false t = Some u
                           /\ digits_value 0 u = Some w /\ v = (sign * w)%Z).
  { destruct t as [|c0 t0]; [discriminate|].
    destruct (drop_digit_separators false (String c0 t0)) as [u|] eqn:Eu;
      [|discriminate].
    destruct (digits_value 0 u) as [w|] eqn:Ew; [|discriminate].
    injection H as <-. exists u, w. auto. }
  destruct H' as (u & w & Hu & Hw & ->).
  apply drop_digit_separators_length in Hu.
  apply digits_value_bound in Hw; [|lia].
  assert (10 ^ Z.of_nat (String.length u) <= 10 ^ Z.of_nat (String.length t))%Z
    by (apply Z.pow_le_mono_r; lia).
  destruct Hs as [-> | ->]; lia.
Qed.

(** A number written with [n] characters is below 10 to the [n]. *)
Lemma int_of_str_bound (s : string) (v : Z) :
  int_of_str s = Some v -> (v < 10 ^ Z.of_nat (String.length s))%Z.
Proof.
  unfold int_of_str. pose proof (strip_length s) as Hlen.
  destruct (strip s) as [|c t] eqn:E; [discriminate|].
  assert (Hpow : forall u, (String.length u <= String.length (String c t))%nat ->
                 (10 ^ Z.of_nat (String.length u)
                  <= 10 ^ Z.of_nat (String.length s))%Z).
  { intros u Hu. apply Z.pow_le_mono_r; lia. }
  destruct (Ascii.eqb_spec c "-") as [->|Hm].
  - intros H. apply int_body_bound in H; [|lia].
    specialize (Hpow t). simpl in Hpow. lia.
  - destruct (Ascii.eqb_spec c "+") as [->|Hp].
    + intros H. apply int_body_bound in H; [|lia].
      specialize (Hpow t). simpl in Hpow. lia.
    + intros H.
      assert (H' : match String c t with
                   | EmptyString => None
                   | _ => match drop_digit_separators false (String c t) with
                          | Some u => match digits_value 0 u with
                                      | Some v => Some (1 * v)%Z
                                      | None => None
                                      end
                          | None => None
                          end
                   end = Some v).
      { destruct c as [[] [] [] [] [] [] [] []]; try exact H; congruence. }
      apply int_body_bound in H'; [|lia].
      specialize (Hpow (String c t)). lia.
Qed.

(** C5: "25-12-2023" reads day first, "03-04-2023" month first, alone and
    within a text.  Whenever the ambiguous numeric pattern is the one that
    decides (the ISO pattern finds nothing), a first number above 12 is
    the day and otherwise the month, and a year matched with two
    characters is taken in this century: the date returned has the year
    2000 plus that number. *)
Theorem guess_date_ambiguous_numeric :
  guess_date "25-12-2023" = "2023-12-25"
  /\ guess_date "03-04-2023" = "2023-03-04"
  /\ guess_date "Live in Pilton, 25-12-2023 (PAL)" = "2023-12-25"
  /\ guess_date "taped 03-04-2023, 2nd gen" = "2023-03-04"
  /\ forall (text : string) (m : Re.rmatch) (a b c : Z),
       truthy text = true ->
       Re.search (Re.compile_im (nth 0 DATE_PATTERNS "")) text = None ->
       Re.search (Re.compile_im (nth 1 DATE_PATTERNS "")) text = Some m ->
       int_of_str (Re.group_str m 1) = Some a ->
       int_of_str (Re.group_str m 2) = Some b ->
       int_of_str (Re.group_str m 3) = Some c ->
       guess_date text = date_ambiguous a b c
       /\ (String.length (Re.group_str m 3) = 2%nat ->
           guess_date text
           = if (12 <? a)%Z then format_date (2000 + c) b a
             else format_date (2000 + c) a b)
       /\ ((100 <= c)%Z ->
           guess_date text
           = if (12 <? a)%Z then format_date c b a else format_date c a b).
Proof.
  do 4 (split; [vm_compute; reflexivity|]).
  intros text m a b c Ht H1 H2 Ha Hb Hc.
  assert (Hg : guess_date text = date_ambiguous a b c).
  { unfold guess_date. rewrite Ht. unfold DATE_PATTERNS in *.
    cbn [nth] in H1, H2. cbn [guess_date_from]. rewrite H1, H2.
    unfold date_of_match.
    change (Nat.eqb (Re.p_groups (Re.compile_im _)) 3) with true.
    change (startswith "\b(\d{4})"
              "\b(\d{1,2})[-/\.]([\d]{1,2})[-/\.]([\d]{2,4})\b") with false.
    change (startswith "\b(\d{1,2})"
              "\b(\d{1,2})[-/\.]([\d]{1,2})[-/\.]([\d]{2,4})\b") with true.
    cbv iota. rewrite Ha, Hb, Hc. reflexivity. }
  split; [exact Hg|split].
  - intros Hlen. rewrite Hg. unfold date_ambiguous.
    apply int_of_str_bound in Hc. rewrite Hlen in Hc.
    assert (Hlt : (c <? 100)%Z = true) by (apply Z.ltb_lt; simpl in Hc; lia).
    rewrite Hlt, (Z.add_comm c 2000). reflexivity.
  - intros Hc100. rewrite Hg. unfold date_ambiguous.
    assert (Hge : (c <? 100)%Z = false) by (apply Z.ltb_ge; lia).
    rewrite Hge. reflexivity.
Qed.

Lemma guess_date_ambiguous_numeric_witness : guess_date "1-2-99" = "2099-01-02".
Proof.
  exact (proj1 (proj2
           (proj2 (proj2 (proj2 (proj2 guess_date_ambiguous_numeric)))
              "1-2-99"
              (Re.Match "" "1-2-99" "" [(3%nat, "99"); (2%nat, "2"); (1%nat, "1")])
              1%Z 2%Z 99%Z eq_refl eq_refl eq_refl eq_refl eq_refl eq_refl))
           eq_refl).
Defined.

(** C10: the ambiguous numeric pattern is not checked against the
    calendar: "13-25-2023" gives "2023-25-13", a date whose month is 25. *)
Theorem guess_date_no_calendar_check :
  guess_date "13-25-2023" = "2023-25-13"
  /\ exists (text : string) (y mo d : Z),
       guess_date text = format_date y mo d /\ (12 < mo)%Z.
Proof.
  split; [vm_compute; reflexivity|].
  exists "13-25-2023", 2023%Z, 25%Z, 13%Z. split; [vm_compute; reflexivity|lia].
Qed.

(** * Setlist *)

Lemma filter_filter_and {A : Type} (p q : A -> bool) (l : list A) :
  List.filter p (List.filter q l) = List.filter (fun x => q x && p x) l.
Proof.
  induction l as [|x l IH]; simpl; [reflexivity|].
  destruct (q x); simpl; [destruct (p x)|]; rewrite ?IH; reflexivity.
Qed.

Lemma collect_titles_first_occurrences (candidates : list string) (seen : gset string) :
  collect_titles candidates seen
  = List.filter (fun u => negb (bool_decide (lower u ∈ seen)))
      (first_occurrences
         (flat_map (fun ln => match clean_song_title ln with
                              | Some t => if truthy t then [t] else []
                              | None => []
                              end) candidates)).
Proof.
  revert seen. induction candidates as [|ln rest IH]; intros seen; simpl.
  - reflexivity.
  - destruct (clean_song_title ln) as [t|]; [|apply IH].
    destruct (truthy t); simpl; [|apply IH].
    rewrite filter_filter_and.
    destruct (bool_decide (lower t ∈ seen)) eqn:Hseen; simpl.
    + rewrite IH. apply filter_ext. intros u.
      destruct (String.eqb_spec (lower u) (lower t)) as [->|]; simpl.
      * rewrite Hseen. reflexivity.
      * reflexivity.
    + rewrite IH. f_equal. apply filter_ext. intros u.
      destruct (String.eqb_spec (lower u) (lower t)) as [Heq|Hne]; simpl.
      * rewrite Heq. rewrite bool_decide_eq_true_2; [reflexivity|set_solver].
      * apply bool_decide_eq_false in Hseen.
        destruct (bool_decide (lower u ∈ seen)) eqn:Hu.
        -- apply bool_decide_eq_true in Hu.
           rewrite bool_decide_eq_true_2; [reflexivity|set_solver].
        -- apply bool_decide_eq_false in Hu.
           rewrite bool_decide_eq_false_2; [reflexivity|].
           rewrite elem_of_union, elem_of_singleton. tauto.
Qed.

Lemma NoDup_lower_filter (p : string -> bool) (l : list string) :
  List.NoDup (map lower l) -> List.NoDup (map lower (List.filter p l)).
Proof.
  induction l as [|x l IH]; simpl; intros Hl; [constructor|].
  inversion Hl as [|? ? Hin Hnd]; subst.
  destruct (p x); simpl; [|auto].
  constructor; [|auto].
  intros Hx. apply Hin. apply in_map_iff in Hx as (y & Hy & Hyin).
  apply in_map_iff. exists y. split; [exact Hy|].
  apply filter_In in Hyin. tauto.
Qed.

Lemma first_occurrences_NoDup (titles : list string) :
  List.NoDup (map lower (first_occurrences titles)).
Proof.
  induction titles as [|t rest IH]; simpl; constructor.
  - intros Hin. apply in_map_iff in Hin as (u & Hu & Huin).
    apply filter_In in Huin as [_ Hne].
    rewrite Hu, String.eqb_refl in Hne. discriminate.
  - apply NoDup_lower_filter, IH.
Qed.

Lemma in_firstn {A : Type} (n : nat) (l : list A) (x : A) :
  In x (firstn n l) -> In x l.
Proof.
  revert n. induction l as [|y l IH]; intros [|n]; simpl; try tauto.
  intros [->|Hin]; [left; reflexivity|right; eauto].
Qed.

Lemma NoDup_firstn {A : Type} (n : nat) (l : list A) :
  List.NoDup l -> List.NoDup (firstn n l).
Proof.
  revert n. induction l as [|x l IH]; intros [|n] Hnd; simpl; try constructor.
  - inversion Hnd; subst. intros Hin. apply in_firstn in Hin. contradiction.
  - inversion Hnd; subst. auto.
Qed.

(** C7: the entries of the setlist are pairwise different up to case, stand
    in the order of their first occurrence among the titles of the
    candidate lines, and are at most 200; "Yellow" and "yellow" give one
    entry. *)
Theorem setlist_deduplicated_ordered_capped (notes : string) :
  List.NoDup (map lower (setlist_entries notes))
  /\ setlist_entries notes = firstn 200 (first_occurrences (candidate_titles notes))
  /\ (List.length (setlist_entries notes) <= 200)%nat
  /\ extract_setlist notes
     = (if truthy notes then join "; " (setlist_entries notes) else "")
  /\ setlist_entries yellow_twice = ["Yellow"]
  /\ extract_setlist yellow_twice = "Yellow".
Proof.
  assert (Heq : setlist_entries notes
                = firstn 200 (first_occurrences (candidate_titles notes))).
  { unfold setlist_entries, candidate_titles.
    rewrite collect_titles_first_occurrences. f_equal.
    rewrite <- (filter_ext (fun _ => true)).
    - induction (first_occurrences _) as [|x l IH]; simpl; congruence.
    - intros u. rewrite bool_decide_eq_false_2; [reflexivity|set_solver]. }
  split; [|split; [exact Heq|split; [|split; [reflexivity|split]]]].
  - rewrite Heq, <- firstn_map. apply NoDup_firstn, first_occurrences_NoDup.
  - unfold setlist_entries. apply firstn_le_length.
  - vm_compute. reflexivity.
  - vm_compute. reflexivity.
Qed.

(** * Location *)

Lemma region_countries_nonempty :
  map_Forall (fun (_ : string) (v : string) => truthy v = true) REGION_TO_COUNTRY.
Proof. refine (bool_decide_unpack _ _). vm_compute. exact I. Qed.

Lemma country_names_nonempty : forallb truthy COUNTRY_NAMES = true.
Proof. vm_compute. reflexivity. Qed.

Lemma country_of_nonempty (x : string) :
  names_country x = true -> truthy (country_of x) = true.
Proof.
  unfold names_country, country_of, mem.
  destruct (existsb (String.eqb x) COUNTRY_NAMES) eqn:Hm.
  - intros _. apply existsb_exists in Hm as (y & Hy & Heq).
    apply String.eqb_eq in Heq. subst y.
    exact (proj1 (forallb_forall _ _) country_names_nonempty x Hy).
  - rewrite orb_false_l. unfold has_key, get.
    destruct (REGION_TO_COUNTRY !! upper x) as [v|] eqn:Hv; [|discriminate].
    intros _. exact (region_countries_nonempty _ _ Hv).
Qed.

(** What the stack tier returns, and where it finds it. *)
Lemma tier_stack_found (lines : list string) (loc : location) :
  tier_stack lines = Some loc ->
  exists (before : list string) (venue second third : string) (after : list string),
    lines = before ++ venue :: second :: third :: after
    /\ names_country third = true
    /\ tier_stack (before ++ [venue; second]) = None
    /\ loc = (venue, stack_city second, country_of third, "", "loc:stack").
Proof.
  induction lines as [|a lines IH]; [discriminate|].
  destruct lines as [|b [|c rest]]; try discriminate.
  cbn [tier_stack].
  destruct (names_country c) eqn:Hc.
  - intros Hloc. exists [], a, b, c, rest. repeat split; [exact Hc|].
    pose proof (country_of_nonempty c Hc) as Hne.
    unfold stack_city.
    destruct (city_region _ b) as [[city rc]|]; rewrite Hne in Hloc;
      rewrite andb_false_r in Hloc; injection Hloc as <-; reflexivity.
  - intros Hloc. destruct (IH Hloc) as (before & v & s & t & after & Hl & Ht & Hn & Hr).
    exists (a :: before), v, s, t, after. repeat split; try assumption.
    + simpl. rewrite Hl. reflexivity.
    + destruct before as [|x [|y before]];
        simpl in Hl; injection Hl as -> ->; subst.
      * cbn [app tier_stack]. rewrite Hc. exact Hn.
      * cbn [app tier_stack]. rewrite Hc. exact Hn.
      * cbn [app tier_stack] in Hn |- *. rewrite Hc. exact Hn.
Qed.



(** * Folder classifier *)

Lemma show_folder_loop_container (children : list node) (n : nat) (dv : bool) :
  (n < 2)%nat ->
  (2 <= n + List.length (List.filter (fun c => is_dir c && _child_looks_like_show c) children))%nat ->
  show_folder_loop children n dv = false.
Proof.
  revert n. induction children as [|c rest IH]; intros n Hn Hc.
  - simpl in Hc. lia.
  - simpl in Hc. cbn [show_folder_loop].
    destruct (is_dir c && _child_looks_like_show c) eqn:Hq.
    + simpl in Hc.
      destruct n as [|[|n]]; [|reflexivity|lia].
      change (2 <=? 1)%nat with false. cbv iota. apply IH; lia.
    + apply IH; lia.
Qed.

Lemma video_ts_absent_unlistable (name : string) (entries : list node) :
  _video_ts_present (Dir name false entries) = false.
Proof. reflexivity. Qed.

(** The count of child show folders does decide for a directory without
    a disc structure of its own: two of them make it not a show, whatever
    video files it holds directly, as the docstring of [is_show_folder]
    has it. *)
Lemma container_without_disc_is_no_show (folder : node) :
  _video_ts_present folder = false ->
  (2 <= child_show_dirs folder)%nat ->
  is_show_folder folder = false.
Proof.
  intros Hv Hc. unfold is_show_folder. rewrite Hv.
  destruct folder as [name data r | name [] entries]; simpl in *.
  - reflexivity.
  - apply show_folder_loop_container; [lia|]. exact Hc.
  - reflexivity.
Qed.

(** C2: the test for a disc structure returns before the child show
    folders are counted.  A directory with two child show folders that
    also holds a qualifying disc structure is classified as a show; the
    scan then records the directory and never looks into the two
    folders. *)
Theorem container_with_disc_is_show :
  (2 <= child_show_dirs disc_with_two_shows)%nat
  /\ _video_ts_present disc_with_two_shows = true
  /\ is_show_folder disc_with_two_shows = true
  /\ ~ container_rule_as_stated disc_with_two_shows
  /\ exists rs,
       scan_roots (example_run ["/box"]) (one_root "/box" disc_with_two_shows)
       = Ok rs
       /\ map FolderPath rs = ["/box"].
Proof.
  assert (Hshow : is_show_folder disc_with_two_shows = true)
    by (vm_compute; reflexivity).
  assert (Hcount : (2 <= child_show_dirs disc_with_two_shows)%nat)
    by (vm_compute; lia).
  split; [exact Hcount|]. split; [vm_compute; reflexivity|].
  split; [exact Hshow|]. split.
  - intros H. rewrite (H Hcount) in Hshow. discriminate.
  - eexists. split; vm_compute; reflexivity.
Qed.

(** * Media descriptor of a disc *)

Lemma keep_first_or (current found : string) :
  keep_first current found = if truthy current then current else found.
Proof.
  unfold keep_first. destruct (truthy current) eqn:Hc; simpl; [reflexivity|].
  destruct (truthy found) eqn:Hf; [reflexivity|].
  rewrite (truthy_empty _ Hc), (truthy_empty _ Hf). reflexivity.
Qed.

Lemma first_non_empty_cons (v : string) (values : list string) :
  first_non_empty (v :: values)
  = if truthy v then v else first_non_empty values.
Proof. unfold first_non_empty. simpl. destruct (truthy v); reflexivity. Qed.

(** What the loop over the segments leaves in a field that keeps its first
    non-empty value. *)
Lemma merge_field (f : media_info -> string) (infos : list media_info)
                  (m : media_info) (total : Z) :
  (forall m0 d0 info,
      f (fst (merge_segment (m0, d0) info)) = keep_first (f m0) (f info)) ->
  f (fst (fold_left merge_segment infos (m, total)))
  = if truthy (f m) then f m else first_non_empty (map f infos).
Proof.
  intros Hf. revert m total.
  induction infos as [|info infos IH]; intros m total.
  - simpl. destruct (truthy (f m)) eqn:H; [reflexivity|]. apply truthy_empty, H.
  - cbn [fold_left map].
    destruct (merge_segment (m, total) info) as [m1 d1] eqn:Hm.
    rewrite IH. pose proof (Hf m total info) as H1. rewrite Hm in H1. simpl in H1.
    rewrite H1, keep_first_or, first_non_empty_cons.
    destruct (truthy (f m)) eqn:Hfm; [rewrite Hfm; reflexivity|].
    destruct (truthy (f info)); reflexivity.
Qed.

Lemma merge_duration (infos : list media_info) (m : media_info) (total : Z) :
  duration_sec (fst (fold_left merge_segment infos (m, total))) = duration_sec m
  /\ snd (fold_left merge_segment infos (m, total)) = (total + total_duration infos)%Z.
Proof.
  revert m total. induction infos as [|info infos IH]; intros m total.
  - simpl. split; [reflexivity|]. unfold total_duration. simpl. lia.
  - cbn [fold_left].
    destruct (IH (fst (merge_segment (m, total) info))
                 (snd (merge_segment (m, total) info))) as [H1 H2].
    rewrite <- surjective_pairing in H1, H2. rewrite H1, H2.
    split; [reflexivity|].
    unfold total_duration, duration_value. simpl.
    destruct (truthy (duration_sec info)); [destruct (int_of_str _)|]; lia.
Qed.

Lemma insert_by_sorted (x : located) (files : list located) :
  in_segment_order files ->
  in_segment_order
    (insert_by (fun p q => (segment_index p <=? segment_index q)%Z) x files).
Proof.
  unfold in_segment_order.
  induction files as [|y files IH]; intros Hs; simpl.
  - repeat constructor.
  - destruct (Z.leb_spec (segment_index x) (segment_index y)).
    + constructor; [exact Hs|]. constructor. assumption.
    + inversion Hs as [|? ? Hs' Hhd]; subst.
      constructor; [apply IH, Hs'|].
      destruct files as [|z files]; simpl.
      * constructor. lia.
      * destruct (Z.leb_spec (segment_index x) (segment_index z));
          constructor; [lia|]. inversion Hhd; subst. assumption.
Qed.

Lemma sorted_by_sorted (files : list located) :
  in_segment_order
    (sorted_by (fun p q => (segment_index p <=? segment_index q)%Z) files).
Proof.
  induction files as [|x files IH]; simpl.
  - constructor.
  - apply insert_by_sorted, IH.
Qed.

Lemma best_group_sorted (groups : list (string * list located))
                        (best : list located) (best_total : Z) :
  in_segment_order best -> in_segment_order (best_group groups best best_total).
Proof.
  revert best best_total.
  induction groups as [|[k files] groups IH]; intros best best_total Hb; simpl.
  - exact Hb.
  - destruct (_ <? _)%Z; apply IH; [apply sorted_by_sorted|exact Hb].
Qed.

Lemma dvd_group_segments_sorted (folder : node) (files : list located) :
  dvd_group_segments folder = Ok files -> in_segment_order files.
Proof.
  unfold dvd_group_segments.
  destruct (find _ _) as [[rel vts]|]; [|intros [= <-]; constructor].
  destruct (iterdir vts); [|discriminate].
  intros [= <-]. apply best_group_sorted. constructor.
Qed.

(** C8: for a disc of several segments the scan merges the descriptors of
    the segments, which stand in the order of their index: every field but
    the duration takes its first non-empty value, the duration is the sum
    of the durations of the segments. *)
Theorem disc_descriptor_merged
    (cfg : run) (fpath : string) (folder : node) (rep_files : list located) :
  no_media cfg = false ->
  representative_media folder = Ok (rep_files, ".vob") ->
  (1 < List.length rep_files)%nat ->
  let infos :=
    map (fun seg => parse_media_info (tools cfg) (path_below fpath (fst seg))
                                     (header_only cfg))
        rep_files in
  let m := probe_media cfg fpath rep_files ".vob" in
  in_segment_order rep_files
  /\ video_codec m = first_non_empty (map video_codec infos)
  /\ width m = first_non_empty (map width infos)
  /\ height m = first_non_empty (map height infos)
  /\ dar m = first_non_empty (map dar infos)
  /\ sar m = first_non_empty (map sar infos)
  /\ fps m = first_non_empty (map fps infos)
  /\ audio_codec m = first_non_empty (map audio_codec infos)
  /\ audio_channels m = first_non_empty (map audio_channels infos)
  /\ audio_sample_rate m = first_non_empty (map audio_sample_rate infos)
  /\ duration_value (duration_sec m) = total_duration infos
  /\ duration_sec m
     = (if (total_duration infos =? 0)%Z then ""
        else str_of_Z (total_duration infos)).
Proof.
  intros Hmedia Hrep Hlen infos m.
  assert (Hm : m = merge_segments infos).
  { subst m infos. unfold probe_media.
    destruct rep_files as [|first rest]; [simpl in Hlen; lia|].
    rewrite Hmedia. simpl negb. cbv iota.
    destruct (1 <? List.length (first :: rest))%nat eqn:Hl;
      [reflexivity|apply Nat.ltb_ge in Hl; lia]. }
  split.
  { unfold representative_media in Hrep.
    destruct (dvd_group_segments folder) as [[|v vs]|] eqn:Hd; try discriminate.
    - destruct (largest_video _ _ _); [|discriminate].
      injection Hrep as <- _. simpl in Hlen. lia.
    - injection Hrep as <-. eapply dvd_group_segments_sorted, Hd. }
  rewrite Hm. unfold merge_segments.
  destruct (fold_left merge_segment infos (empty_media_info, 0%Z)) as [m1 d1] eqn:Hfold.
  pose proof (merge_duration infos empty_media_info 0) as [Hdur Htot].
  rewrite Hfold in Hdur, Htot. simpl in Hdur, Htot.
  assert (Hfield : forall f : media_info -> string,
             (forall m0 d0 info,
                 f (fst (merge_segment (m0, d0) info)) = keep_first (f m0) (f info)) ->
             f empty_media_info = "" ->
             f m1 = first_non_empty (map f infos)).
  { intros f Hf He.
    pose proof (merge_field f infos empty_media_info 0 Hf) as H.
    rewrite Hfold, He in H. exact H. }
  assert (Hset : forall d, video_codec (set_duration m1 d) = video_codec m1
                           /\ width (set_duration m1 d) = width m1
                           /\ height (set_duration m1 d) = height m1
                           /\ dar (set_duration m1 d) = dar m1
                           /\ sar (set_duration m1 d) = sar m1
                           /\ fps (set_duration m1 d) = fps m1
                           /\ audio_codec (set_duration m1 d) = audio_codec m1
                           /\ audio_channels (set_duration m1 d) = audio_channels m1
                           /\ audio_sample_rate (set_duration m1 d) = audio_sample_rate m1
                           /\ duration_sec (set_duration m1 d) = d).
  { intros d. repeat split. }
  assert (Hd1 : d1 = total_duration infos) by lia.
  rewrite <- Hd1.
  destruct (Z.eqb_spec d1 0) as [Hz|Hnz].
  - repeat split; try (apply Hfield; [reflexivity|reflexivity]).
    + rewrite Hdur, Hz. reflexivity.
    + exact Hdur.
  - destruct (Hset (str_of_Z d1)) as (-> & -> & -> & -> & -> & -> & -> & -> & -> & ->).
    repeat split; try (apply Hfield; [reflexivity|reflexivity]).
    unfold duration_value. rewrite int_of_str_of_Z.
    destruct (truthy (str_of_Z d1)) eqn:Ht; [reflexivity|].
    apply truthy_empty in Ht. pose proof (int_of_str_of_Z d1) as Hi.
    rewrite Ht in Hi. discriminate.
Qed.

Lemma disc_descriptor_merged_witness :
  let rep := [(["VIDEO_TS"; "VTS_01_1.VOB"], File "VTS_01_1.VOB" "ab" true);
              (["VIDEO_TS"; "VTS_01_2.VOB"], File "VTS_01_2.VOB" "cd" true)] in
  representative_media two_segment_disc = Ok (rep, ".vob")
  /\ in_segment_order rep.
Proof.
  intros rep. split; [vm_compute; reflexivity|].
  apply (disc_descriptor_merged
           (Run example_host ["/show"] false false false false)
           "/show" two_segment_disc rep);
    [reflexivity|vm_compute; reflexivity|simpl; lia].
Defined.

(** * The walk *)

Section Walk.

Context (cfg : run).

(** Induction on a tree: a directory has the property when its entries do. *)
Lemma node_tree_ind (P : node -> Prop) :
  (forall name data readable, P (File name data readable)) ->
  (forall name listable entries, Forall P entries -> P (Dir name listable entries)) ->
  forall n, P n.
Proof.
  intros Hfile Hdir.
  fix IH 1. intros [name data readable | name listable entries].
  - apply Hfile.
  - apply Hdir. induction entries as [|e entries IHe]; constructor.
    + apply IH.
    + exact IHe.
Qed.

Lemma walk_dir (top name : string) (entries : list node) (st : scan_state) :
  walk cfg top (Dir name true entries) st
  = if console_accepts (tools cfg) ("Scanning: " +:+ top) then
      if snd (visit cfg top (Dir name true entries) st)
      then walk_dirs cfg top entries (fst (visit cfg top (Dir name true entries) st))
      else Ok (fst (visit cfg top (Dir name true entries) st))
    else Raise UnicodeEncodeError.
Proof.
  cbn [walk]. destruct (console_accepts (tools cfg) _); [|reflexivity].
  destruct (visit cfg top (Dir name true entries) st) as [st' [|]]; [|reflexivity].
  cbn [fst snd].
  generalize st'. induction entries as [|c rest IH]; intros s; [reflexivity|].
  cbn [walk_dirs]. destruct (is_dir c); [|apply IH].
  destruct (walk cfg (path_join top (node_name c)) c s); [apply IH|reflexivity].
Qed.

Lemma walk_dirs_app (top : string) (before after : list node) (st : scan_state) :
  walk_dirs cfg top (before ++ after) st
  = match walk_dirs cfg top before st with
    | Ok st' => walk_dirs cfg top after st'
    | Raise e => Raise e
    end.
Proof.
  revert st. induction before as [|c rest IH]; intros st; [reflexivity|].
  cbn [app walk_dirs]. destruct (is_dir c); [|apply IH].
  destruct (walk cfg (path_join top (node_name c)) c st); [apply IH|reflexivity].
Qed.

Lemma walk_dirs_cons (top : string) (c : node) (rest : list node) (st : scan_state) :
  walk_dirs cfg top (c :: rest) st
  = if is_dir c then
      match walk cfg (path_join top (node_name c)) c st with
      | Ok st' => walk_dirs cfg top rest st'
      | Raise e => Raise e
      end
    else walk_dirs cfg top rest st.
Proof. reflexivity. Qed.

Lemma found_at_child (root : string) (d0 : node) (top name : string)
                     (entries : list node) (c : node) :
  found_at root d0 top (Dir name true entries) ->
  In c entries -> is_dir c = true ->
  found_at root d0 (path_join top (node_name c)) c.
Proof.
  intros Hfound Hin Hdir.
  remember (Dir name true entries) as d eqn:Hd.
  induction Hfound as [top d|top name' entries' c' fpath folder Hin' Hdir' Hbelow IH].
  - subst d. eapply found_below; [exact Hin|exact Hdir|apply found_here].
  - eapply found_below; [exact Hin'|exact Hdir'|apply IH, Hd].
Qed.

(** What every visit of a directory found below [d0] keeps, the walk from
    [d0] keeps, when it comes to its end. *)
Lemma walk_keeps_below (P : scan_state -> Prop) (root : string) (d0 : node) :
  (forall fpath folder st,
      found_at root d0 fpath folder -> P st -> P (fst (visit cfg fpath folder st))) ->
  forall d top st st',
    found_at root d0 top d -> P st -> walk cfg top d st = Ok st' -> P st'.
Proof.
  intros Hvisit d. induction d as [name data readable | name listable entries IH]
    using node_tree_ind; intros top st st' Hfound Hst Hwalk.
  - injection Hwalk as <-. exact Hst.
  - destruct listable; [|injection Hwalk as <-; exact Hst].
    rewrite walk_dir in Hwalk.
    destruct (console_accepts (tools cfg) _); [|discriminate].
    pose proof (Hvisit top (Dir name true entries) st Hfound Hst) as Hv.
    destruct (snd (visit cfg top (Dir name true entries) st));
      [|injection Hwalk as <-; exact Hv].
    assert (Hchildren : forall c, In c entries -> is_dir c = true ->
                                  found_at root d0 (path_join top (node_name c)) c).
    { intros c Hin Hdir. exact (found_at_child _ _ _ _ _ _ Hfound Hin Hdir). }
    clear Hfound.
    revert Hv Hwalk. generalize (fst (visit cfg top (Dir name true entries) st)).
    induction IH as [|c rest Hc _ IHrest]; intros s Hs Hwalk.
    + injection Hwalk as <-. exact Hs.
    + rewrite walk_dirs_cons in Hwalk.
      assert (Hrest : forall c', In c' rest -> is_dir c' = true ->
                                 found_at root d0 (path_join top (node_name c')) c')
        by (intros c' Hin; apply Hchildren; right; exact Hin).
      destruct (is_dir c) eqn:Hdir; [|exact (IHrest Hrest s Hs Hwalk)].
      destruct (walk cfg (path_join top (node_name c)) c s) as [s'|e] eqn:Hw;
        [|discriminate].
      apply (IHrest Hrest s'); [|exact Hwalk].
      exact (Hc _ _ _ (Hchildren c (or_introl eq_refl) Hdir) Hs Hw).
Qed.

Lemma walk_keeps (P : scan_state -> Prop) :
  (forall fpath folder st, P st -> P (fst (visit cfg fpath folder st))) ->
  forall d top st st', P st -> walk cfg top d st = Ok st' -> P st'.
Proof.
  intros Hvisit d top st st' Hst Hwalk.
  apply (walk_keeps_below P top d (fun fpath folder s _ => Hvisit fpath folder s)
                          d top st st'); [apply found_here|exact Hst|exact Hwalk].
Qed.

Lemma walk_dirs_keeps (P : scan_state -> Prop) :
  (forall fpath folder st, P st -> P (fst (visit cfg fpath folder st))) ->
  forall children top st st', P st -> walk_dirs cfg top children st = Ok st' -> P st'.
Proof.
  intros Hvisit children top.
  induction children as [|c rest IH]; intros st st' Hst Hwalk.
  - injection Hwalk as <-. exact Hst.
  - rewrite walk_dirs_cons in Hwalk.
    destruct (is_dir c); [|exact (IH _ _ Hst Hwalk)].
    destruct (walk cfg (path_join top (node_name c)) c st) as [s|e] eqn:Hw;
      [|discriminate].
    apply (IH s); [|exact Hwalk]. exact (walk_keeps P Hvisit _ _ _ _ Hst Hw).
Qed.

(** What every visit of a directory found below a root keeps, the loop
    over the roots keeps. *)
Lemma scan_from_keeps_below (P : scan_state -> Prop) (fs : string -> option node) :
  forall todo,
    (forall root d fpath folder st,
        In root todo -> fs root = Some d -> found_at root d fpath folder ->
        P st -> P (fst (visit cfg fpath folder st))) ->
    forall st st', P st -> scan_from cfg fs todo st = Ok st' -> P st'.
Proof.
  induction todo as [|root todo IH]; intros Hvisit st st' Hst Hscan.
  - injection Hscan as <-. exact Hst.
  - cbn [scan_from] in Hscan.
    assert (Hrest : forall root' d fpath folder s,
               In root' todo -> fs root' = Some d -> found_at root' d fpath folder ->
               P s -> P (fst (visit cfg fpath folder s)))
      by (intros root' d fpath folder s Hin; apply Hvisit; right; exact Hin).
    destruct (fs root) as [d|] eqn:Hfs; [|exact (IH Hrest _ _ Hst Hscan)].
    destruct (do_drive_id cfg && drive_lookup_raises (tools cfg) root);
      [discriminate|].
    destruct (walk cfg root d st) as [s|e] eqn:Hw; [|discriminate].
    apply (IH Hrest s); [|exact Hscan].
    apply (walk_keeps_below P root d
             (fun fpath folder s0 Hf => Hvisit root d fpath folder s0
                                          (or_introl eq_refl) Hfs Hf)
             d root st s); [apply found_here|exact Hst|exact Hw].
Qed.

Lemma scan_from_keeps (P : scan_state -> Prop) (fs : string -> option node) :
  (forall fpath folder st, P st -> P (fst (visit cfg fpath folder st))) ->
  forall todo st st', P st -> scan_from cfg fs todo st = Ok st' -> P st'.
Proof.
  intros Hvisit todo. apply scan_from_keeps_below.
  intros root d fpath folder st _ _ _. apply Hvisit.
Qed.

(** ** Loose files *)

Lemma loose_rows_nothing (fpath : string) (loose : list node) (st : scan_state) :
  loose_rows fpath loose st = st.
Proof. revert st. induction loose as [|lf rest IH]; intros st; simpl; auto. Qed.

(** A directory that is neither excluded nor a show leaves the state as
    it was, whatever loose video files it holds, and is descended into. *)
Lemma visit_container (fpath : string) (folder : node) (st : scan_state) :
  mem (lower (path_name fpath)) _excluded = false ->
  is_show_folder folder = false ->
  visit cfg fpath folder st = (st, true).
Proof.
  intros Hex Hshow. unfold visit. rewrite Hex, Hshow. cbn [negb].
  rewrite loose_rows_nothing. reflexivity.
Qed.

(** What the row of a show folder is made of. *)
Lemma show_row_fields (fpath : string) (folder : node) (now : string)
                      (row : Row) (rep : list located) :
  show_row cfg fpath folder now = Ok (row, rep) ->
  exists container,
    representative_media folder = Ok (rep, container)
    /\ ShowID row = normalize_show_id fpath
    /\ FolderName row = path_name fpath
    /\ FolderPath row = fpath
    /\ ChecksumSHA1 row = ""
    /\ DuplicateOf row = "".
Proof.
  unfold show_row.
  destruct (collect_notes cfg fpath folder) as [notes warnings].
  destruct (parse_location notes (path_name fpath))
    as [[[[venue city] country] festival] hint].
  destruct (representative_media folder) as [[rep_files container]|e];
    [|discriminate].
  intros [= <- <-]. exists container. cbn. repeat split.
Qed.

(** What the checksum step changes, and what it leaves. *)
Lemma link_checksum_fields (row : Row) (rep : list located)
                           (known : gmap string string) :
  let r := fst (link_checksum cfg row rep known) in
  ShowID r = ShowID row /\ FolderName r = FolderName row
  /\ FolderPath r = FolderPath row
  /\ ExtractionWarnings r = ExtractionWarnings row
  /\ ChecksumSHA1 r
     = if do_checksums cfg
       then match rep with
            | [] => ChecksumSHA1 row
            | _ :: _ => sha1_of_files_in_order rep
            end
       else ChecksumSHA1 row.
Proof.
  unfold link_checksum.
  destruct rep as [|f rep']; [destruct (do_checksums cfg); cbn; tauto|].
  destruct (do_checksums cfg); [|cbn; tauto].
  destruct (truthy _); [destruct (known !! _)|]; cbn; tauto.
Qed.

(** A show folder whose path can be encoded gets one more row at every
    visit, whether its identifier was seen before or not, and is not
    descended into. *)
Lemma visit_show_folder (fpath : string) (folder : node) (st : scan_state) :
  mem (lower (path_name fpath)) _excluded = false ->
  is_show_folder folder = true ->
  encodable fpath = true ->
  exists row,
    rows (fst (visit cfg fpath folder st)) = rows st ++ [row]
    /\ ShowID row = normalize_show_id fpath
    /\ snd (visit cfg fpath folder st) = false.
Proof.
  intros Hex Hshow Henc. unfold visit, on_error, checked_show_id.
  rewrite Hex, Hshow, Henc. cbn [negb].
  destruct (show_row cfg fpath folder _) as [[row rep]|e] eqn:Hrow; cbn [fst snd rows].
  - eexists. split; [reflexivity|split; [|reflexivity]].
    destruct (show_row_fields _ _ _ _ _ Hrow) as (container & _ & Hid & _).
    destruct (link_checksum_fields row rep (checksum_to_showid st)) as (Hid' & _).
    cbv zeta in Hid'. rewrite Hid'. exact Hid.
  - eexists. split; [reflexivity|split; reflexivity].
Qed.

(** ** Rows are only appended *)

Lemma visit_appends (fpath : string) (folder : node) (st : scan_state) :
  exists more, rows (fst (visit cfg fpath folder st)) = rows st ++ more.
Proof.
  assert (Herr : forall s, exists more, rows (on_error cfg fpath s) = rows s ++ more).
  { intros s. unfold on_error. destruct (checked_show_id fpath); cbn [rows]; eauto.
    exists []. rewrite app_nil_r. reflexivity. }
  unfold visit.
  destruct (mem _ _); [exists []; rewrite app_nil_r; reflexivity|].
  destruct (negb _).
  - cbn [fst]. rewrite loose_rows_nothing. exists []. rewrite app_nil_r. reflexivity.
  - destruct (checked_show_id fpath); [|cbn [fst]; apply Herr].
    destruct (show_row _ _ _ _) as [[row rep]|e]; cbn [fst rows]; [eauto|].
    destruct (Herr (ScanState (rows st) ({[a]} ∪ seen_ids st) (checksum_to_showid st)
                              (clock st))) as [more Hm].
    exists more. exact Hm.
Qed.

Lemma walk_dirs_appends (top : string) (children : list node) (st st' : scan_state) :
  walk_dirs cfg top children st = Ok st' ->
  exists more, rows st' = rows st ++ more.
Proof.
  apply (walk_dirs_keeps (fun s => exists more, rows s = rows st ++ more)).
  - intros fpath folder s [more Hs].
    destruct (visit_appends fpath folder s) as [more' Hv].
    exists (more ++ more'). rewrite Hv, Hs, app_assoc. reflexivity.
  - exists []. rewrite app_nil_r. reflexivity.
Qed.

End Walk.

(** * Checksums and duplicates *)

Lemma first_with_checksum_snoc (ch : string) (rs : list Row) (r : Row) :
  first_with_checksum ch (rs ++ [r])
  = match first_with_checksum ch rs with
    | Some f => Some f
    | None => if String.eqb (ChecksumSHA1 r) ch then Some r else None
    end.
Proof.
  unfold first_with_checksum.
  induction rs as [|x rs IH]; simpl; [reflexivity|].
  destruct (String.eqb (ChecksumSHA1 x) ch); [reflexivity|exact IH].
Qed.

Lemma linked_to_first_snoc (rs : list Row) (r : Row) :
  linked_to_first rs ->
  (truthy (ChecksumSHA1 r) = true ->
   DuplicateOf r = match first_with_checksum (ChecksumSHA1 r) rs with
                   | Some f => ShowID f
                   | None => ""
                   end) ->
  linked_to_first (rs ++ [r]).
Proof.
  intros Hrs Hr j r0 Hnth Hch.
  destruct (Nat.lt_total j (List.length rs)) as [Hlt|[Heq|Hgt]].
  - rewrite nth_error_app1 in Hnth by exact Hlt.
    rewrite firstn_app.
    replace (j - List.length rs)%nat with 0%nat by lia.
    rewrite firstn_O, app_nil_r. apply Hrs; assumption.
  - subst j. rewrite nth_error_app2, Nat.sub_diag in Hnth by lia.
    injection Hnth as <-.
    rewrite firstn_app, Nat.sub_diag, firstn_O, app_nil_r, firstn_all.
    apply Hr, Hch.
  - rewrite nth_error_app2 in Hnth by lia.
    destruct (j - List.length rs)%nat as [|[|k]] eqn:E; simpl in Hnth;
      [lia|discriminate|discriminate].
Qed.

Lemma show_row_no_checksum (cfg : run) (fpath : string) (folder : node) (now : string)
                           (row : Row) (rep : list located) :
  show_row cfg fpath folder now = Ok (row, rep) ->
  ChecksumSHA1 row = "" /\ DuplicateOf row = "".
Proof.
  unfold show_row.
  destruct (collect_notes cfg fpath folder) as [notes warnings].
  destruct (parse_location notes (path_name fpath)) as [[[[venue city] country] festival] hint].
  destruct (representative_media folder) as [[rep_files container]|e]; [|discriminate].
  intros [= <- _]. split; reflexivity.
Qed.

Lemma recorded_snoc_plain (st : scan_state) (r : Row) (seen : gset string) (n : nat) :
  checksums_recorded st ->
  ChecksumSHA1 r = "" ->
  checksums_recorded (ScanState (rows st ++ [r]) seen (checksum_to_showid st) n).
Proof.
  intros [Hl Hm] Hr. split; cbn [rows checksum_to_showid].
  - apply linked_to_first_snoc; [exact Hl|]. rewrite Hr. discriminate.
  - intros ch. rewrite Hm, first_with_checksum_snoc.
    destruct (truthy ch) eqn:Hch; [|reflexivity].
    destruct (first_with_checksum ch (rows st)); [reflexivity|].
    rewrite Hr. destruct ch; [discriminate|reflexivity].
Qed.

Lemma on_error_keeps_recorded (cfg : run) (fpath : string) (st : scan_state)
                              (seen : gset string) :
  checksums_recorded st ->
  checksums_recorded
    (on_error cfg fpath (ScanState (rows st) seen (checksum_to_showid st) (clock st))).
Proof.
  intros Hst. unfold on_error.
  destruct (checked_show_id fpath); [|exact Hst].
  cbn [rows seen_ids checksum_to_showid clock].
  apply recorded_snoc_plain; [exact Hst|reflexivity].
Qed.

Lemma visit_keeps_recorded (cfg : run) (fpath : string) (folder : node)
                           (st : scan_state) :
  checksums_recorded st -> checksums_recorded (fst (visit cfg fpath folder st)).
Proof.
  intros Hst. unfold visit.
  destruct (mem _ _); [exact Hst|].
  destruct (negb _); [cbn [fst]; rewrite loose_rows_nothing; exact Hst|].
  destruct (checked_show_id fpath) as [show_id|e0] eqn:Hid; cbn [fst].
  2:{ unfold on_error. rewrite Hid. exact Hst. }
  destruct (show_row cfg fpath folder _) as [[row rep]|e] eqn:Hrow; cbn [fst].
  - destruct (show_row_no_checksum _ _ _ _ _ _ Hrow) as [Hc Hd].
    unfold link_checksum.
    destruct rep as [|f rep']; [apply recorded_snoc_plain; assumption|].
    destruct (do_checksums cfg); [|apply recorded_snoc_plain; assumption].
    set (ch := sha1_of_files_in_order (f :: rep')).
    destruct (truthy ch) eqn:Hch; cbn [fst snd];
      [|apply recorded_snoc_plain; [assumption|];
        apply truthy_empty in Hch; rewrite Hch; reflexivity].
    destruct Hst as [Hl Hm].
    pose proof (Hm ch) as Hmch. rewrite Hch in Hmch.
    destruct (checksum_to_showid st !! ch) as [first_id|] eqn:Hk; cbn [fst snd].
    + split; cbn [rows checksum_to_showid].
      * apply linked_to_first_snoc; [exact Hl|]. cbn. intros _.
        destruct (first_with_checksum ch (rows st)); congruence.
      * intros c. rewrite Hm, first_with_checksum_snoc.
        destruct (truthy c) eqn:Hc'; [|reflexivity].
        destruct (first_with_checksum c (rows st)) eqn:Hf; [reflexivity|].
        cbn. destruct (String.eqb_spec ch c) as [->|]; [|reflexivity].
        rewrite Hf in Hmch. discriminate.
    + split; cbn [rows checksum_to_showid].
      * apply linked_to_first_snoc; [exact Hl|]. cbn. intros _.
        destruct (first_with_checksum ch (rows st)); [discriminate|reflexivity].
      * intros c. rewrite first_with_checksum_snoc. cbn.
        destruct (String.eqb_spec ch c) as [<-|Hne].
        -- rewrite lookup_insert_eq, Hch.
           destruct (first_with_checksum ch (rows st)); [discriminate|reflexivity].
        -- rewrite lookup_insert_ne by exact Hne. rewrite Hm.
           destruct (truthy c); [|reflexivity].
           destruct (first_with_checksum c (rows st)); reflexivity.
  - apply on_error_keeps_recorded. exact Hst.
Qed.

Lemma initial_state_recorded : checksums_recorded initial_state.
Proof.
  split; cbn.
  - intros [|j] r H; discriminate.
  - intros ch. rewrite lookup_empty. destruct (truthy ch); reflexivity.
Qed.

(** The row a visit appends for a show folder is the row of that folder,
    with the checksum of its representative files; the row appended when
    the work raised is a stub. *)
Lemma visit_keeps_origin (cfg : run) (fs : string -> option node)
                         (root : string) (d : node) (fpath : string) (folder : node)
                         (st : scan_state) :
  In root (roots cfg) -> fs root = Some d -> found_at root d fpath folder ->
  Forall (fun r => is_stub r \/ exists folder rep, row_of_folder cfg fs r folder rep)
         (rows st) ->
  Forall (fun r => is_stub r \/ exists folder rep, row_of_folder cfg fs r folder rep)
         (rows (fst (visit cfg fpath folder st))).
Proof.
  intros Hroot Hfs Hfound Hst.
  assert (Herr : forall seen,
             Forall (fun r => is_stub r
                              \/ exists folder rep, row_of_folder cfg fs r folder rep)
                    (rows (on_error cfg fpath
                             (ScanState (rows st) seen (checksum_to_showid st)
                                        (clock st))))).
  { intros seen. unfold on_error. destruct (checked_show_id fpath); [|exact Hst].
    cbn [rows]. apply Forall_app. split; [exact Hst|].
    constructor; [|constructor]. left. repeat split. }
  unfold visit.
  destruct (mem _ _); [exact Hst|].
  destruct (is_show_folder folder) eqn:Hshow; cbn [negb];
    [|cbn [fst]; rewrite loose_rows_nothing; exact Hst].
  destruct (checked_show_id fpath) as [show_id|e0] eqn:Hid; cbn [fst].
  2:{ unfold on_error. rewrite Hid. exact Hst. }
  destruct (show_row cfg fpath folder _) as [[row rep]|e] eqn:Hrow; cbn [fst rows];
    [|apply Herr].
  apply Forall_app. split; [exact Hst|]. constructor; [|constructor].
  right. exists folder, rep.
  destruct (show_row_fields _ _ _ _ _ _ Hrow)
    as (container & Hrep & Hsid & _ & Hpath & Hc & _).
  destruct (link_checksum_fields cfg row rep (checksum_to_showid st))
    as (Hsid' & _ & Hpath' & _ & Hc').
  cbv zeta in Hsid', Hpath', Hc'.
  split; [|split; [exact Hshow|split]].
  - exists root, d, container. rewrite Hpath', Hpath. auto.
  - rewrite Hsid', Hpath', Hpath. exact Hsid.
  - rewrite Hc'. unfold checksum_for.
    destruct (do_checksums cfg); [|exact Hc]. destruct rep; [exact Hc|reflexivity].
Qed.


(** The rows of the three copies, by identifier, checksum and reference. *)
Lemma three_copies_rows :
  exists rs,
    scan_rows (example_run ["/m"]) (one_root "/m" three_copies) = Ok rs
    /\ map (fun r => (ShowID r, ChecksumSHA1 r, DuplicateOf r)) rs
       = [("6a814087437c", "a9993e364706816aba3e25717850c26c9cd0d89d", "");
          ("d55d5269d4a7", "a9993e364706816aba3e25717850c26c9cd0d89d", "6a814087437c");
          ("52c0a758ba2d", "a9993e364706816aba3e25717850c26c9cd0d89d", "6a814087437c")].
Proof. eexists. split; vm_compute; reflexivity. Qed.

(** C4, as stated, fails: of three show folders with the same bytes the
    third names the first, not the second, and the second, the earlier of
    the last two, has a reference of its own. *)
Lemma third_copy_not_linked_to_second :
  exists rs,
    scan_rows (example_run ["/m"]) (one_root "/m" three_copies) = Ok rs
    /\ ~ linked_in_pairs rs.
Proof.
  destruct three_copies_rows as (rs & Hrs & E).
  exists rs. split; [exact Hrs|]. clear Hrs. intros H.
  destruct rs as [|rA [|rB [|rC rest]]]; try discriminate E.
  injection E as _ _ _ HidB HchB HdupB _ HchC _ _.
  destruct (H 1%nat 2%nat rB rC) as [_ Hempty];
    [lia|reflexivity|reflexivity|rewrite HchB; reflexivity|congruence|].
  rewrite HdupB in Hempty. discriminate.
Qed.

(** C4, amended: in a run that comes to its end, every row but a stub is
    the row of a show folder of the run and carries, with checksums
    enabled, the checksum of the representative files of that folder, so
    that show rows whose representative files are not empty and read the
    same bytes get the same checksum; a row with a checksum names in
    DuplicateOf the first row emitted before it with that checksum, and
    the first row with a checksum has an empty DuplicateOf. *)
Theorem duplicates_linked_to_first
    (cfg : run) (fs : string -> option node) (rs : list Row) :
  scan_rows cfg fs = Ok rs ->
  Forall (fun r => is_stub r \/ exists folder rep, row_of_folder cfg fs r folder rep) rs
  /\ linked_to_first rs
  /\ (forall (j : nat) (r : Row),
        nth_error rs j = Some r ->
        truthy (ChecksumSHA1 r) = true ->
        first_with_checksum (ChecksumSHA1 r) (firstn j rs) = None ->
        DuplicateOf r = "")
  /\ (forall (r1 r2 : Row) (folder1 folder2 : node) (rep1 rep2 : list located),
        do_checksums cfg = true ->
        In r1 rs -> In r2 rs ->
        row_of_folder cfg fs r1 folder1 rep1 ->
        row_of_folder cfg fs r2 folder2 rep2 ->
        rep1 <> [] -> rep2 <> [] ->
        read_in_order rep1 = read_in_order rep2 ->
        ChecksumSHA1 r1 = ChecksumSHA1 r2
        /\ ChecksumSHA1 r1 = match read_in_order rep1 with
                             | Some bytes => Sha1.hexdigest bytes
                             | None => ""
                             end).
Proof.
  unfold scan_rows.
  destruct (scan_from cfg fs (roots cfg) initial_state) as [st|e] eqn:Hscan;
    [|discriminate].
  intros [= <-].
  assert (Hinv : checksums_recorded st
                 /\ Forall (fun r => is_stub r
                                     \/ exists folder rep,
                                          row_of_folder cfg fs r folder rep)
                           (rows st)).
  { apply (scan_from_keeps_below cfg
             (fun s => checksums_recorded s
                       /\ Forall (fun r => is_stub r
                                           \/ exists folder rep,
                                                row_of_folder cfg fs r folder rep)
                                 (rows s))
             fs (roots cfg)) with (st := initial_state); [| |exact Hscan].
    - intros root d fpath folder s Hroot Hfs Hfound [Hrec Horigin]. split.
      + apply visit_keeps_recorded, Hrec.
      + exact (visit_keeps_origin cfg fs root d fpath folder s Hroot Hfs Hfound Horigin).
    - split; [apply initial_state_recorded|constructor]. }
  destruct Hinv as [[Hlinked _] Horigin].
  split; [exact Horigin|split; [exact Hlinked|split]].
  - intros j r Hj Hch Hfirst. rewrite (Hlinked j r Hj Hch), Hfirst. reflexivity.
  - intros r1 r2 folder1 folder2 rep1 rep2 Hdo _ _ (_ & _ & _ & H1) (_ & _ & _ & H2)
           Hn1 Hn2 Hread.
    rewrite H1, H2. unfold checksum_for. rewrite Hdo.
    destruct rep1 as [|f1 rep1']; [contradiction|].
    destruct rep2 as [|f2 rep2']; [contradiction|].
    unfold sha1_of_files_in_order. rewrite Hread. split; reflexivity.
Qed.

Lemma duplicates_linked_to_first_witness :
  exists rs,
    scan_rows (example_run ["/m"]) (one_root "/m" three_copies) = Ok rs
    /\ Forall (fun r => is_stub r
                        \/ exists folder rep,
                             row_of_folder (example_run ["/m"])
                                           (one_root "/m" three_copies) r folder rep)
              rs
    /\ linked_to_first rs.
Proof.
  destruct (scan_rows (example_run ["/m"]) (one_root "/m" three_copies))
    as [rs|e] eqn:Hrs.
  - exists rs. split; [reflexivity|].
    destruct (duplicates_linked_to_first (example_run ["/m"])
                (one_root "/m" three_copies) rs Hrs) as (Horigin & Hlinked & _).
    split; [exact Horigin|exact Hlinked].
  - vm_compute in Hrs. discriminate.
Defined.

(** * A folder that raises *)

(** C9, as stated, fails: the identifier of a show folder whose name holds
    a byte that is not UTF-8 cannot be computed; the exception is caught,
    but building the stub row raises in its turn, which is passed over,
    and the folder gets no row at all. *)
Lemma undecodable_folder_gets_no_stub_row :
  ~ stub_rule_as_stated (example_run ["/m"])
      (path_join "/m" (node_name undecodable_show)) undecodable_show initial_state.
Proof.
  intros H.
  destruct H as (st' & stub & Hwalk & Hin & _).
  - vm_compute. reflexivity.
  - vm_compute. reflexivity.
  - left. exists UnicodeEncodeError. vm_compute. reflexivity.
  - vm_compute in Hwalk. injection Hwalk as <-. destruct Hin.
Qed.

(** C9, amended: when the work on a show folder raises after the line of
    the folder was printed, the exception does not leave the folder and
    the folder is not descended into.  When the text of its path can be
    encoded, a stub row with the folder's identifier, its name and the
    warning is appended; when it cannot, nothing is appended.  In both
    cases the walk goes on with the siblings that follow. *)
Theorem folder_error_gives_stub_row
    (cfg : run) (top : string) (before after : list node) (c : node)
    (st st1 : scan_state) :
  let fpath := path_join top (node_name c) in
  let stub := stub_row fpath (now_iso (tools cfg) (clock st1)) in
  let st2 :=
    if encodable fpath
    then ScanState (rows st1 ++ [stub]) ({[normalize_show_id fpath]} ∪ seen_ids st1)
                   (checksum_to_showid st1) (S (clock st1))
    else st1 in
  walk_dirs cfg top before st = Ok st1 ->
  console_accepts (tools cfg) ("Scanning: " +:+ fpath) = true ->
  mem (lower (path_name fpath)) _excluded = false ->
  is_show_folder c = true ->
  work_raises cfg fpath c st1 ->
  walk cfg fpath c st1 = Ok st2
  /\ walk_dirs cfg top (before ++ c :: after) st = walk_dirs cfg top after st2
  /\ (forall st', walk_dirs cfg top (before ++ c :: after) st = Ok st' ->
                  exists more, rows st' = rows st2 ++ more)
  /\ (encodable fpath = true ->
      rows st2 = rows st1 ++ [stub]
      /\ ShowID stub = normalize_show_id fpath
      /\ FolderName stub = path_name fpath
      /\ ExtractionWarnings stub = "Unhandled error while scanning this folder")
  /\ (encodable fpath = false -> st2 = st1).
Proof.
  intros fpath stub st2 Hbefore Hprint Hex Hshow Hraise.
  assert (Hc : exists name entries, c = Dir name true entries).
  { destruct c as [n d r|n [] es]; try discriminate; eauto. }
  destruct Hc as (name & entries & ->).
  assert (Hwalk : walk cfg fpath (Dir name true entries) st1 = Ok st2).
  { rewrite walk_dir, Hprint. unfold visit. rewrite Hex, Hshow. cbn [negb].
    unfold work_raises in Hraise.
    unfold st2, on_error, checked_show_id in *.
    destruct (encodable fpath) eqn:Henc; cbn [fst snd]; [|reflexivity].
    destruct Hraise as [[e He]|[e He]]; [discriminate He|].
    rewrite He. reflexivity. }
  assert (Hdirs : walk_dirs cfg top (before ++ Dir name true entries :: after) st
                  = walk_dirs cfg top after st2).
  { rewrite walk_dirs_app, Hbefore, walk_dirs_cons. cbn [is_dir].
    fold fpath. rewrite Hwalk. reflexivity. }
  split; [exact Hwalk|split; [exact Hdirs|split; [|split]]].
  - intros st' Hst'. rewrite Hdirs in Hst'.
    exact (walk_dirs_appends cfg top after st2 st' Hst').
  - intros Henc. unfold st2. rewrite Henc. repeat split.
  - intros Henc. unfold st2. rewrite Henc. reflexivity.
Qed.

Lemma folder_error_gives_stub_row_witness :
  exists st',
    walk_dirs (example_run ["/m"]) "/m" [locked_disc; sibling_show] initial_state
    = Ok st'
    /\ map (fun r => (FolderName r, ExtractionWarnings r)) (rows st')
       = [("D", "Unhandled error while scanning this folder"); ("E", "")].
Proof.
  destruct (folder_error_gives_stub_row (example_run ["/m"]) "/m" []
              [sibling_show] locked_disc initial_state initial_state)
    as (_ & Hdirs & _).
  - reflexivity.
  - reflexivity.
  - reflexivity.
  - reflexivity.
  - right. exists PermissionError. vm_compute. reflexivity.
  - cbn [app] in Hdirs. rewrite Hdirs. eexists. split; vm_compute; reflexivity.
Defined.

(** The line of a directory is printed before the body of the loop is
    tried: on a console that does not take the text of the path, the
    folder of the counterexample ends the run. *)
Example unprintable_path_ends_the_run :
  scan_roots (Run strict_console_host ["/m"] false true true false)
             (one_root "/m" (Dir "m" true [undecodable_show; sibling_show]))
  = Raise UnicodeEncodeError
  /\ exists rs,
       scan_roots (example_run ["/m"])
                  (one_root "/m" (Dir "m" true [undecodable_show; sibling_show]))
       = Ok rs
       /\ map FolderName rs = ["E"].
Proof. split; [|eexists; split]; vm_compute; reflexivity. Qed.

(** * Loose files and repeated identifiers *)

(** C1: the loop that should emit a row per loose video file emits
    nothing, because the function it calls does not exist.  In a directory
    with two show folders and the loose file z.mkv, which is not a show,
    the scan emits the rows of the two folders and none for the file. *)
Theorem loose_video_files_get_no_row :
  (forall (fpath : string) (loose : list node) (st : scan_state),
      loose_rows fpath loose st = st)
  /\ is_show_folder two_shows_and_loose_file = false
  /\ List.filter is_video_file (entries_of two_shows_and_loose_file)
     = [File "z.mkv" "zzz" true]
  /\ exists rs,
       scan_roots (example_run ["/m"]) (one_root "/m" two_shows_and_loose_file)
       = Ok rs
       /\ map FolderPath rs = ["/m/A"; "/m/B"].
Proof.
  split; [apply loose_rows_nothing|].
  repeat split; try (vm_compute; reflexivity).
  eexists. split; vm_compute; reflexivity.
Qed.

(** C3: a show folder reached twice in a run, here because its root is
    given twice, is recorded twice: two rows with one identifier. *)
Theorem repeated_identifier_gets_two_rows :
  exists rs,
    scan_roots (example_run ["/m"; "/m"]) (one_root "/m" one_show) = Ok rs
    /\ map ShowID rs = [normalize_show_id "/m"; normalize_show_id "/m"].
Proof. eexists. split; vm_compute; reflexivity. Qed.

(** * Further properties *)

(** * Every row of a run *)

Lemma insert_by_perm {A : Type} (le : A -> A -> bool) (x : A) (l : list A) :
  Permutation (x :: l) (insert_by le x l).
Proof.
  induction l as [|y l IH]; simpl; [reflexivity|].
  destruct (le x y); [reflexivity|].
  rewrite perm_swap. constructor. exact IH.
Qed.

Lemma sorted_by_perm {A : Type} (le : A -> A -> bool) (l : list A) :
  Permutation l (sorted_by le l).
Proof.
  induction l as [|x l IH]; simpl; [reflexivity|].
  rewrite <- insert_by_perm. constructor. exact IH.
Qed.

Lemma insert_by_total_sorted {A : Type} (le : A -> A -> bool) (x : A) (l : list A) :
  (forall a b, le a b = true \/ le b a = true) ->
  Sorted.Sorted (fun a b => le a b = true) l ->
  Sorted.Sorted (fun a b => le a b = true) (insert_by le x l).
Proof.
  intros Htot. induction l as [|y l IH]; intros Hs; simpl.
  - repeat constructor.
  - destruct (le x y) eqn:Hxy.
    + constructor; [exact Hs|]. constructor. exact Hxy.
    + inversion Hs as [|? ? Hs' Hhd]; subst.
      constructor; [apply IH, Hs'|].
      assert (Hyx : le y x = true) by (destruct (Htot x y); congruence).
      destruct l as [|z l]; simpl.
      * constructor. exact Hyx.
      * destruct (le x z); constructor; [exact Hyx|].
        inversion Hhd; subst. assumption.
Qed.

Lemma sorted_by_total_sorted {A : Type} (le : A -> A -> bool) (l : list A) :
  (forall a b, le a b = true \/ le b a = true) ->
  Sorted.Sorted (fun a b => le a b = true) (sorted_by le l).
Proof.
  intros Htot. induction l as [|x l IH]; simpl.
  - constructor.
  - apply insert_by_total_sorted; assumption.
Qed.

Lemma string_order_cases (a b : string) :
  String.ltb a b = true \/ a = b \/ String.ltb b a = true.
Proof.
  unfold String.ltb. destruct (String.compare a b) eqn:E.
  - right. left. apply String.compare_eq_iff, E.
  - left. reflexivity.
  - right. right. rewrite String.compare_antisym, E. reflexivity.
Qed.

Lemma key_le_total (k1 k2 : string * string * string) :
  key_le k1 k2 = true \/ key_le k2 k1 = true.
Proof.
  destruct k1 as [[a1 b1] c1], k2 as [[a2 b2] c2]. unfold key_le.
  destruct (string_order_cases a1 a2) as [H|[->|H]];
    [left; rewrite H; reflexivity| |right; rewrite H; reflexivity].
  rewrite String.eqb_refl.
  destruct (string_order_cases b1 b2) as [H|[->|H]];
    [left; rewrite H; apply orb_true_iff; right; apply orb_true_l
    | |right; rewrite H; apply orb_true_iff; right; apply orb_true_l].
  rewrite String.eqb_refl.
  destruct (String.leb_total c1 c2) as [H|H]; [left|right]; rewrite H;
    rewrite !orb_true_r; reflexivity.
Qed.

(** X1: the rows returned are the rows appended, each once, in the order of
    their keys. *)
Theorem scan_roots_sorted_permutation
    (cfg : run) (fs : string -> option node) (rs : list Row) :
  scan_roots cfg fs = Ok rs ->
  exists appended,
    scan_rows cfg fs = Ok appended
    /\ Permutation appended rs
    /\ in_key_order rs.
Proof.
  unfold scan_roots. destruct (scan_rows cfg fs) as [appended|e]; [|discriminate].
  intros [= <-]. exists appended. split; [reflexivity|]. split.
  - apply sorted_by_perm.
  - apply (sorted_by_total_sorted
             (fun r1 r2 => key_le (row_key r1) (row_key r2))).
    intros a b. apply key_le_total.
Qed.

(** The run of the examples on the three copies comes to its end. *)
Lemma three_copies_scanned :
  exists rs, scan_roots (example_run ["/m"]) (one_root "/m" three_copies) = Ok rs.
Proof. eexists. vm_compute. reflexivity. Qed.

Lemma scan_roots_sorted_permutation_witness :
  exists rs appended,
    scan_roots (example_run ["/m"]) (one_root "/m" three_copies) = Ok rs
    /\ scan_rows (example_run ["/m"]) (one_root "/m" three_copies) = Ok appended
    /\ Permutation appended rs
    /\ in_key_order rs.
Proof.
  destruct three_copies_scanned as [rs Hrs]. exists rs.
  destruct (scan_roots_sorted_permutation _ _ rs Hrs) as (appended & H).
  exists appended. split; [exact Hrs|exact H].
Defined.

(** The columns of the row of a show folder that the properties below
    speak of. *)
Lemma show_row_columns (cfg : run) (fpath : string) (folder : node) (now : string)
                       (row : Row) (rep : list located) :
  show_row cfg fpath folder now = Ok (row, rep) ->
  exists container notes,
    representative_media folder = Ok (rep, container)
    /\ Container row = container
    /\ (VideoCodec row, Width row, Height row, DurationSec row,
        AudioCodec row, AudioChannels row, AudioSampleRate row)
       = (let info := probe_media cfg fpath rep container in
          (video_codec info, width info, height info, duration_sec info,
           audio_codec info, audio_channels info, audio_sample_rate info))
    /\ Artist row = resolve_artist (tools cfg) fpath notes
    /\ RecordingType row = determine_recording_type (tools cfg) notes (path_name fpath)
    /\ Lineage row = prefix 2000 (extract_lineage (tools cfg) notes)
    /\ Setlist row = prefix 2000 (extract_setlist notes)
    /\ Notes row = prefix 8000 notes.
Proof.
  unfold show_row.
  destruct (collect_notes cfg fpath folder) as [notes warnings].
  destruct (parse_location notes (path_name fpath))
    as [[[[venue city] country] festival] hint].
  destruct (representative_media folder) as [[rep_files container]|e];
    [|discriminate].
  intros [= <- <-]. exists container, notes. cbn. repeat split.
Qed.

(** The checksum step leaves every other column as it is. *)
Lemma link_checksum_columns (cfg : run) (row : Row) (rep : list located)
                            (known : gmap string string) :
  let r := fst (link_checksum cfg row rep known) in
  Container r = Container row
  /\ (VideoCodec r, Width r, Height r, DurationSec r,
      AudioCodec r, AudioChannels r, AudioSampleRate r)
     = (VideoCodec row, Width row, Height row, DurationSec row,
        AudioCodec row, AudioChannels row, AudioSampleRate row)
  /\ Artist r = Artist row
  /\ RecordingType r = RecordingType row
  /\ Lineage r = Lineage row
  /\ Setlist r = Setlist row
  /\ Notes r = Notes row
  /\ (do_checksums cfg = false ->
      ChecksumSHA1 r = ChecksumSHA1 row /\ DuplicateOf r = DuplicateOf row).
Proof.
  unfold link_checksum.
  destruct rep as [|f rep']; [cbn; tauto|].
  destruct (do_checksums cfg); [|cbn; tauto].
  destruct (truthy _); [destruct (known !! _)|]; cbn;
    repeat split; discriminate.
Qed.

Lemma visit_rows_origin (cfg : run) (fpath : string) (folder : node)
                        (st : scan_state) :
  Forall (row_of_visit cfg) (rows st) ->
  Forall (row_of_visit cfg) (rows (fst (visit cfg fpath folder st))).
Proof.
  intros Hst. unfold visit.
  destruct (mem _ _) eqn:Hex; [exact Hst|].
  destruct (is_show_folder folder) eqn:Hshow; cbn [negb];
    [|cbn [fst]; rewrite loose_rows_nothing; exact Hst].
  destruct (checked_show_id fpath) as [show_id|e0] eqn:Hid; cbn [fst].
  2:{ unfold on_error. rewrite Hid. exact Hst. }
  destruct (show_row cfg fpath folder _) as [[row rep]|e] eqn:Hrow; cbn [fst rows].
  - apply Forall_app. split; [exact Hst|]. constructor; [|constructor].
    exists fpath. split; [exact Hex|]. right.
    destruct (show_row_fields _ _ _ _ _ _ Hrow) as (container & Hrep & _).
    exists folder, (now_iso (tools cfg) (clock st)), row, rep, container,
           (checksum_to_showid st). auto.
  - unfold on_error. rewrite Hid. cbn [rows clock].
    apply Forall_app. split; [exact Hst|]. constructor; [|constructor].
    exists fpath. split; [exact Hex|]. left. eauto.
Qed.

(** What holds of every row a visit may append holds of every row of a
    run that comes to its end. *)
Lemma scan_roots_all (cfg : run) (fs : string -> option node) (P : Row -> Prop)
                     (rs : list Row) :
  (forall r, row_of_visit cfg r -> P r) ->
  scan_roots cfg fs = Ok rs -> List.Forall P rs.
Proof.
  intros HP. unfold scan_roots, scan_rows.
  destruct (scan_from cfg fs (roots cfg) initial_state) as [st|e] eqn:Hscan;
    [|discriminate].
  intros [= <-].
  assert (Horigin : Forall (row_of_visit cfg) (rows st)).
  { apply (scan_from_keeps cfg (fun s => Forall (row_of_visit cfg) (rows s)) fs
                           (fun fpath folder s => visit_rows_origin cfg fpath folder s)
                           (roots cfg) initial_state st); [constructor|exact Hscan]. }
  apply List.Forall_forall. intros r Hin. apply HP.
  apply (Permutation_in _ (Permutation_sym (sorted_by_perm _ (rows st)))) in Hin.
  exact (proj1 (List.Forall_forall _ _) Horigin r Hin).
Qed.

(** X2: every row returned, stub rows included, has the identifier computed
    from its own FolderPath and the last component of that path as its
    FolderName, and is not the row of a folder with an excluded name. *)
Theorem row_identity_from_path
    (cfg : run) (fs : string -> option node) (rs : list Row) :
  scan_roots cfg fs = Ok rs ->
  List.Forall
    (fun r => ShowID r = normalize_show_id (FolderPath r)
              /\ FolderName r = path_name (FolderPath r)
              /\ mem (lower (FolderName r)) _excluded = false)
    rs.
Proof.
  apply scan_roots_all. intros r (fpath & Hex & [H|H]).
  - destruct H as [now ->]. cbn. auto.
  - destruct H as (folder & now & row & rep & container & known & _ & _ & Hrow & ->).
    destruct (show_row_fields _ _ _ _ _ _ Hrow) as (_ & _ & Hid & Hname & Hpath & _).
    destruct (link_checksum_fields cfg row rep known) as (-> & -> & -> & _).
    rewrite Hid, Hname, Hpath. auto.
Qed.

Lemma row_identity_from_path_witness :
  exists rs,
    scan_roots (example_run ["/m"]) (one_root "/m" three_copies) = Ok rs
    /\ List.Forall
         (fun r => ShowID r = normalize_show_id (FolderPath r)
                   /\ FolderName r = path_name (FolderPath r)
                   /\ mem (lower (FolderName r)) _excluded = false)
         rs.
Proof.
  destruct three_copies_scanned as [rs Hrs]. exists rs.
  split; [exact Hrs|exact (row_identity_from_path _ _ rs Hrs)].
Defined.

(** X3: without [--checksums] no row has a checksum or a duplicate
    reference. *)
Theorem no_checksums_no_links
    (cfg : run) (fs : string -> option node) (rs : list Row) :
  do_checksums cfg = false ->
  scan_roots cfg fs = Ok rs ->
  List.Forall (fun r => ChecksumSHA1 r = "" /\ DuplicateOf r = "") rs.
Proof.
  intros Hno. apply scan_roots_all. intros r (fpath & Hex & [H|H]).
  - destruct H as [now ->]. cbn. auto.
  - destruct H as (folder & now & row & rep & container & known & _ & _ & Hrow & ->).
    destruct (show_row_fields _ _ _ _ _ _ Hrow) as (_ & _ & _ & _ & _ & Hc & Hd).
    destruct (link_checksum_columns cfg row rep known)
      as (_ & _ & _ & _ & _ & _ & _ & Hkeep).
    destruct (Hkeep Hno) as [-> ->]. auto.
Qed.

Lemma no_checksums_no_links_witness :
  exists rs,
    scan_roots (Run example_host ["/m"] false true false false)
               (one_root "/m" three_copies) = Ok rs
    /\ List.Forall (fun r => ChecksumSHA1 r = "" /\ DuplicateOf r = "") rs.
Proof.
  assert (H : exists rs, scan_roots (Run example_host ["/m"] false true false false)
                                    (one_root "/m" three_copies) = Ok rs)
    by (eexists; vm_compute; reflexivity).
  destruct H as [rs Hrs]. exists rs.
  split; [exact Hrs|].
  exact (no_checksums_no_links (Run example_host ["/m"] false true false false)
                               (one_root "/m" three_copies) rs eq_refl Hrs).
Defined.

(** X4: with [--no-media] the prober is not consulted: the technical columns
    of every row are empty. *)
Theorem no_media_empty_columns
    (cfg : run) (fs : string -> option node) (rs : list Row) :
  no_media cfg = true ->
  scan_roots cfg fs = Ok rs ->
  List.Forall
    (fun r => (VideoCodec r, Width r, Height r, DurationSec r,
               AudioCodec r, AudioChannels r, AudioSampleRate r)
              = ("", "", "", "", "", "", ""))
    rs.
Proof.
  intros Hno. apply scan_roots_all. intros r (fpath & Hex & [H|H]).
  - destruct H as [now ->]. reflexivity.
  - destruct H as (folder & now & row & rep & container & known & _ & _ & Hrow & ->).
    destruct (show_row_columns _ _ _ _ _ _ Hrow) as (c & notes & _ & _ & Hm & _).
    destruct (link_checksum_columns cfg row rep known) as (_ & -> & _).
    rewrite Hm. unfold probe_media. rewrite Hno.
    destruct rep; reflexivity.
Qed.

Lemma no_media_empty_columns_witness :
  exists rs,
    scan_roots (example_run ["/m"]) (one_root "/m" three_copies) = Ok rs
    /\ List.Forall
         (fun r => (VideoCodec r, Width r, Height r, DurationSec r,
                    AudioCodec r, AudioChannels r, AudioSampleRate r)
                   = ("", "", "", "", "", "", ""))
         rs.
Proof.
  destruct three_copies_scanned as [rs Hrs]. exists rs.
  split; [exact Hrs|].
  exact (no_media_empty_columns (example_run ["/m"]) (one_root "/m" three_copies)
                                rs eq_refl Hrs).
Defined.

(** * Identifiers and checksums *)

Lemma hex_digit_is_hex (v : Z) : (0 <= v < 16)%Z -> is_hex (Sha1.hex_digit v) = true.
Proof.
  intros Hv.
  assert (H : (v = 0 \/ v = 1 \/ v = 2 \/ v = 3 \/ v = 4 \/ v = 5 \/ v = 6 \/ v = 7
               \/ v = 8 \/ v = 9 \/ v = 10 \/ v = 11 \/ v = 12 \/ v = 13 \/ v = 14
               \/ v = 15)%Z) by lia.
  repeat (destruct H as [->|H]; [reflexivity|]). subst. reflexivity.
Qed.

Lemma hex32_format (x : Z) (rest : string) :
  String.length (Sha1.hex32 x rest) = (8 + String.length rest)%nat
  /\ all_chars is_hex (Sha1.hex32 x rest) = all_chars is_hex rest.
Proof.
  split; [reflexivity|]. unfold Sha1.hex32. cbn [all_chars].
  rewrite !hex_digit_is_hex by (apply Z.mod_pos_bound; lia). reflexivity.
Qed.

(** The digest is written with 40 hexadecimal digits. *)
Lemma hexdigest_format (data : string) :
  String.length (Sha1.hexdigest data) = 40%nat
  /\ all_chars is_hex (Sha1.hexdigest data) = true.
Proof.
  unfold Sha1.hexdigest.
  destruct (Sha1.blocks _ _ _) as [[[[h0 h1] h2] h3] h4].
  split.
  - rewrite !(proj1 (hex32_format _ _)). reflexivity.
  - rewrite !(proj2 (hex32_format _ _)). reflexivity.
Qed.

Lemma prefix_format (p : ascii -> bool) (n : nat) (s : string) :
  all_chars p s = true -> (n <= String.length s)%nat ->
  String.length (prefix n s) = n /\ all_chars p (prefix n s) = true.
Proof.
  revert s. induction n as [|n IH]; intros s Hp Hn; [destruct s; auto|].
  destruct s as [|c s]; [simpl in Hn; lia|].
  cbn [all_chars] in Hp. apply andb_true_iff in Hp as [Hc Hs].
  destruct (IH s Hs) as [Hl Ha]; [simpl in Hn; lia|].
  cbn [prefix String.length all_chars]. rewrite Hl, Hc, Ha. auto.
Qed.

Lemma normalize_show_id_format (fpath : string) :
  String.length (normalize_show_id fpath) = 12%nat
  /\ all_chars is_hex (normalize_show_id fpath) = true.
Proof.
  unfold normalize_show_id.
  destruct (hexdigest_format (Sha1.utf8 fpath)) as [Hl Hh].
  apply prefix_format; [exact Hh|lia].
Qed.

Lemma sha1_of_files_format (paths : list located) :
  match read_in_order paths with
  | None => sha1_of_files_in_order paths = ""
  | Some bytes =>
      sha1_of_files_in_order paths = Sha1.hexdigest bytes
      /\ String.length (sha1_of_files_in_order paths) = 40%nat
      /\ all_chars is_hex (sha1_of_files_in_order paths) = true
  end.
Proof.
  unfold sha1_of_files_in_order. destruct (read_in_order paths); [|reflexivity].
  split; [reflexivity|apply hexdigest_format].
Qed.

(** X5: a file that cannot be opened empties the checksum of the whole
    representative set; otherwise the checksum is the digest, 40
    hexadecimal digits, of the bytes of the files one after the other, so
    that it does not depend on where one file ends and the next begins. *)
Theorem checksum_of_files (paths : list located) :
  match read_in_order paths with
  | None => sha1_of_files_in_order paths = ""
  | Some bytes =>
      sha1_of_files_in_order paths = Sha1.hexdigest bytes
      /\ String.length (sha1_of_files_in_order paths) = 40%nat
      /\ all_chars is_hex (sha1_of_files_in_order paths) = true
  end
  /\ (read_in_order paths = None
      <-> Exists (fun p => match snd p with
                           | File _ _ true => False
                           | _ => True
                           end) paths).
Proof.
  split; [apply sha1_of_files_format|].
  induction paths as [|[rel n] rest IH]; cbn [read_in_order].
  - split; [discriminate|]. intros H. inversion H.
  - destruct n as [name data [|] | name l es]; cbn [snd].
    + destruct (read_in_order rest).
      * split; [discriminate|]. intros H. inversion H as [? ? Hh|? ? Ht]; subst.
        -- cbn in Hh. contradiction.
        -- apply IH in Ht. discriminate.
      * split; [|reflexivity]. intros _. apply Exists_cons_tl, IH. reflexivity.
    + split; [|reflexivity]. intros _. apply Exists_cons_hd. exact I.
    + split; [|reflexivity]. intros _. apply Exists_cons_hd. exact I.
Qed.

(** X6: the identifier of every row is 12 lower-case hexadecimal digits, and
    its checksum is empty or 40 such digits. *)
Theorem row_identifier_format
    (cfg : run) (fs : string -> option node) (rs : list Row) :
  scan_roots cfg fs = Ok rs ->
  List.Forall
    (fun r => String.length (ShowID r) = 12%nat
              /\ all_chars is_hex (ShowID r) = true
              /\ (ChecksumSHA1 r = ""
                  \/ String.length (ChecksumSHA1 r) = 40%nat
                     /\ all_chars is_hex (ChecksumSHA1 r) = true))
    rs.
Proof.
  apply scan_roots_all. intros r (fpath & Hex & [H|H]).
  - destruct H as [now ->]. cbn [ShowID ChecksumSHA1 stub_row].
    destruct (normalize_show_id_format fpath). auto.
  - destruct H as (folder & now & row & rep & container & known & _ & _ & Hrow & ->).
    destruct (show_row_fields _ _ _ _ _ _ Hrow) as (_ & _ & Hid & _ & _ & Hc & _).
    destruct (link_checksum_fields cfg row rep known) as (-> & _ & _ & _ & ->).
    rewrite Hid. destruct (normalize_show_id_format fpath) as [Hl Hh].
    split; [exact Hl|split; [exact Hh|]].
    destruct (do_checksums cfg); [|left; exact Hc].
    destruct rep as [|f rep']; [left; exact Hc|].
    pose proof (sha1_of_files_format (f :: rep')) as Hsum.
    destruct (read_in_order (f :: rep')); [right; tauto|left; exact Hsum].
Qed.

Lemma row_identifier_format_witness :
  exists rs,
    scan_roots (example_run ["/m"]) (one_root "/m" three_copies) = Ok rs
    /\ List.Forall
         (fun r => String.length (ShowID r) = 12%nat
                   /\ all_chars is_hex (ShowID r) = true
                   /\ (ChecksumSHA1 r = ""
                       \/ String.length (ChecksumSHA1 r) = 40%nat
                          /\ all_chars is_hex (ChecksumSHA1 r) = true))
         rs.
Proof.
  destruct three_copies_scanned as [rs Hrs]. exists rs.
  split; [exact Hrs|exact (row_identifier_format _ _ rs Hrs)].
Defined.

(** * Which folders the walk visits *)

(** X7: a directory with an excluded name (video_ts, audio_ts, info, nfo,
    docs, artwork, extras, in any case of letters) gets no row, and nothing
    below it is visited, whatever it holds. *)
Theorem excluded_folder_skipped (cfg : run) (top : string) (d : node) (st : scan_state) :
  mem (lower (path_name top)) _excluded = true ->
  console_accepts (tools cfg) ("Scanning: " +:+ top) = true ->
  walk cfg top d st = Ok st.
Proof.
  intros Hex Hprint. destruct d as [name data r | name [|] entries]; try reflexivity.
  rewrite walk_dir, Hprint. unfold visit. rewrite Hex. reflexivity.
Qed.

Lemma excluded_folder_skipped_witness :
  walk (example_run ["/m"]) "/m/Extras" (Dir "Extras" true [File "e.mp4" "x" true])
       initial_state
  = Ok initial_state.
Proof.
  apply (excluded_folder_skipped (example_run ["/m"]) "/m/Extras"); reflexivity.
Defined.

(** X8: a show folder met for the first time is where the walk stops: it
    gets exactly one row, with its path and the identifier of its path,
    and the folders below it get none, even those that would be shows on
    their own. *)
Theorem show_folder_is_terminal (cfg : run) (top : string) (d : node) (st : scan_state) :
  mem (lower (path_name top)) _excluded = false ->
  is_show_folder d = true ->
  encodable top = true ->
  console_accepts (tools cfg) ("Scanning: " +:+ top) = true ->
  normalize_show_id top ∉ seen_ids st ->
  exists st' row,
    walk cfg top d st = Ok st'
    /\ rows st' = rows st ++ [row]
    /\ ShowID row = normalize_show_id top
    /\ normalize_show_id top ∈ seen_ids st'.
Proof.
  intros Hex Hshow Henc Hprint _.
  destruct d as [name data r | name [|] entries]; try discriminate.
  rewrite walk_dir, Hprint.
  destruct (visit_show_folder cfg top (Dir name true entries) st Hex Hshow Henc)
    as (row & Hrows & Hid & Hdesc).
  rewrite Hdesc. eexists. exists row. split; [reflexivity|].
  split; [exact Hrows|split; [exact Hid|]].
  unfold visit, on_error, checked_show_id. rewrite Hex, Hshow, Henc. cbn [negb].
  destruct (show_row cfg top (Dir name true entries) _) as [[r rep]|e];
    cbn [fst seen_ids]; apply elem_of_union; left; apply elem_of_singleton;
    reflexivity.
Qed.

Lemma show_folder_is_terminal_witness :
  exists st' row,
    walk (example_run ["/m"]) "/m/S"
         (Dir "S" true [File "s.mp4" "x" true; sibling_show]) initial_state
    = Ok st'
    /\ rows st' = rows initial_state ++ [row]
    /\ ShowID row = normalize_show_id "/m/S"
    /\ normalize_show_id "/m/S" ∈ seen_ids st'.
Proof.
  apply (show_folder_is_terminal (example_run ["/m"]) "/m/S");
    try (vm_compute; reflexivity).
  cbn [seen_ids initial_state]. apply not_elem_of_empty.
Defined.

(** * Folder classifier, in full *)

Lemma show_folder_loop_few (children : list node) (n : nat) (dv : bool) :
  (n + List.length (List.filter (fun c => is_dir c && _child_looks_like_show c) children)
   < 2)%nat ->
  show_folder_loop children n dv = dv.
Proof.
  revert n. induction children as [|c rest IH]; intros n Hc; [reflexivity|].
  simpl in Hc. cbn [show_folder_loop].
  destruct (is_dir c && _child_looks_like_show c) eqn:Hq.
  - simpl in Hc. destruct n as [|n]; [|lia].
    change (2 <=? 1)%nat with false. cbv iota. apply IH. lia.
  - apply IH. exact Hc.
Qed.

(** X9: for a folder without a disc structure of its own the count of
    child show folders decides: the folder is a show exactly when it can
    be listed, directly holds a video file and has fewer than two child
    folders that look like shows. *)
Theorem show_folder_without_disc (folder : node) :
  _video_ts_present folder = false ->
  (is_show_folder folder = true
   <-> exists entries,
         iterdir folder = Ok entries
         /\ existsb is_video_file entries = true
         /\ (child_show_dirs folder < 2)%nat).
Proof.
  intros Hv. unfold is_show_folder. rewrite Hv.
  destruct folder as [name data r | name [|] entries]; cbn [iterdir].
  - split; [discriminate|]. intros (es & H & _). discriminate.
  - unfold _has_direct_video_files, child_show_dirs. cbn [iterdir entries_of].
    destruct (Nat.lt_ge_cases
                (List.length (List.filter (fun c => is_dir c && _child_looks_like_show c)
                                          entries)) 2) as [Hlt|Hge].
    + rewrite show_folder_loop_few by (simpl; exact Hlt).
      split.
      * intros Hd. exists entries. auto.
      * intros (es & [= <-] & Hd & _). exact Hd.
    + rewrite show_folder_loop_container by (simpl; lia).
      split; [discriminate|].
      intros (es & _ & _ & Hc). lia.
  - split; [discriminate|]. intros (es & H & _). discriminate.
Qed.

Lemma show_folder_without_disc_witness :
  is_show_folder two_shows_and_loose_file = true
  <-> exists entries,
        iterdir two_shows_and_loose_file = Ok entries
        /\ existsb is_video_file entries = true
        /\ (child_show_dirs two_shows_and_loose_file < 2)%nat.
Proof.
  apply (show_folder_without_disc two_shows_and_loose_file). reflexivity.
Defined.

Lemma vob_is_video (f : node) : is_vob_file f = true -> is_video_file f = true.
Proof.
  unfold is_vob_file, is_video_file. intros H.
  apply andb_true_iff in H as [Hf Hs]. apply String.eqb_eq in Hs.
  rewrite Hf, Hs. reflexivity.
Qed.

Lemma video_ts_loop_found (children : list node) :
  video_ts_loop children = Ok true ->
  exists child files,
    In child children /\ is_video_ts_dir child = true
    /\ iterdir child = Ok files /\ existsb is_vob_file files = true.
Proof.
  induction children as [|c rest IH]; [discriminate|].
  cbn [video_ts_loop].
  destruct (is_video_ts_dir c) eqn:Hc.
  - destruct (iterdir c) as [files|e] eqn:Hi; [|discriminate].
    destruct (existsb is_vob_file files) eqn:Hf.
    + intros _. exists c, files. repeat split; auto. left. reflexivity.
    + intros H. destruct (IH H) as (ch & fs & Hin & ?). exists ch, fs.
      split; [right; exact Hin|assumption].
  - intros H. destruct (IH H) as (ch & fs & Hin & ?). exists ch, fs.
    split; [right; exact Hin|assumption].
Qed.

(** X10: the VIDEO_TS folder of a disc is itself a child that looks like a
    show, its .vob files being video files: a folder with a disc structure
    has at least one child show folder. *)
Theorem disc_folder_counts_as_child_show (folder : node) :
  _video_ts_present folder = true ->
  (exists child,
      In child (entries_of folder)
      /\ is_video_ts_dir child = true
      /\ _child_looks_like_show child = true)
  /\ (1 <= child_show_dirs folder)%nat.
Proof.
  intros Hv.
  assert (Hc : exists child,
             In child (entries_of folder)
             /\ is_video_ts_dir child = true
             /\ _child_looks_like_show child = true).
  { unfold _video_ts_present in Hv.
    destruct folder as [name data r | name [|] entries]; try discriminate.
    cbn [iterdir] in Hv.
    destruct (video_ts_loop entries) as [[|]|e] eqn:Hl; try discriminate.
    destruct (video_ts_loop_found entries Hl) as (child & files & Hin & Hd & Hi & Hf).
    exists child. repeat split; [exact Hin|exact Hd|].
    unfold _child_looks_like_show.
    destruct (_video_ts_present child); [reflexivity|].
    rewrite Hi. apply existsb_exists in Hf as (f & Hfin & Hvob).
    apply existsb_exists. exists f. split; [exact Hfin|apply vob_is_video, Hvob]. }
  split; [exact Hc|].
  destruct Hc as (child & Hin & Hd & Hs).
  unfold child_show_dirs.
  assert (Hf : In child (List.filter (fun c => is_dir c && _child_looks_like_show c)
                                     (entries_of folder))).
  { apply filter_In. split; [exact Hin|].
    unfold is_video_ts_dir in Hd. apply andb_true_iff in Hd as [Hdir _].
    rewrite Hdir, Hs. reflexivity. }
  destruct (List.filter _ _); [contradiction|simpl; lia].
Qed.

Lemma disc_folder_counts_as_child_show_witness :
  (1 <= child_show_dirs two_segment_disc)%nat.
Proof.
  apply (disc_folder_counts_as_child_show two_segment_disc). reflexivity.
Defined.

(** * Representative media *)

Lemma largest_video_spec (files : list located) (best : option located) (size : Z) :
  (0 <= size)%Z ->
  match best with
  | Some b => is_video_file (snd b) = true /\ size = st_size (snd b) /\ (0 < size)%Z
  | None => size = 0%Z
  end ->
  match largest_video files best size with
  | Some b =>
      (In b files \/ best = Some b)
      /\ is_video_file (snd b) = true
      /\ (0 < st_size (snd b))%Z
      /\ (size <= st_size (snd b))%Z
      /\ forall q, In q files -> is_video_file (snd q) = true ->
                   (st_size (snd q) <= st_size (snd b))%Z
  | None =>
      best = None
      /\ forall q, In q files -> is_video_file (snd q) = true ->
                   (st_size (snd q) <= 0)%Z
  end.
Proof.
  revert best size. induction files as [|p rest IH]; intros best size Hsize Hbest.
  - cbn [largest_video]. destruct best as [b|].
    + destruct Hbest as (Hv & -> & Hpos). repeat split; auto; try lia.
      intros q [].
    + split; [reflexivity|]. intros q [].
  - cbn [largest_video].
    destruct (is_video_file (snd p) && (size <? st_size (snd p))%Z) eqn:Hc.
    + apply andb_true_iff in Hc as [Hv Hlt]. apply Z.ltb_lt in Hlt.
      assert (Hp0 : (0 <= st_size (snd p))%Z) by lia.
      assert (Hp1 : (0 < st_size (snd p))%Z) by lia.
      pose proof (IH (Some p) (st_size (snd p)) Hp0
                     (conj Hv (conj eq_refl Hp1))) as H.
      destruct (largest_video rest (Some p) (st_size (snd p))) as [b|].
      * destruct H as (Hin & Hvb & Hpos & Hge & Hall).
        repeat split; auto; try lia.
        -- left. destruct Hin as [Hin|[= <-]]; [right; exact Hin|left; reflexivity].
        -- intros q [<-|Hq] Hvq; [lia|auto].
      * destruct H as [[=] _].
    + pose proof (IH best size Hsize Hbest) as H.
      assert (Hp : is_video_file (snd p) = true -> (st_size (snd p) <= size)%Z).
      { intros Hv. rewrite Hv in Hc. cbn in Hc. apply Z.ltb_ge in Hc. exact Hc. }
      destruct (largest_video rest best size) as [b|].
      * destruct H as (Hin & Hvb & Hpos & Hge & Hall).
        repeat split; auto.
        -- destruct Hin as [Hin|Hb]; [left; right; exact Hin|right; exact Hb].
        -- intros q [<-|Hq] Hvq; [specialize (Hp Hvq); lia|auto].
      * destruct H as (-> & Hall). split; [reflexivity|].
        intros q [<-|Hq] Hvq; [specialize (Hp Hvq); lia|auto].
Qed.

(** X11: without a disc group the representative file is a video file below
    the folder of the greatest size, and not an empty one: a folder whose
    video files are all empty has no representative file at all. *)
Theorem representative_is_largest_video (folder : node) :
  dvd_group_segments folder = Ok [] ->
  match representative_media folder with
  | Ok ([best], container) =>
      In best (rglob [] folder)
      /\ is_video_file (snd best) = true
      /\ container = lower (suffix (node_name (snd best)))
      /\ (0 < st_size (snd best))%Z
      /\ forall q, In q (rglob [] folder) -> is_video_file (snd q) = true ->
                   (st_size (snd q) <= st_size (snd best))%Z
  | Ok ([], container) =>
      container = ""
      /\ forall q, In q (rglob [] folder) -> is_video_file (snd q) = true ->
                   st_size (snd q) = 0%Z
  | _ => False
  end.
Proof.
  intros Hd. unfold representative_media. rewrite Hd.
  pose proof (largest_video_spec (rglob [] folder) None 0 (Z.le_refl 0) eq_refl) as H.
  destruct (largest_video (rglob [] folder) None 0%Z) as [b|].
  - destruct H as ([Hin|[=]] & Hv & Hpos & _ & Hall). repeat split; auto.
  - destruct H as [_ Hall]. split; [reflexivity|].
    intros q Hq Hv. specialize (Hall q Hq Hv).
    assert (0 <= st_size (snd q))%Z by (destruct (snd q); simpl; lia). lia.
Qed.

Lemma representative_is_largest_video_witness :
  match representative_media
          (Dir "s" true [File "a.mp4" "ab" true; File "b.mkv" "abc" true;
                         File "c.txt" "abcdef" true])
  with
  | Ok ([best], container) =>
      In best (rglob [] (Dir "s" true [File "a.mp4" "ab" true; File "b.mkv" "abc" true;
                                       File "c.txt" "abcdef" true]))
      /\ is_video_file (snd best) = true
      /\ container = lower (suffix (node_name (snd best)))
      /\ (0 < st_size (snd best))%Z
      /\ forall q, In q (rglob [] (Dir "s" true [File "a.mp4" "ab" true;
                                                 File "b.mkv" "abc" true;
                                                 File "c.txt" "abcdef" true])) ->
                   is_video_file (snd q) = true ->
                   (st_size (snd q) <= st_size (snd best))%Z
  | Ok ([], container) =>
      container = ""
      /\ forall q, In q (rglob [] (Dir "s" true [File "a.mp4" "ab" true;
                                                 File "b.mkv" "abc" true;
                                                 File "c.txt" "abcdef" true])) ->
                   is_video_file (snd q) = true -> st_size (snd q) = 0%Z
  | _ => False
  end.
Proof.
  apply (representative_is_largest_video
           (Dir "s" true [File "a.mp4" "ab" true; File "b.mkv" "abc" true;
                          File "c.txt" "abcdef" true])).
  vm_compute. reflexivity.
Defined.

(** * The segments of a disc *)

Lemma size_sum_from (files : list located) (a : Z) :
  fold_left (fun acc p => (acc + st_size (snd p))%Z) files a
  = (a + size_sum files)%Z.
Proof.
  unfold size_sum. revert a. induction files as [|p files IH]; intros a; simpl.
  - lia.
  - rewrite IH, (IH (0 + _)%Z). lia.
Qed.

Lemma size_sum_cons (p : located) (files : list located) :
  size_sum (p :: files) = (st_size (snd p) + size_sum files)%Z.
Proof. unfold size_sum at 1. simpl. rewrite size_sum_from. lia. Qed.

Lemma size_sum_perm (l1 l2 : list located) :
  Permutation l1 l2 -> size_sum l1 = size_sum l2.
Proof.
  induction 1 as [|x l l' _ IH|x y l|l l' l'' _ IH1 _ IH2].
  - reflexivity.
  - rewrite !size_sum_cons, IH. reflexivity.
  - rewrite !size_sum_cons. lia.
  - congruence.
Qed.

Lemma st_size_nonneg (n : node) : (0 <= st_size n)%Z.
Proof. destruct n; simpl; lia. Qed.

Lemma size_sum_nonneg (files : list located) : (0 <= size_sum files)%Z.
Proof.
  induction files as [|p files IH]; [unfold size_sum; simpl; lia|].
  rewrite size_sum_cons. pose proof (st_size_nonneg (snd p)). lia.
Qed.

(** The groups after some files: one entry for each key met, holding the
    files of that key in the order met. *)
Definition groups_of (key_of : located -> option string) (seen : list located)
                     (groups : list (string * list located)) : Prop :=
  NoDup (map fst groups)
  /\ (forall k files, In (k, files) groups ->
        files <> []
        /\ files = List.filter
                     (fun v => match key_of v with
                               | Some k' => String.eqb k' k
                               | None => false
                               end) seen)
  /\ (forall v k, In v seen -> key_of v = Some k -> In k (map fst groups)).

Lemma group_append_keys (key : string) (v : located)
                        (groups : list (string * list located)) :
  map fst (group_append key v groups)
  = if existsb (String.eqb key) (map fst groups) then map fst groups
    else map fst groups ++ [key].
Proof.
  induction groups as [|[k vs] rest IH]; simpl; [reflexivity|].
  rewrite (String.eqb_sym key k).
  destruct (String.eqb k key); simpl; [reflexivity|].
  rewrite IH. destruct (existsb _ _); reflexivity.
Qed.

Lemma group_append_in (key : string) (v : located)
                      (groups : list (string * list located))
                      (k : string) (files : list located) :
  NoDup (map fst groups) ->
  In (k, files) (group_append key v groups) ->
  (k <> key /\ In (k, files) groups)
  \/ (k = key /\ ((exists old, In (k, old) groups /\ files = old ++ [v])
                  \/ (~ In key (map fst groups) /\ files = [v]))).
Proof.
  induction groups as [|[k0 vs] rest IH]; simpl; intros Hnd Hin.
  - destruct Hin as [[= <- <-]|[]]. right. split; [reflexivity|]. right. tauto.
  - inversion Hnd as [|? ? Hnot Hnd']; subst.
    rewrite list_elem_of_In in Hnot.
    destruct (String.eqb k0 key) eqn:He.
    + apply String.eqb_eq in He. subst k0.
      destruct Hin as [[= <- <-]|Hin].
      * right. split; [reflexivity|]. left. exists vs. split; [left|]; reflexivity.
      * left. split; [|right; exact Hin].
        intros ->. apply Hnot. apply (in_map fst) in Hin. exact Hin.
    + apply String.eqb_neq in He.
      destruct Hin as [[= <- <-]|Hin].
      * left. split; [exact He|left; reflexivity].
      * destruct (IH Hnd' Hin) as [[Hk Hin']|[-> [[old [Hin' ->]]|[Hnot' ->]]]].
        -- left. split; [exact Hk|right; exact Hin'].
        -- right. split; [reflexivity|]. left. exists old. split; [right; exact Hin'|reflexivity].
        -- right. split; [reflexivity|]. right. split; [|reflexivity].
           intros [Heq|Hin']; [congruence|contradiction].
Qed.

Lemma existsb_eqb_in (key : string) (l : list string) :
  existsb (String.eqb key) l = true <-> In key l.
Proof.
  rewrite existsb_exists. split.
  - intros [x [Hin He]]. apply String.eqb_eq in He. subst. exact Hin.
  - intros Hin. exists key. split; [exact Hin|apply String.eqb_refl].
Qed.

Lemma filter_snoc {A : Type} (f : A -> bool) (l : list A) (x : A) :
  List.filter f (l ++ [x]) = List.filter f l ++ (if f x then [x] else []).
Proof. rewrite List.filter_app. reflexivity. Qed.

Lemma filter_nil_iff {A : Type} (f : A -> bool) (l : list A) :
  List.filter f l = [] <-> forall x, In x l -> f x = false.
Proof.
  induction l as [|y l IH]; simpl.
  - split; [intros _ x []|reflexivity].
  - destruct (f y) eqn:Hy.
    + split; [discriminate|]. intros H. specialize (H y (or_introl eq_refl)). congruence.
    + rewrite IH. split.
      * intros H x [<-|Hin]; auto.
      * intros H x Hin. apply H. right. exact Hin.
Qed.

Lemma groups_of_step (key_of : located -> option string) (seen : list located)
                     (groups : list (string * list located)) (v : located) :
  groups_of key_of seen groups ->
  groups_of key_of (seen ++ [v])
            (match key_of v with
             | Some k => group_append k v groups
             | None => groups
             end).
Proof.
  intros (Hnd & Hfiles & Hkeys).
  destruct (key_of v) as [key|] eqn:Hv.
  - split; [|split].
    + rewrite group_append_keys.
      destruct (existsb _ _) eqn:He; [exact Hnd|].
      apply NoDup_app. split; [exact Hnd|]. split.
      * intros x Hx Hx'. apply list_elem_of_In in Hx, Hx'.
        destruct Hx' as [<-|[]]. apply existsb_eqb_in in Hx. congruence.
      * apply NoDup_singleton.
    + intros k files Hin. rewrite filter_snoc, Hv.
      destruct (group_append_in _ _ _ _ _ Hnd Hin)
        as [[Hk Hin']|[-> [[old [Hin' ->]]|[Hnot ->]]]].
      * destruct (Hfiles _ _ Hin') as [Hne Heq].
        apply String.eqb_neq in Hk. rewrite (String.eqb_sym key k), Hk, app_nil_r.
        split; assumption.
      * destruct (Hfiles _ _ Hin') as [Hne Heq].
        rewrite String.eqb_refl, <- Heq. split; [|reflexivity].
        destruct old; discriminate.
      * rewrite String.eqb_refl. split; [discriminate|].
        assert (Hnil : List.filter
                         (fun v0 => match key_of v0 with
                                    | Some k' => String.eqb k' key
                                    | None => false
                                    end) seen = []).
        { apply filter_nil_iff. intros x Hx.
          destruct (key_of x) as [k'|] eqn:Hkx; [|reflexivity].
          destruct (String.eqb k' key) eqn:He; [|reflexivity].
          apply String.eqb_eq in He. subst k'. exfalso. apply Hnot.
          exact (Hkeys _ _ Hx Hkx). }
        rewrite Hnil. reflexivity.
    + intros x k Hx Hkx. rewrite group_append_keys.
      apply in_app_or in Hx as [Hx|[<-|[]]].
      * specialize (Hkeys _ _ Hx Hkx).
        destruct (existsb _ _); [exact Hkeys|apply in_or_app; left; exact Hkeys].
      * assert (k = key) by congruence. subst k.
        destruct (existsb _ _) eqn:He.
        -- apply existsb_eqb_in. exact He.
        -- apply in_or_app. right. left. reflexivity.
  - split; [exact Hnd|]. split.
    + intros k files Hin. rewrite filter_snoc, Hv, app_nil_r. exact (Hfiles _ _ Hin).
    + intros x k Hx Hkx. apply in_app_or in Hx as [Hx|[<-|[]]]; [|congruence].
      exact (Hkeys _ _ Hx Hkx).
Qed.

Lemma groups_of_fold (key_of : located -> option string) (vs seen : list located)
                     (groups : list (string * list located)) :
  groups_of key_of seen groups ->
  groups_of key_of (seen ++ vs)
            (fold_left (fun groups v =>
                          match key_of v with
                          | Some k => group_append k v groups
                          | None => groups
                          end) vs groups).
Proof.
  revert seen groups. induction vs as [|v vs IH]; intros seen groups H; simpl.
  - rewrite app_nil_r. exact H.
  - replace (seen ++ v :: vs) with ((seen ++ [v]) ++ vs)
      by (rewrite <- app_assoc; reflexivity).
    apply IH. apply groups_of_step. exact H.
Qed.

Lemma best_group_spec (groups : list (string * list located))
                      (best : list located) (best_total : Z) :
  exists total : Z,
    (best_total <= total)%Z
    /\ (forall k files, In (k, files) groups -> (size_sum files <= total)%Z)
    /\ ((total = best_total /\ best_group groups best best_total = best)
        \/ (exists k files,
              In (k, files) groups
              /\ Permutation files (best_group groups best best_total)
              /\ total = size_sum files)).
Proof.
  revert best best_total.
  induction groups as [|[k files] rest IH]; intros best best_total.
  - exists best_total. split; [lia|]. split; [intros ? ? []|]. left. split; reflexivity.
  - cbn [best_group].
    set (files_sorted :=
           sorted_by (fun p q => (segment_index p <=? segment_index q)%Z) files).
    assert (Hperm : Permutation files files_sorted) by apply sorted_by_perm.
    change (fold_left (fun acc p => (acc + st_size (snd p))%Z) files_sorted 0%Z)
      with (size_sum files_sorted).
    rewrite <- (size_sum_perm _ _ Hperm).
    destruct (best_total <? size_sum files)%Z eqn:Hlt.
    + apply Z.ltb_lt in Hlt.
      destruct (IH files_sorted (size_sum files))
        as (total & Hle & Hall & [[-> ->]|(k' & files' & Hin & Hp & ->)]).
      * exists (size_sum files). split; [lia|]. split.
        -- intros k0 f0 [[= <- <-]|Hin]; [lia|exact (Hall _ _ Hin)].
        -- right. exists k, files. split; [left; reflexivity|]. split; [exact Hperm|reflexivity].
      * exists (size_sum files'). split; [lia|]. split.
        -- intros k0 f0 [[= <- <-]|Hin0]; [lia|exact (Hall _ _ Hin0)].
        -- right. exists k', files'. split; [right; exact Hin|]. split; [exact Hp|reflexivity].
    + apply Z.ltb_ge in Hlt.
      destruct (IH best best_total)
        as (total & Hle & Hall & [[-> ->]|(k' & files' & Hin & Hp & ->)]).
      * exists best_total. split; [lia|]. split.
        -- intros k0 f0 [[= <- <-]|Hin]; [lia|exact (Hall _ _ Hin)].
        -- left. split; reflexivity.
      * exists (size_sum files'). split; [lia|]. split.
        -- intros k0 f0 [[= <- <-]|Hin0]; [lia|exact (Hall _ _ Hin0)].
        -- right. exists k', files'. split; [right; exact Hin|]. split; [exact Hp|reflexivity].
Qed.

Lemma fold_left_ext {A B : Type} (f g : A -> B -> A) (l : list B) (a : A) :
  (forall a b, f a b = g a b) -> fold_left f l a = fold_left g l a.
Proof.
  intros H. revert a. induction l as [|b l IH]; intros a; simpl; [reflexivity|].
  rewrite H. apply IH.
Qed.

(** X12: on a disc the segments returned are exactly the .vob files of one
    title set of the first VIDEO_TS directory, in some order, and no title
    set of that directory holds more bytes; nothing is returned only when
    no .vob file there is named as a segment of a title set. *)
Theorem dvd_group_is_largest_title_set
    (folder : node) (rel : list string) (vts_dir : node) (entries : list node) :
  find (fun p => is_video_ts_dir (snd p)) (rglob [] folder) = Some (rel, vts_dir) ->
  iterdir vts_dir = Ok entries ->
  exists segments,
    dvd_group_segments folder = Ok segments
    /\ match segments with
       | [] => forall v, In v (vob_files rel entries) ->
                         title_set_key (node_name (snd v)) = None
       | _ :: _ =>
           exists key,
             Permutation segments
                         (List.filter (of_title_set key) (vob_files rel entries))
             /\ forall key',
                  (size_sum (List.filter (of_title_set key') (vob_files rel entries))
                   <= size_sum segments)%Z
       end.
Proof.
  intros Hfind Hiter. unfold dvd_group_segments. rewrite Hfind, Hiter.
  eexists. split; [reflexivity|].
  fold (vob_files rel entries).
  set (vobs := vob_files rel entries).
  set (key_of := fun v : located => title_set_key (node_name (snd v))).
  rewrite (fold_left_ext _
             (fun groups v => match key_of v with
                              | Some k => group_append k v groups
                              | None => groups
                              end)).
  2:{ intros a b. unfold key_of, title_set_key.
      destruct (Re.match_ _ _); reflexivity. }
  assert (Hg0 : groups_of key_of [] []).
  { split; [constructor|]. split; [intros ? ? []|intros ? ? []]. }
  pose proof (groups_of_fold key_of vobs [] [] Hg0) as Hg. simpl in Hg.
  set (groups := fold_left _ vobs []) in *.
  destruct Hg as (Hnd & Hfiles & Hkeys).
  destruct (best_group_spec groups [] (-1))
    as (total & Hle & Hall & [[-> Hbest]|(k & files & Hin & Hperm & ->)]).
  - rewrite Hbest. intros v Hv.
    destruct (key_of v) as [k|] eqn:Hk; [|exact Hk]. exfalso.
    specialize (Hkeys v k Hv Hk). apply in_map_iff in Hkeys as [[k' files] [Hfst Hin]].
    specialize (Hall _ _ Hin). pose proof (size_sum_nonneg files). lia.
  - destruct (Hfiles _ _ Hin) as [Hne Heq].
    destruct (best_group groups [] (-1)) as [|s segs] eqn:Hbest.
    + apply Permutation_nil_r in Hperm. contradiction.
    + exists k. split.
      * rewrite <- Hperm, Heq. reflexivity.
      * intros key'. rewrite <- (size_sum_perm _ _ Hperm).
        destruct (List.filter (of_title_set key') vobs) as [|x l] eqn:Hf.
        { apply size_sum_nonneg. }
        assert (Hx : In x (List.filter (of_title_set key') vobs))
          by (rewrite Hf; left; reflexivity).
        apply List.filter_In in Hx as [Hxin Hxk]. unfold of_title_set in Hxk.
        destruct (title_set_key (node_name (snd x))) as [kx|] eqn:Hkx; [|discriminate].
        apply String.eqb_eq in Hxk. subst kx.
        specialize (Hkeys x key' Hxin Hkx).
        apply in_map_iff in Hkeys as [[k' files'] [Hfst Hin']]. simpl in Hfst. subst k'.
        destruct (Hfiles _ _ Hin') as [_ Heq'].
        specialize (Hall _ _ Hin'). rewrite <- Hf.
        change (List.filter (of_title_set key') vobs) with
          (List.filter (fun v => match key_of v with
                                 | Some k' => String.eqb k' key'
                                 | None => false
                                 end) vobs).
        rewrite <- Heq'. exact Hall.
Qed.

Lemma dvd_group_is_largest_title_set_witness :
  exists segments,
    dvd_group_segments two_title_sets = Ok segments
    /\ match segments with
       | [] => forall v,
                 In v (vob_files ["VIDEO_TS"]
                         [File "VIDEO_TS.VOB" "menu" true;
                          File "VTS_01_1.VOB" "abc" true;
                          File "vts_02_2.vob" "cd" true;
                          File "VTS_02_1.VOB" "ab" true]) ->
                 title_set_key (node_name (snd v)) = None
       | _ :: _ =>
           exists key,
             Permutation segments
               (List.filter (of_title_set key)
                  (vob_files ["VIDEO_TS"]
                     [File "VIDEO_TS.VOB" "menu" true;
                      File "VTS_01_1.VOB" "abc" true;
                      File "vts_02_2.vob" "cd" true;
                      File "VTS_02_1.VOB" "ab" true]))
             /\ forall key',
                  (size_sum
                     (List.filter (of_title_set key')
                        (vob_files ["VIDEO_TS"]
                           [File "VIDEO_TS.VOB" "menu" true;
                            File "VTS_01_1.VOB" "abc" true;
                            File "vts_02_2.vob" "cd" true;
                            File "VTS_02_1.VOB" "ab" true]))
                   <= size_sum segments)%Z
       end.
Proof.
  apply (dvd_group_is_largest_title_set two_title_sets ["VIDEO_TS"]
           (Dir "VIDEO_TS" true
              [File "VIDEO_TS.VOB" "menu" true;
               File "VTS_01_1.VOB" "abc" true;
               File "vts_02_2.vob" "cd" true;
               File "VTS_02_1.VOB" "ab" true])).
  - vm_compute. reflexivity.
  - reflexivity.
Defined.

Example two_title_sets_segments :
  dvd_group_segments two_title_sets
  = Ok [(["VIDEO_TS"; "VTS_02_1.VOB"], File "VTS_02_1.VOB" "ab" true);
        (["VIDEO_TS"; "vts_02_2.vob"], File "vts_02_2.vob" "cd" true)].
Proof. vm_compute. reflexivity. Qed.

(** * The drive of a folder *)

Lemma find_split {A : Type} (f : A -> bool) (l : list A) (x : A) :
  find f l = Some x ->
  exists l1 l2, l = l1 ++ x :: l2 /\ f x = true
                /\ forall y, In y l1 -> f y = false.
Proof.
  induction l as [|a l IH]; simpl; [discriminate|].
  destruct (f a) eqn:Ha.
  - intros [= <-]. exists [], l. split; [reflexivity|]. split; [exact Ha|intros y []].
  - intros H. destruct (IH H) as (l1 & l2 & -> & Hx & Hl1).
    exists (a :: l1), l2. split; [reflexivity|]. split; [exact Hx|].
    intros y [<-|Hy]; auto.
Qed.

Lemma find_none {A : Type} (f : A -> bool) (l : list A) :
  find f l = None -> forall y, In y l -> f y = false.
Proof.
  induction l as [|a l IH]; simpl; [intros _ y []|].
  destruct (f a) eqn:Ha; [discriminate|].
  intros H y [<-|Hy]; auto.
Qed.

(** X13: the drive recorded for a folder is a root whose text starts the
    text of the folder's path, and the longest such root; it is "." when
    no root does. *)
Theorem master_drive_is_longest_root (folder : string) (roots : list string) :
  let chosen := master_drive_name_for folder roots in
  (In chosen roots
   /\ startswith chosen folder = true
   /\ forall r, In r roots -> startswith r folder = true ->
                (String.length r <= String.length chosen)%nat)
  \/ (chosen = "."
      /\ forall r, In r roots -> startswith r folder = false).
Proof.
  unfold master_drive_name_for.
  set (le := fun r1 r2 : string => (String.length r2 <=? String.length r1)%nat).
  pose proof (sorted_by_perm le roots) as Hperm.
  assert (Hsorted : Sorted.StronglySorted (fun a b => le a b = true) (sorted_by le roots)).
  { apply Sorted.Sorted_StronglySorted.
    - intros a b c Hab Hbc. unfold le in *.
      apply Nat.leb_le in Hab, Hbc. apply Nat.leb_le. lia.
    - apply sorted_by_total_sorted. intros a b. unfold le.
      destruct (Nat.le_ge_cases (String.length a) (String.length b)) as [H|H];
        apply Nat.leb_le in H; tauto. }
  destruct (find _ _) as [r|] eqn:Hfind; simpl.
  - left. destruct (find_split _ _ _ Hfind) as (l1 & l2 & Heq & Hr & Hl1).
    split; [|split; [exact Hr|]].
    + apply (Permutation_in _ (Permutation_sym Hperm)).
      rewrite Heq. apply in_or_app. right. left. reflexivity.
    + intros r' Hin Hpre. apply (Permutation_in _ Hperm) in Hin.
      rewrite Heq in Hin, Hsorted.
      apply in_app_or in Hin as [Hin|[<-|Hin]].
      * rewrite (Hl1 _ Hin) in Hpre. discriminate.
      * lia.
      * clear Heq. induction l1 as [|a l1 IH].
        -- simpl in Hsorted. inversion Hsorted as [|? ? _ Hall]; subst.
           pose proof (proj1 (List.Forall_forall _ _) Hall r' Hin) as Hle.
           unfold le in Hle. apply Nat.leb_le in Hle. exact Hle.
        -- simpl in Hsorted. inversion Hsorted as [|? ? Hs _]; subst.
           apply IH; [exact Hs|]. intros y Hy. apply Hl1. right. exact Hy.
  - right. split; [reflexivity|]. intros r Hin.
    apply (find_none _ _ Hfind). apply (Permutation_in _ Hperm). exact Hin.
Qed.

(** The prefix is one of text, not of path components: a root is chosen
    for a folder of a sibling directory whose name continues the root's. *)
Example master_drive_textual_prefix :
  master_drive_name_for "/mnt/ab/show" ["/mnt/a"; "/mnt"] = "/mnt/a".
Proof. vm_compute. reflexivity. Qed.

(** * The shape of a location *)

Lemma city_region_country (pat s city country : string) :
  city_region pat s = Some (city, country) -> truthy country = true.
Proof.
  unfold city_region, has_key, get.
  destruct (Re.match_ _ s) as [m|]; [|discriminate].
  destruct (REGION_TO_COUNTRY !! upper (Re.group_str m 2)) as [v|] eqn:Hv;
    [|discriminate].
  intros [= _ <-]. exact (region_countries_nonempty _ _ Hv).
Qed.

Lemma split_parts_nonempty (pat s : string) :
  List.Forall (fun p => truthy p = true) (split_parts pat s).
Proof.
  unfold split_parts. apply List.Forall_forall. intros p Hin.
  apply in_map_iff in Hin as (q & <- & Hq).
  apply List.filter_In in Hq. exact (proj2 Hq).
Qed.

Lemma tier_comma_shape (lines : list string) (venue city country festival hint : string) :
  tier_comma lines = Some (venue, city, country, festival, hint) ->
  hint = "loc:comma" /\ truthy country = true /\ festival = "".
Proof.
  induction lines as [|ln lines IH]; [discriminate|].
  cbn [tier_comma].
  destruct (_ && names_country _) eqn:Hc; [|exact IH].
  apply andb_true_iff in Hc as [_ Hc].
  pose proof (country_of_nonempty _ Hc) as Hne.
  destruct (3 <=? _)%nat.
  - destruct (city_region _ _) as [[c rc]|]; rewrite ?Hne;
      intros [= _ _ <- <- <-]; auto.
  - intros [= _ _ <- <- <-]. auto.
Qed.

Lemma tier_stack_shape (lines : list string) (venue city country festival hint : string) :
  tier_stack lines = Some (venue, city, country, festival, hint) ->
  hint = "loc:stack" /\ truthy country = true /\ festival = "".
Proof.
  intros H. destruct (tier_stack_found _ _ H)
    as (before & v & s & t & after & _ & Ht & _ & Heq).
  injection Heq as _ _ -> -> ->.
  repeat split. apply country_of_nonempty, Ht.
Qed.

Lemma tier_eventline_shape (lines : list string)
                           (venue city country festival hint : string) :
  tier_eventline lines = Some (venue, city, country, festival, hint) ->
  hint = "loc:eventline" /\ truthy country = true.
Proof.
  induction lines as [|ln lines IH]; [discriminate|].
  destruct lines as [|nxt rest]; [discriminate|].
  cbn [tier_eventline].
  destruct (Re.match_ _ ln) as [m|]; [|exact IH].
  destruct (city_region _ nxt) as [[c k]|] eqn:Hcr.
  - intros [= _ _ <- _ <-]. split; [reflexivity|].
    exact (city_region_country _ _ _ _ Hcr).
  - destruct (split_parts _ nxt) as [|c [|pr2 [|x l]]]; try exact IH.
    destruct (names_country pr2) eqn:Hp; [|exact IH].
    intros [= _ _ <- _ <-]. split; [reflexivity|].
    apply country_of_nonempty, Hp.
Qed.

Lemma tier_city_shape (lines : list string) (venue city country festival hint : string) :
  tier_city lines = Some (venue, city, country, festival, hint) ->
  (hint = "loc:cityregion" \/ hint = "loc:citycountry" /\ truthy city = true)
  /\ venue = "" /\ truthy country = true /\ festival = "".
Proof.
  induction lines as [|ln lines IH]; [discriminate|].
  cbn [tier_city].
  destruct (city_region _ ln) as [[c k]|] eqn:Hcr.
  - intros [= <- _ <- <- <-]. repeat split; auto.
    exact (city_region_country _ _ _ _ Hcr).
  - pose proof (split_parts_nonempty "\s*,\s*" ln) as Hparts.
    destruct (split_parts _ ln) as [|c [|pr2 [|x l]]]; try exact IH.
    destruct (names_country pr2) eqn:Hp; [|exact IH].
    intros [= <- <- <- <- <-]. repeat split; auto.
    + right. split; [reflexivity|]. inversion Hparts; assumption.
    + apply country_of_nonempty, Hp.
Qed.

Lemma folder_fallback_shape (folder_name venue city country hint : string) :
  _folder_name_loc_fallback folder_name = (venue, city, country, hint) ->
  (hint = "loc:folder" /\ truthy venue = true /\ truthy city = true)
  \/ (hint = "" /\ venue = "" /\ city = "" /\ country = "").
Proof.
  unfold _folder_name_loc_fallback.
  set (cand := match Re.search _ folder_name with
               | Some m => strip (Re.group_str m 1)
               | None => folder_name
               end).
  pose proof (split_parts_nonempty _SEP cand) as Hparts.
  destruct (split_parts _SEP cand) as [|v [|c [|k rest]]].
  - intros [= <- <- <- <-]. right. auto.
  - intros [= <- <- <- <-]. right. auto.
  - intros [= <- <- <- <-]. left.
    inversion Hparts as [|? ? Hv Hrest]; subst. inversion Hrest; subst. auto.
  - intros [= <- <- <- <-]. left.
    inversion Hparts as [|? ? Hv Hrest]; subst. inversion Hrest; subst. auto.
Qed.

(** X14: the hint of a location names the tier that produced it.  A location
    read from the notes always has a country; one taken from the folder
    name always has a venue and a city; with no hint there is no venue,
    city or country; and a festival is only given with the hint
    loc:eventline or with no hint. *)
Theorem location_hint_shape (notes folder_name : string) :
  let '(venue, city, country, festival, hint) := parse_location notes folder_name in
  (mem hint ["loc:comma"; "loc:stack"; "loc:cityregion"; "loc:citycountry"] = true
   /\ country <> "" /\ festival = "")
  \/ (hint = "loc:eventline" /\ country <> "")
  \/ (hint = "loc:folder" /\ venue <> "" /\ city <> "" /\ festival = "")
  \/ (hint = "" /\ venue = "" /\ city = "" /\ country = "").
Proof.
  assert (Hne : forall s, truthy s = true -> s <> "") by (intros s H ->; discriminate).
  assert (Hfolder : forall v c k h,
             _folder_name_loc_fallback folder_name = (v, c, k, h) ->
             (h = "loc:folder" /\ v <> "" /\ c <> "")
             \/ (h = "" /\ v = "" /\ c = "" /\ k = "")).
  { intros v c k h H.
    destruct (folder_fallback_shape _ _ _ _ _ H) as [(-> & Hv & Hc)|H'];
      [left|right; exact H']. auto. }
  unfold parse_location. destruct (truthy notes); cbn [negb]; cbv iota.
  - destruct (tier_comma _) as [[[[[v c] k] f] h]|] eqn:H1.
    { apply tier_comma_shape in H1 as (-> & Hk & ->). left. auto. }
    destruct (tier_stack _) as [[[[[v c] k] f] h]|] eqn:H2.
    { apply tier_stack_shape in H2 as (-> & Hk & ->). left. auto. }
    destruct (tier_eventline _) as [[[[[v c] k] f] h]|] eqn:H3.
    { apply tier_eventline_shape in H3 as (-> & Hk). right. left. auto. }
    destruct (tier_city _) as [[[[[v c] k] f] h]|] eqn:H4.
    { apply tier_city_shape in H4 as (Hh & -> & Hk & ->). left.
      destruct Hh as [->|[-> _]]; auto. }
    unfold tier_folder.
    destruct (_folder_name_loc_fallback folder_name) as [[[v c] k] h] eqn:H5.
    destruct (Hfolder _ _ _ _ eq_refl) as [(-> & Hv & Hc)|(-> & -> & -> & ->)].
    + assert (Ht : truthy v = true) by (destruct v; [contradiction|reflexivity]).
      rewrite Ht. cbn [orb]. right. right. left. auto.
    + cbn [truthy orb]. unfold tier_festival.
      destruct (Re.search _ notes); right; right; right; auto.
  - destruct (_folder_name_loc_fallback folder_name) as [[[v c] k] h] eqn:H5.
    destruct (Hfolder _ _ _ _ eq_refl) as [(-> & Hv & Hc)|(-> & -> & -> & ->)].
    + right. right. left. auto.
    + right. right. right. auto.
Qed.

(** * Titles and sections *)

Lemma letter_pattern :
  Re.compile "[A-Za-z]"
  = {| Re.p_regex := Re.RSet false [Re.CRange "A" "Z"; Re.CRange "a" "z"];
       Re.p_ignorecase := false;
       Re.p_multiline := false;
       Re.p_groups := 0 |}.
Proof. vm_compute. reflexivity. Qed.

Lemma class_letters (x : ascii) :
  Re.class_match false [Re.CRange "A" "Z"; Re.CRange "a" "z"] x = is_ascii_alpha x.
Proof.
  destruct x as [[] [] [] [] [] [] [] []]; vm_compute; reflexivity.
Qed.

Lemma attempt_letter (before_rev s : list ascii) :
  Re.attempt (Re.compile "[A-Za-z]") before_rev s
  = match s with
    | x :: s' =>
        if is_ascii_alpha x
        then Some (Re.Match (string_of_list_ascii (rev before_rev))
                            (String x EmptyString) (string_of_list_ascii s') [])
        else None
    | [] => None
    end.
Proof.
  rewrite letter_pattern. unfold Re.attempt. cbn [Re.p_regex Re.p_ignorecase Re.p_multiline Re.run].
  destruct s as [|x s']; [reflexivity|].
  rewrite class_letters. cbn [xorb]. destruct (is_ascii_alpha x); [|reflexivity].
  unfold Re.consumed. cbn [List.length].
  replace (S (List.length s') - List.length s')%nat with 1%nat by lia.
  reflexivity.
Qed.

Lemma scan_letters (fuel : nat) (before_rev gap_rev s : list ascii) :
  (List.length s < fuel)%nat ->
  List.length (fst (Re.scan fuel (Re.compile "[A-Za-z]") before_rev gap_rev s))
  = List.length (List.filter is_ascii_alpha s).
Proof.
  revert before_rev gap_rev s.
  induction fuel as [|fuel IH]; intros before_rev gap_rev s Hlen; [lia|].
  cbn [Re.scan]. rewrite attempt_letter.
  destruct s as [|x s']; [reflexivity|].
  cbn [List.length] in Hlen. cbn [List.filter].
  destruct (is_ascii_alpha x).
  - cbn [Re.m_text String.length firstn skipn].
    specialize (IH (rev [x] ++ before_rev) [] s' ltac:(lia)).
    change (firstn 0 s') with (@nil ascii). change (skipn 0 s') with s'.
    destruct (Re.scan fuel _ _ _ s') as [ms tail]. cbn [fst List.length] in *.
    rewrite IH. reflexivity.
  - specialize (IH (x :: before_rev) (x :: gap_rev) s' ltac:(lia)). exact IH.
Qed.

Lemma letter_count_letters (title : string) :
  letter_count title = ascii_letters title.
Proof.
  unfold letter_count, ascii_letters, Re.findall, Re.finditer.
  rewrite length_map. apply scan_letters.
  assert (H : forall s, List.length (list_ascii_of_string s) = String.length s).
  { induction s; simpl; congruence. }
  rewrite H. lia.
Qed.

Lemma lstrip_by_first (p : ascii -> bool) (s : string) (c : ascii) :
  first_char (lstrip_by p s) = Some c -> p c = false.
Proof.
  induction s as [|a s IH]; simpl; [discriminate|].
  destruct (p a) eqn:Ha; [exact IH|]. simpl. intros [= <-]. exact Ha.
Qed.

Lemma rstrip_by_first (p : ascii -> bool) (s : string) (c : ascii) :
  first_char (rstrip_by p s) = Some c -> first_char s = Some c.
Proof.
  destruct s as [|a s]; simpl; [discriminate|].
  destruct (rstrip_by p s); [destruct (p a)|]; simpl; [discriminate|auto|auto].
Qed.

Lemma rstrip_by_last (p : ascii -> bool) (s : string) (c : ascii) :
  last_char (rstrip_by p s) = Some c -> p c = false.
Proof.
  induction s as [|a s IH]; simpl; [discriminate|].
  destruct (rstrip_by p s) as [|b t] eqn:Hr.
  - destruct (p a) eqn:Ha; simpl; [discriminate|]. intros [= <-]. exact Ha.
  - intros H. apply IH. exact H.
Qed.

Lemma strip_chars_trimmed (chars s : string) :
  trimmed_of chars (strip_chars chars s).
Proof.
  unfold trimmed_of, strip_chars, strip_by. split; intros c H.
  - apply rstrip_by_first in H.
    exact (lstrip_by_first (fun c => mem_char c chars) _ _ H).
  - exact (rstrip_by_last (fun c => mem_char c chars) _ _ H).
Qed.

Lemma cleaned_title_shape_aux (line : string) :
  match clean_song_title line with
  | Some title =>
      (2 <= ascii_letters title)%nat
      /\ title <> ""
      /\ trimmed_of " .-" title
  | None => True
  end.
Proof.
  assert (Hne : forall t, (2 <= ascii_letters t)%nat -> t <> "").
  { intros t H ->. vm_compute in H. lia. }
  unfold clean_song_title.
  destruct (truthy line); [|exact I].
  destruct (Re.match_ _ (strip line)) as [m|].
  - rewrite letter_count_letters.
    destruct (2 <=? _)%nat eqn:Hc; [|exact I].
    apply Nat.leb_le in Hc.
    split; [exact Hc|]. split; [exact (Hne _ Hc)|]. apply strip_chars_trimmed.
  - destruct (Re.search NON_SONG_HINTS _); [exact I|].
    destruct (Re.match_ SONG_LINE _) as [m|]; [|exact I].
    rewrite letter_count_letters.
    destruct (_ <? 2)%nat eqn:Hc; [exact I|].
    apply Nat.ltb_ge in Hc.
    split; [exact Hc|]. split; [exact (Hne _ Hc)|]. apply strip_chars_trimmed.
Qed.

(** X15: a title that [clean_song_title] keeps holds at least two of the
    letters A-Z and a-z, so it is not empty, and neither begins nor ends
    with a blank, a dot or a hyphen. *)
Theorem cleaned_title_shape (line : string) :
  match clean_song_title line with
  | Some title =>
      (2 <= ascii_letters title)%nat
      /\ title <> ""
      /\ trimmed_of " .-" title
  | None => True
  end.
Proof. exact (cleaned_title_shape_aux line). Qed.

Lemma first_occurrences_in (titles : list string) (t : string) :
  In t (first_occurrences titles) -> In t titles.
Proof.
  induction titles as [|u rest IH]; simpl; [tauto|].
  intros [->|Hin]; [left; reflexivity|].
  apply List.filter_In in Hin. right. apply IH. tauto.
Qed.

(** X16: every entry of the set list is the cleaned title of one of the
    candidate lines: it holds two letters at least and neither begins nor
    ends with a blank, a dot or a hyphen. *)
Theorem setlist_entries_are_titles (notes : string) :
  List.Forall
    (fun title =>
       (exists ln, In ln (setlist_candidates notes)
                   /\ clean_song_title ln = Some title)
       /\ (2 <= ascii_letters title)%nat
       /\ trimmed_of " .-" title)
    (setlist_entries notes).
Proof.
  apply List.Forall_forall. intros t Hin. unfold setlist_entries in Hin.
  apply in_firstn in Hin. rewrite collect_titles_first_occurrences in Hin.
  apply List.filter_In in Hin as [Hin _]. apply first_occurrences_in in Hin.
  apply in_flat_map in Hin as (ln & Hln & Ht).
  pose proof (cleaned_title_shape_aux ln) as Hshape.
  destruct (clean_song_title ln) as [t'|] eqn:Hc; [|destruct Ht].
  destruct (truthy t'); [|destruct Ht]. destruct Ht as [->|[]].
  destruct Hshape as (H2 & _ & Htr).
  split; [exists ln; auto|]. auto.
Qed.

(** * Sections *)

(** A line of the text that is not blank, is no anchor line, and stands
    after an anchor line. *)
Lemma section_loop_lines (anchor_re : Re.pattern) (lines done : list string)
                         (grabbing : bool) (collected : list string) :
  (grabbing = true ->
   exists a, In a done /\ Re.match_ anchor_re (strip a) <> None) ->
  List.Forall (section_line anchor_re (done ++ lines)) collected ->
  List.Forall (section_line anchor_re (done ++ lines))
              (section_loop anchor_re lines grabbing collected).
Proof.
  revert done grabbing collected.
  induction lines as [|ln lines IH]; intros done grabbing collected Hg Hc;
    [exact Hc|].
  assert (Heq : done ++ ln :: lines = (done ++ [ln]) ++ lines)
    by (rewrite <- app_assoc; reflexivity).
  cbn [section_loop].
  destruct (Re.match_ anchor_re (strip ln)) as [m|] eqn:Hm.
  - rewrite Heq in *. apply IH; [|exact Hc].
    intros _. exists ln. split; [apply in_or_app; right; left; reflexivity|].
    rewrite Hm. discriminate.
  - destruct grabbing.
    + destruct (String.eqb (strip ln) "") eqn:Hs.
      * destruct collected; [|exact Hc].
        rewrite Heq in *. apply IH; [|exact Hc].
        intros _. destruct (Hg eq_refl) as (a & Ha & Hma).
        exists a. split; [apply in_or_app; left; exact Ha|exact Hma].
      * destruct (Hg eq_refl) as (a & Ha & Hma).
        rewrite Heq. apply IH.
        -- intros _. exists a. split; [apply in_or_app; left; exact Ha|exact Hma].
        -- apply List.Forall_app. split; [rewrite <- Heq; exact Hc|].
           constructor; [|constructor].
           exists done, ln, lines. rewrite <- Heq.
           split; [reflexivity|]. split; [reflexivity|].
           split; [apply String.eqb_neq; exact Hs|].
           split; [exact Hm|]. exists a. split; assumption.
    + rewrite Heq in *. apply IH; [discriminate|exact Hc].
Qed.

(** X17: every line of a section is a line of the text, without the white
    space at its end, that is not blank, is not itself an anchor line and
    stands below an anchor line; a text without an anchor line has no
    section. *)
Theorem section_lines_follow_anchor (text : string) (anchor_re : Re.pattern) :
  List.Forall (section_line anchor_re (splitlines text))
              (extract_section_by_anchor text anchor_re)
  /\ ((forall ln, In ln (splitlines text) ->
                  Re.match_ anchor_re (strip ln) = None) ->
      extract_section_by_anchor text anchor_re = []).
Proof.
  assert (H : List.Forall (section_line anchor_re (splitlines text))
                          (extract_section_by_anchor text anchor_re)).
  { unfold extract_section_by_anchor. destruct (truthy text); [|constructor].
    apply (section_loop_lines anchor_re (splitlines text) [] false []).
    - discriminate.
    - constructor. }
  split; [exact H|]. intros Hno.
  destruct (extract_section_by_anchor text anchor_re) as [|out rest]; [reflexivity|].
  inversion H as [|? ? Hout _]; subst.
  destruct Hout as (before & ln & after & Heq & _ & _ & _ & a & Ha & Hma).
  exfalso. apply Hma. apply Hno. rewrite Heq. apply in_or_app. left. exact Ha.
Qed.

(** * The facts read from notes and names *)

Lemma dict_of_from (items : list (string * string)) (d : gmap string string)
                   (k v : string) :
  fold_left (fun d kv => <[kv.1 := kv.2]> d) items d !! k = Some v ->
  In (k, v) items \/ d !! k = Some v.
Proof.
  revert d. induction items as [|[k0 v0] items IH]; intros d; simpl; [tauto|].
  intros H. destruct (IH _ H) as [Hin|Hd]; [left; right; exact Hin|].
  destruct (decide (k0 = k)) as [->|Hne].
  - rewrite lookup_insert_eq in Hd. injection Hd as ->. left. left. reflexivity.
  - rewrite lookup_insert_ne in Hd by exact Hne. right. exact Hd.
Qed.

Lemma dict_of_lookup (items : list (string * string)) (k v : string) :
  dict_of items !! k = Some v -> In (k, v) items.
Proof.
  intros H. destruct (dict_of_from items ∅ k v H) as [Hin|He]; [exact Hin|].
  rewrite lookup_empty in He. discriminate.
Qed.

Lemma dict_of_from_key (items : list (string * string)) (d : gmap string string)
                       (k : string) :
  In k (map fst items) \/ d !! k <> None ->
  fold_left (fun d kv => <[kv.1 := kv.2]> d) items d !! k <> None.
Proof.
  revert d. induction items as [|[k0 v0] items IH]; intros d; simpl.
  - intros [[]|H]; exact H.
  - intros H. apply IH.
    destruct (decide (k0 = k)) as [->|Hne].
    + right. rewrite lookup_insert_eq. discriminate.
    + destruct H as [[Heq|Hin]|Hd]; [contradiction|left; exact Hin|].
      right. rewrite lookup_insert_ne by exact Hne. exact Hd.
Qed.

Lemma alias_names_canonical :
  forallb (fun kv => mem kv.2 Facts.BAND_NAMES) Facts.BAND_ALIASES_items = true.
Proof. vm_compute. reflexivity. Qed.

Lemma mem_In (x : string) (xs : list string) : mem x xs = true <-> In x xs.
Proof.
  unfold mem. rewrite existsb_exists. split.
  - intros (y & Hy & He). apply String.eqb_eq in He. subst. exact Hy.
  - intros H. exists x. split; [exact H|apply String.eqb_refl].
Qed.

Lemma band_pattern_keys (t : string * Re.pattern * string) :
  In t Facts._BAND_PATTERNS ->
  In t.1.1 (Facts.BAND_NAMES ++ map fst Facts.BAND_ALIASES_items).
Proof.
  intros Hin. unfold Facts._BAND_PATTERNS, Facts._compile_band_patterns in Hin.
  apply (Permutation_in _ (Permutation_sym (sorted_by_perm _ _))) in Hin.
  apply in_map_iff in Hin as (n & Heq & Hn).
  apply (f_equal (fun t : string * Re.pattern * string => t.1.1)) in Heq.
  cbn [fst] in Heq. rewrite <- Heq. exact Hn.
Qed.

Lemma search_longest_canonical (hay artist : string) :
  Facts.search_longest hay = Some artist -> In artist Facts.BAND_NAMES.
Proof.
  unfold Facts.search_longest.
  destruct (negb (truthy hay)); [discriminate|].
  destruct (find _ Facts._BAND_PATTERNS) as [t|] eqn:Hfind; [|discriminate].
  apply find_some in Hfind as [Hin _]. apply band_pattern_keys in Hin.
  intros [= <-].
  destruct (Facts.BAND_ALIASES !! t.1.1) as [name|] eqn:Ha.
  - apply dict_of_lookup in Ha.
    pose proof (proj1 (forallb_forall _ _) alias_names_canonical _ Ha) as Hm.
    apply mem_In in Hm. exact Hm.
  - apply in_app_or in Hin as [Hn|Hn]; [exact Hn|]. exfalso.
    revert Ha. apply dict_of_from_key. left. exact Hn.
Qed.

Lemma resolve_artist_cases (folder notes : string) :
  let artist := Facts.resolve_artist folder notes in
  In artist Facts.BAND_NAMES
  \/ (artist = strip (Facts.parent_name folder)
      /\ artist <> ""
      /\ mem (lower artist) ["video_ts"; "audio_ts"] = false)
  \/ artist = Facts.folder_name folder.
Proof.
  assert (Hfallback :
    let parent := strip (Facts.parent_name folder) in
    let a := if truthy parent && negb (mem (lower parent) ["video_ts"; "audio_ts"])
             then parent else Facts.folder_name folder in
    (a = strip (Facts.parent_name folder) /\ a <> ""
     /\ mem (lower a) ["video_ts"; "audio_ts"] = false)
    \/ a = Facts.folder_name folder).
  { cbv zeta. set (parent := strip (Facts.parent_name folder)).
    destruct (truthy parent) eqn:Ht; cbn [andb]; [|right; reflexivity].
    destruct (mem (lower parent) ["video_ts"; "audio_ts"]) eqn:Hm; cbn [negb];
      [right; reflexivity|].
    left. split; [reflexivity|]. split; [|exact Hm].
    intros He. rewrite He in Ht. discriminate. }
  unfold Facts.resolve_artist. cbv zeta.
  destruct (find _ (Facts.path_parts folder)) as [seg|] eqn:Hseg.
  - left. apply find_some in Hseg as [_ Hkey]. unfold has_key, get in *.
    destruct (Facts._compile_search_set Facts.BAND_NAMES
                !! Facts._normalize_for_match seg) as [name|] eqn:Hl;
      [|discriminate].
    apply dict_of_lookup in Hl. apply in_map_iff in Hl as (n & Heq & Hn).
    apply (f_equal snd) in Heq. cbn [snd] in Heq. rewrite <- Heq. exact Hn.
  - set (a1 := Facts.search_longest _).
    set (a2 := Facts.search_longest _).
    set (a3 := Facts.search_longest _).
    assert (Hor : forall a, Facts.or_else a1 (Facts.or_else a2 a3) = Some a ->
                            truthy a = true -> In a Facts.BAND_NAMES).
    { intros a Ha _. unfold Facts.or_else in Ha.
      destruct a1 as [x1|] eqn:H1.
      - destruct (truthy x1).
        + injection Ha as <-. exact (search_longest_canonical _ _ H1).
        + destruct a2 as [x2|] eqn:H2.
          * destruct (truthy x2).
            -- injection Ha as <-. exact (search_longest_canonical _ _ H2).
            -- exact (search_longest_canonical _ _ Ha).
          * exact (search_longest_canonical _ _ Ha).
      - destruct a2 as [x2|] eqn:H2.
        + destruct (truthy x2).
          * injection Ha as <-. exact (search_longest_canonical _ _ H2).
          * exact (search_longest_canonical _ _ Ha).
        + exact (search_longest_canonical _ _ Ha). }
    destruct (Facts.or_else a1 (Facts.or_else a2 a3)) as [a|] eqn:Ha.
    + destruct (truthy a) eqn:Ht; [left; exact (Hor a eq_refl Ht)|].
      right. exact Hfallback.
    + right. exact Hfallback.
Qed.


Example artist_of_alias :
  Facts.resolve_artist "/m/Shows/rhcp_1999-07-25 woodstock" "" = "Red Hot Chili Peppers".
Proof. vm_compute. reflexivity. Qed.

Lemma event_loop_shape (lines : list string) (existing_venue : string) :
  let '(event, venue_override, hint) := Facts.event_loop lines existing_venue in
  ((hint = "evt:eventline"
    /\ exists ln, In ln lines
                  /\ Re.search (Re.compile "\s[–\-]\s") (strip ln) <> None
                  /\ Re.search (Re.compile_i "(concert|festival|live|rockpalast|tour|show)")
                               (strip ln) <> None)
   \/ (hint = "" /\ event = "" /\ venue_override = ""))
  /\ (truthy existing_venue = true -> venue_override = "").
Proof.
  induction lines as [|ln lines IH].
  { cbn [Facts.event_loop]. split; [right; repeat split|reflexivity]. }
  assert (Hrest :
    let '(event, venue_override, hint) := Facts.event_loop lines existing_venue in
    ((hint = "evt:eventline"
      /\ exists l, In l (ln :: lines)
                   /\ Re.search (Re.compile "\s[–\-]\s") (strip l) <> None
                   /\ Re.search (Re.compile_i "(concert|festival|live|rockpalast|tour|show)")
                                (strip l) <> None)
     \/ (hint = "" /\ event = "" /\ venue_override = ""))
    /\ (truthy existing_venue = true -> venue_override = "")).
  { destruct (Facts.event_loop lines existing_venue) as [[e v] h].
    destruct IH as [[(Hh & l & Hl & H1 & H2)|H] Hv]; split; auto.
    left. split; [exact Hh|]. exists l. split; [right; exact Hl|]. auto. }
  cbn [Facts.event_loop]. cbv zeta.
  destruct (negb (truthy (strip ln))); [exact Hrest|].
  destruct (Re.search (Re.compile_i _) (strip ln)) eqn:H1; [|exact Hrest].
  destruct (Re.search (Re.compile "\s[–\-]\s") (strip ln)) eqn:H2; [|exact Hrest].
  destruct (Re.match_ _ (strip ln)) as [m|]; [|exact Hrest].
  split.
  - left. split; [reflexivity|]. exists ln. split; [left; reflexivity|].
    rewrite H1, H2. split; discriminate.
  - intros Hv. rewrite Hv. reflexivity.
Qed.

(** X19: an event is reported with the hint evt:eventline, and then from a
    line of the notes that holds a dash between white space and one of
    the event words; else event, venue and hint are all empty.  A venue
    is only proposed when none is known yet. *)
Theorem event_keeps_known_venue (notes existing_venue : string) :
  let '(event, venue_override, hint) :=
    Facts.extract_event_and_split_venue notes existing_venue in
  ((hint = "evt:eventline"
    /\ exists ln, In ln (splitlines notes)
                  /\ Re.search (Re.compile "\s[–\-]\s") (strip ln) <> None
                  /\ Re.search (Re.compile_i "(concert|festival|live|rockpalast|tour|show)")
                               (strip ln) <> None)
   \/ (hint = "" /\ event = "" /\ venue_override = ""))
  /\ (truthy existing_venue = true -> venue_override = "").
Proof.
  unfold Facts.extract_event_and_split_venue.
  destruct (negb (truthy notes)); [split; auto|].
  apply event_loop_shape.
Qed.

Lemma anchors_loop_found (anchors : list Re.pattern) (ln : string)
                         (rest : list string) (found : string) :
  Facts.anchors_loop anchors ln rest = Some found ->
  (exists anchor, In anchor anchors /\ Re.match_ anchor (strip ln) <> None)
  /\ exists l, In l (firstn 5 rest) /\ found = strip l /\ found <> "".
Proof.
  induction anchors as [|anchor anchors IH]; cbn [Facts.anchors_loop];
    [discriminate|].
  destruct (Re.match_ anchor (strip ln)) eqn:Hm.
  - destruct (find _ (firstn 5 rest)) as [l|] eqn:Hf.
    + intros [= <-]. apply find_some in Hf as [Hin Ht]. split.
      * exists anchor. split; [left; reflexivity|]. rewrite Hm. discriminate.
      * exists l. split; [exact Hin|]. split; [reflexivity|].
        intros He. rewrite He in Ht. discriminate.
    + intros H. destruct (IH H) as [(a & Ha & Hma) Hl]. split; [|exact Hl].
      exists a. split; [right; exact Ha|exact Hma].
  - intros H. destruct (IH H) as [(a & Ha & Hma) Hl]. split; [|exact Hl].
    exists a. split; [right; exact Ha|exact Hma].
Qed.

Lemma lines_loop_found (anchors : list Re.pattern) (lines : list string) :
  Facts.lines_loop anchors lines = ""
  \/ exists (before : list string) (key : string) (after : list string) (l : string),
       lines = before ++ key :: after
       /\ (exists anchor, In anchor anchors /\ Re.match_ anchor (strip key) <> None)
       /\ In l (firstn 5 after)
       /\ Facts.lines_loop anchors lines = strip l
       /\ strip l <> "".
Proof.
  induction lines as [|ln lines IH]; [left; reflexivity|].
  cbn [Facts.lines_loop].
  destruct (Facts.anchors_loop anchors ln lines) as [found|] eqn:Ha.
  - right. destruct (anchors_loop_found _ _ _ _ Ha) as [Hanchor (l & Hl & -> & Hne)].
    exists [], ln, lines, l. auto.
  - destruct IH as [IH|(before & key & after & l & -> & Hk & Hl & Hr & Hne)];
      [left; exact IH|].
    right. exists (ln :: before), key, after, l. auto.
Qed.

(** X20: the line that [first_line_after_key] returns is one of the five
    lines below a line that an anchor matches, stripped, and is not
    blank; the result is empty otherwise. *)
Theorem first_line_is_near_anchor (text : string) (anchors : list Re.pattern) :
  Facts.first_line_after_key text anchors = ""
  \/ exists (before : list string) (key : string) (after : list string) (l : string),
       splitlines text = before ++ key :: after
       /\ (exists anchor, In anchor anchors /\ Re.match_ anchor (strip key) <> None)
       /\ In l (firstn 5 after)
       /\ Facts.first_line_after_key text anchors = strip l
       /\ strip l <> "".
Proof.
  unfold Facts.first_line_after_key.
  destruct (negb (truthy text)); [left; reflexivity|].
  apply lines_loop_found.
Qed.

(** * Key words *)

Lemma after_word_app (w1 w2 : list ascii) (prev : option ascii) :
  after_word (w1 ++ w2) prev = after_word w2 (after_word w1 prev).
Proof. unfold after_word. apply fold_left_app. Qed.

Lemma run_accepts (ml : bool) (r : Re.regex) :
  forall (w rest : list ascii) (prev : option ascii) (cs : Re.captures) (k : Re.cont),
    accepts r w = true ->
    (forall cs', k (after_word w prev) rest cs' <> None) ->
    Re.run false ml r prev (w ++ rest) cs k <> None.
Proof.
  induction r as [|c| | |neg items| | | |a IHa b IHb|a IHa b IHb|lo hi greedy a IHa|i a IHa];
    intros w rest prev cs k Hacc Hk; cbn [accepts] in Hacc; try discriminate.
  - destruct w; [|discriminate]. cbn [Re.run app]. apply Hk.
  - destruct w as [|x [|y w]]; try discriminate.
    cbn [Re.run app]. unfold Re.lit_match. rewrite Hacc. apply Hk.
  - destruct w as [|x [|y w]]; try discriminate.
    cbn [Re.run app]. rewrite Hacc. apply Hk.
  - apply existsb_exists in Hacc as (n & _ & Hn).
    apply andb_true_iff in Hn as [Ha Hb].
    rewrite <- (firstn_skipn n w), <- app_assoc. cbn [Re.run].
    apply IHa; [exact Ha|]. intros cs'.
    apply IHb; [exact Hb|]. intros cs''.
    rewrite <- after_word_app, firstn_skipn. apply Hk.
  - cbn [Re.run].
    destruct (Re.run false ml a prev (w ++ rest) cs k) eqn:Hr; [discriminate|].
    apply orb_true_iff in Hacc as [Ha|Hb].
    + exfalso. exact (IHa _ _ _ _ _ Ha Hk Hr).
    + apply IHb; assumption.
  - cbn [Re.run].
    set (more := fix more (n : nat) : Re.cont := fun p1 s1 cs1 => _).
    assert (Hmore : forall n p s cs0, k p s cs0 <> None -> more n p s cs0 <> None).
    { intros n p s cs0 H. destruct n; [exact H|]. cbn.
      destruct greedy.
      - destruct (Re.run false ml a p s cs0 _); [discriminate|exact H].
      - destruct (k p s cs0); [discriminate|contradiction]. }
    destruct w as [|x w].
    + apply Nat.eqb_eq in Hacc. subst lo. cbn [app]. apply Hmore, Hk.
    + apply andb_true_iff in Hacc as [Hacc Ha].
      apply andb_true_iff in Hacc as [Hlo Hhi]. apply Nat.leb_le in Hlo.
      assert (Hlen : forall l : list ascii,
                 (List.length rest <? List.length ((x :: w) ++ l ++ rest))%nat = true).
      { intros l. apply Nat.ltb_lt. rewrite !length_app. cbn. lia. }
      destruct lo as [|[|lo]]; [| |lia].
      * (* no round is required: one further round *)
        assert (Hfuel : exists n',
                   match hi with
                   | Some h => (h - 0)%nat
                   | None => List.length ((x :: w) ++ rest)
                   end = S n').
        { destruct hi as [h|].
          - apply Nat.leb_le in Hhi. exists (h - 1)%nat. lia.
          - cbn. eexists. reflexivity. }
        destruct Hfuel as [n' Hfuel]. rewrite Hfuel.
        assert (Hagain :
          Re.run false ml a prev ((x :: w) ++ rest) cs
                 (fun p2 s2 cs2 =>
                    if (List.length s2 <? List.length ((x :: w) ++ rest))%nat
                    then more n' p2 s2 cs2 else None) <> None).
        { apply IHa; [exact Ha|]. intros cs'.
          specialize (Hlen []). cbn [app] in Hlen. cbn [app]. rewrite Hlen.
          apply Hmore, Hk. }
        cbn. destruct greedy.
        -- destruct (Re.run false ml a prev _ cs _); [discriminate|contradiction].
        -- destruct (k prev _ cs); [discriminate|exact Hagain].
      * (* one round is required *)
        cbn. apply (IHa (x :: w) rest); [exact Ha|]. intros cs'. apply Hmore, Hk.
  - cbn [Re.run]. apply IHa; [exact Hacc|]. intros cs'. apply Hk.
Qed.

Lemma search_from_later (p : Re.pattern) (s1 s2 before_rev : list ascii) :
  Re.attempt p (rev s1 ++ before_rev) s2 <> None ->
  Re.search_from p before_rev (s1 ++ s2) <> None.
Proof.
  revert before_rev. induction s1 as [|x s1 IH]; intros before_rev H.
  - cbn [app rev] in *. destruct s2; cbn [Re.search_from];
      destruct (Re.attempt p before_rev _); try discriminate; contradiction.
  - cbn [app Re.search_from].
    destruct (Re.attempt p before_rev (x :: s1 ++ s2)); [discriminate|].
    apply IH. cbn [rev] in H. rewrite <- app_assoc in H. exact H.
Qed.

Lemma list_ascii_app (a b : string) :
  list_ascii_of_string (a +:+ b) = list_ascii_of_string a ++ list_ascii_of_string b.
Proof. induction a as [|c a IH]; simpl; [reflexivity|]. rewrite IH. reflexivity. Qed.

Lemma search_contains (p : Re.pattern) (w text : string) :
  Re.p_ignorecase p = false ->
  accepts (Re.p_regex p) (list_ascii_of_string w) = true ->
  contains w text ->
  Re.search p text <> None.
Proof.
  intros Hic Hacc (before & after & ->).
  unfold Re.search. rewrite !list_ascii_app.
  apply search_from_later. unfold Re.attempt. rewrite Hic.
  pose proof (run_accepts (Re.p_multiline p) (Re.p_regex p)
                (list_ascii_of_string w) (list_ascii_of_string after)
                (head (rev (list_ascii_of_string before) ++ []))
                [] (fun _ s' cs' => Some (s', cs')) Hacc) as H.
  destruct (Re.run false _ _ _ _ _ _) as [[s' cs']|]; [discriminate|].
  exfalso. apply H; [|reflexivity]. discriminate.
Qed.

Lemma lower_app (a b : string) : lower (a +:+ b) = lower a +:+ lower b.
Proof. induction a as [|c a IH]; simpl; [reflexivity|]. rewrite IH. reflexivity. Qed.

Lemma append_assoc (a b c : string) : (a +:+ b) +:+ c = a +:+ (b +:+ c).
Proof. induction a as [|x a IH]; [reflexivity|]. exact (f_equal (String x) IH). Qed.

Lemma proshot_words_accepted :
  forallb
    (fun w =>
       accepts
         (Re.p_regex
            (Re.compile "(pro-?shot|broadcast|tv|multicam|soundboard|sbd|webcast|ppv|dvd\s*author)"))
         (list_ascii_of_string w))
    proshot_words = true.
Proof. vm_compute. reflexivity. Qed.

(** X21: the recording type is Proshot whenever the notes or the name of
    the folder, in lower case, hold one of the words proshot, pro-shot,
    broadcast, tv, multicam, soundboard, sbd, webcast, ppv, dvdauthor or
    dvd author anywhere, be it inside another word. *)
Theorem proshot_word_anywhere (notes folder_name w : string) :
  In w proshot_words ->
  contains w (lower notes) \/ contains w (lower folder_name) ->
  Facts.determine_recording_type notes folder_name = "Proshot".
Proof.
  intros Hw Hc. unfold Facts.determine_recording_type. cbv zeta.
  assert (Hs : Re.search
                 (Re.compile "(pro-?shot|broadcast|tv|multicam|soundboard|sbd|webcast|ppv|dvd\s*author)")
                 (Facts.notes_and_name notes folder_name) <> None).
  { apply (search_contains _ w).
    - vm_compute. reflexivity.
    - exact (proj1 (forallb_forall _ _) proshot_words_accepted w Hw).
    - unfold Facts.notes_and_name. rewrite lower_app.
      destruct Hc as [(b & a & ->)|(b & a & Hn)].
      + exists b, (a +:+ lower (String "010"%char folder_name)).
        rewrite !append_assoc. reflexivity.
      + exists (lower notes +:+ String (lower_char "010"%char) b), a.
        change (lower (String "010"%char folder_name))
          with (String (lower_char "010"%char) (lower folder_name)).
        rewrite Hn, !append_assoc. reflexivity. }
  destruct (Re.search _ _); [reflexivity|contradiction].
Qed.

Lemma proshot_word_anywhere_witness :
  Facts.determine_recording_type "MTV Unplugged, audience shot" "1993-11-18" = "Proshot".
Proof.
  apply (proshot_word_anywhere "MTV Unplugged, audience shot" "1993-11-18" "tv").
  - vm_compute. tauto.
  - left. exists "m", " unplugged, audience shot". vm_compute. reflexivity.
Defined.

(** * The text cells of a row *)

Lemma prefix_length (n : nat) (s : string) : (String.length (prefix n s) <= n)%nat.
Proof.
  revert s. induction n as [|n IH]; intros s; [simpl; lia|].
  destruct s as [|c s]; simpl; [lia|]. specialize (IH s). lia.
Qed.

(** X22: no row has a Lineage or a Setlist cell of more than 2000
    characters, nor a Notes cell of more than 8000. *)
Theorem text_cells_bounded
    (cfg : run) (fs : string -> option node) (rs : list Row) :
  scan_roots cfg fs = Ok rs ->
  List.Forall
    (fun r => (String.length (Lineage r) <= 2000)%nat
              /\ (String.length (Setlist r) <= 2000)%nat
              /\ (String.length (Notes r) <= 8000)%nat)
    rs.
Proof.
  apply scan_roots_all. intros r (fpath & _ & [[now ->]|H]).
  - cbn. lia.
  - destruct H as (folder & now & row & rep & container & known & _ & _ & Hrow & ->).
    destruct (show_row_columns _ _ _ _ _ _ Hrow)
      as (c & notes & _ & _ & _ & _ & _ & Hl & Hs & Hn).
    destruct (link_checksum_columns cfg row rep known)
      as (_ & _ & _ & _ & Hl' & Hs' & Hn' & _).
    cbv zeta in *. rewrite Hl', Hs', Hn', Hl, Hs, Hn.
    repeat split; apply prefix_length.
Qed.

Lemma text_cells_bounded_witness :
  exists rs,
    scan_roots (example_run ["/m"]) (one_root "/m" three_copies) = Ok rs
    /\ List.Forall
         (fun r => (String.length (Lineage r) <= 2000)%nat
                   /\ (String.length (Setlist r) <= 2000)%nat
                   /\ (String.length (Notes r) <= 8000)%nat)
         rs.
Proof.
  destruct three_copies_scanned as [rs Hrs]. exists rs.
  split; [exact Hrs|exact (text_cells_bounded _ _ rs Hrs)].
Defined.

Lemma recording_type_values (notes folder_name : string) :
  mem (Facts.determine_recording_type notes folder_name)
      ["Proshot"; "Audience"; "Documentary"; ""] = true.
Proof.
  unfold Facts.determine_recording_type. cbv zeta.
  destruct (Re.search _ _); [reflexivity|].
  destruct (Re.search _ _); [reflexivity|].
  destruct (Re.search _ _); reflexivity.
Qed.

(** X23: in a run whose readers of notes and names are those of the
    program, every row has as its recording type Proshot, Audience,
    Documentary or nothing, and as its artist a name of the band list,
    the name of the parent directory of its folder or the name of the
    folder. *)
Theorem rows_artist_and_recording_type
    (h : host) (roots : list string) (header_only no_media do_checksums do_drive_id : bool)
    (fs : string -> option node) (rs : list Row) :
  scan_roots (Run (with_facts h) roots header_only no_media do_checksums do_drive_id) fs
  = Ok rs ->
  List.Forall
    (fun r =>
       mem (RecordingType r) ["Proshot"; "Audience"; "Documentary"; ""] = true
       /\ (In (Artist r) Facts.BAND_NAMES
           \/ Artist r = strip (Facts.parent_name (FolderPath r))
           \/ Artist r = Facts.folder_name (FolderPath r)
           \/ Artist r = path_name (FolderPath r)))
    rs.
Proof.
  apply scan_roots_all. intros r (fpath & _ & [[now ->]|H]).
  - cbn. split; [reflexivity|]. right. right. right. reflexivity.
  - destruct H as (folder & now & row & rep & container & known & _ & _ & Hrow & ->).
    destruct (show_row_columns _ _ _ _ _ _ Hrow)
      as (c & notes & _ & _ & _ & Ha & Ht & _).
    destruct (show_row_fields _ _ _ _ _ _ Hrow) as (_ & _ & _ & _ & Hp & _).
    destruct (link_checksum_columns
                (Run (with_facts h) roots header_only no_media do_checksums do_drive_id)
                row rep known)
      as (_ & _ & Ha' & Ht' & _).
    destruct (link_checksum_fields
                (Run (with_facts h) roots header_only no_media do_checksums do_drive_id)
                row rep known)
      as (_ & _ & Hp' & _).
    cbv zeta in *. rewrite Hp', Ha', Ht', Hp, Ha, Ht.
    cbn [tools with_facts resolve_artist determine_recording_type].
    split; [apply recording_type_values|].
    destruct (resolve_artist_cases fpath notes) as [Hb|[(He & _)|Hf]]; auto.
Qed.

Lemma rows_artist_and_recording_type_witness :
  exists rs,
    scan_roots (Run (with_facts example_host) ["/m"] false true true false)
               (one_root "/m" three_copies) = Ok rs
    /\ List.Forall
         (fun r =>
            mem (RecordingType r) ["Proshot"; "Audience"; "Documentary"; ""] = true
            /\ (In (Artist r) Facts.BAND_NAMES
                \/ Artist r = strip (Facts.parent_name (FolderPath r))
                \/ Artist r = Facts.folder_name (FolderPath r)
                \/ Artist r = path_name (FolderPath r)))
         rs.
Proof.
  assert (H : exists rs,
             scan_roots (Run (with_facts example_host) ["/m"] false true true false)
                        (one_root "/m" three_copies) = Ok rs)
    by (eexists; vm_compute; reflexivity).
  destruct H as [rs Hrs]. exists rs. split; [exact Hrs|].
  exact (rows_artist_and_recording_type example_host ["/m"] false true true false
           (one_root "/m" three_copies) rs Hrs).
Defined.

(** * Lineage *)

Lemma distinct_pieces_first_occurrences (pieces : list string) (seen : gset string) :
  Facts.distinct_pieces pieces seen
  = List.filter (fun u => negb (bool_decide (lower u ∈ seen)))
                (first_occurrences pieces).
Proof.
  revert seen. induction pieces as [|t rest IH]; intros seen; simpl.
  - reflexivity.
  - rewrite filter_filter_and.
    destruct (bool_decide (lower t ∈ seen)) eqn:Hseen; simpl.
    + rewrite IH. apply filter_ext. intros u.
      destruct (String.eqb_spec (lower u) (lower t)) as [->|]; simpl.
      * rewrite Hseen. reflexivity.
      * reflexivity.
    + rewrite IH. f_equal. apply filter_ext. intros u.
      destruct (String.eqb_spec (lower u) (lower t)) as [Heq|Hne]; simpl.
      * rewrite Heq. rewrite bool_decide_eq_true_2; [reflexivity|].
        rewrite elem_of_union, elem_of_singleton. tauto.
      * apply bool_decide_eq_false in Hseen.
        destruct (bool_decide (lower u ∈ seen)) eqn:Hu.
        -- apply bool_decide_eq_true in Hu.
           rewrite bool_decide_eq_true_2; [reflexivity|].
           rewrite elem_of_union, elem_of_singleton. tauto.
        -- apply bool_decide_eq_false in Hu.
           rewrite bool_decide_eq_false_2; [reflexivity|].
           rewrite elem_of_union, elem_of_singleton. tauto.
Qed.

(** X24: the lineage is made of the pieces found, each kept where it
    first occurs whatever its case, joined by " | " and cut after 2000
    characters. *)
Theorem lineage_of_distinct_pieces (notes : string) :
  Facts.extract_lineage notes
  = (if truthy notes
     then prefix 2000 (join " | " (first_occurrences (Facts.lineage_pieces notes)))
     else "")
  /\ List.NoDup (map lower (first_occurrences (Facts.lineage_pieces notes)))
  /\ (String.length (Facts.extract_lineage notes) <= 2000)%nat.
Proof.
  assert (Heq : Facts.extract_lineage notes
                = (if truthy notes
                   then prefix 2000
                          (join " | " (first_occurrences (Facts.lineage_pieces notes)))
                   else "")).
  { unfold Facts.extract_lineage. destruct (truthy notes); cbn [negb]; [|reflexivity].
    rewrite distinct_pieces_first_occurrences. do 2 f_equal.
    rewrite <- (filter_ext (fun _ => true)).
    - induction (first_occurrences _) as [|x l IH]; simpl; congruence.
    - intros u. rewrite bool_decide_eq_false_2; [reflexivity|].
      apply not_elem_of_empty. }
  split; [exact Heq|]. split; [apply first_occurrences_NoDup|].
  rewrite Heq. destruct (truthy notes); [apply prefix_length|simpl; lia].
Qed.
